(** * Brewin# (interpreter v3): a shallow embedding of the object runtime

    The development follows the four source units of the final revision of
    the interpreter: [classv3.py] (the static program model), [env_v3.py]
    (the scope manager), [objectv3.py] (dispatch and the tree-walking
    evaluator) and [interpreterv3.py] (the session).

    Python dictionaries are finite maps ([gmap]), Python lists are lists,
    Python integers are [Z].  Mutable interpreter state (class registries,
    the type registry, the objects, the host's output and input) is threaded
    explicitly.  Loops and recursion that need not terminate take a fuel
    argument. *)

From stdpp Require Import gmap strings list fin_maps.
From Stdlib Require Import ZArith Lia Ascii DecimalString.

#[local] Set Warnings "-register-all".
#[local] Open Scope string_scope.

(** ** Program trees

    The parser hands the interpreter nested Python lists of tokens.  Line
    numbers carried by the tokens only feed diagnostics and are left out. *)

Inductive sexp : Type :=
| Tok (s : string)
| Lst (l : list sexp).

(** ** Outcomes

    [Error k] is [InterpreterBase.error(k, ...)], which aborts the run (the
    message and the line are left out).  [Crash] is a Python exception the
    interpreter does not raise on purpose ([IndexError], [KeyError],
    [AttributeError], [TypeError], [ZeroDivisionError]); it is also the
    outcome on a tree that has a token where the source indexes a list, or a
    list where the source uses a name, places where Python goes on for a
    while on the characters of the token or fails later.  [OutOfFuel] is not
    an outcome of the program: the fuel given was too small. *)

Inductive ErrorType : Type :=
| TYPE_ERROR
| NAME_ERROR
| SYNTAX_ERROR
| FAULT_ERROR.

Inductive result (A : Type) : Type :=
| Ok (a : A)
| Error (e : ErrorType)
| Crash
| OutOfFuel.

Arguments Ok {A} a.
Arguments Error {A} e.
Arguments Crash {A}.
Arguments OutOfFuel {A}.

Definition bind {A B : Type} (m : result A) (f : A -> result B) : result B :=
  match m with
  | Ok a => f a
  | Error e => Error e
  | Crash => Crash
  | OutOfFuel => OutOfFuel
  end.

Notation "'let!' x ':=' y 'in' z" := (bind y (fun x => z))
  (at level 10, x name, y at level 100, z at level 200, only parsing).
Notation "'let!' ' x ':=' y 'in' z" := (bind y (fun x => z))
  (at level 10, x pattern, y at level 100, z at level 200, only parsing).
Notation "m >>= f" := (bind m f) (at level 60, right associativity, only parsing).

(** Modelled from the spec: the keyword constants of the host base class
    ([intbase.InterpreterBase]), which is not among the sources.  The
    statement names, [call], [new], [super] and the [@] of mangled names are
    the spec's; the others are the language's tokens. *)
Module InterpreterBase.
Definition SUPER_DEF := "super".
Definition ME_DEF := "me".
Definition NULL_DEF := "null".
Definition NOTHING_DEF := "nothing".
Definition VOID_DEF := "void".
Definition INT_DEF := "int".
Definition STRING_DEF := "string".
Definition BOOL_DEF := "bool".
Definition CLASS_DEF := "class".
Definition TEMPLATE_CLASS_DEF := "tclass".
Definition INHERITS_DEF := "inherits".
Definition FIELD_DEF := "field".
Definition METHOD_DEF := "method".
Definition BEGIN_DEF := "begin".
Definition SET_DEF := "set".
Definition IF_DEF := "if".
Definition CALL_DEF := "call".
Definition NEW_DEF := "new".
Definition WHILE_DEF := "while".
Definition RETURN_DEF := "return".
Definition THROW_DEF := "throw".
Definition TRY_DEF := "try".
Definition INPUT_STRING_DEF := "inputs".
Definition INPUT_INT_DEF := "inputi".
Definition PRINT_DEF := "print".
Definition LET_DEF := "let".
Definition MAIN_CLASS_DEF := "main".
Definition MAIN_FUNC_DEF := "main".
Definition EXCEPTION_VARIABLE_DEF := "exception".
Definition TYPE_CONCAT_CHAR : ascii := "@"%char.
End InterpreterBase.
Import InterpreterBase.

(** ** Python helpers *)

(** [code[i]] *)
Definition idx (code : list sexp) (i : nat) : result sexp :=
  match code !! i with
  | Some x => Ok x
  | None => Crash
  end.

Definition as_tok (x : sexp) : result string :=
  match x with
  | Tok s => Ok s
  | Lst _ => Crash
  end.

Definition as_list (x : sexp) : result (list sexp) :=
  match x with
  | Lst l => Ok l
  | Tok _ => Crash
  end.

(** [s.split(c)] for a one-character separator *)
Fixpoint split (c : ascii) (s : string) : list string :=
  match s with
  | EmptyString => [EmptyString]
  | String a s' =>
      if Ascii.eqb a c then EmptyString :: split c s'
      else match split c s' with
           | [] => [String a EmptyString]
           | h :: t => String a h :: t
           end
  end.

(** [c.join(parts)] *)
Fixpoint join (c : ascii) (parts : list string) : string :=
  match parts with
  | [] => EmptyString
  | [p] => p
  | p :: rest => String.append p (String c (join c rest))
  end.

(** [str(n)] for an integer *)
Definition str_int (z : Z) : string := NilZero.string_of_int (Z.to_int z).

(** ** Types and values *)

(** Modelled from the spec: the class [Type] of the type/value module
    ([type_valuev3]), which is not among the sources.  A type is built from
    its name ([Type(name)]), shows it as [type_name] and is compared by it. *)
Record Type_ : Type := mkType { type_name : string }.

Definition Type_eqb (a b : Type_) : bool :=
  String.eqb (type_name a) (type_name b).

(** One Python [ObjectDef]: level [ref_depth] (0 is the most derived) of the
    instance numbered [ref_inst]. *)
Record ObjRef : Type := mkRef { ref_inst : nat; ref_depth : nat }.

(** what a value wraps: a Python integer, string or boolean, or an object;
    the wrapped [None] of a null is the absence of a payload *)
Inductive payload : Type :=
| VInt (z : Z)
| VStr (s : string)
| VBool (b : bool)
| VObj (o : ObjRef).

(** Modelled from the spec: the typed value wrapper [Value] of the
    type/value module, which is not among the sources: [Value(type, value)]
    with [.type()] and [.value()]. *)
Record Value : Type := mkValue { v_type : Type_; v_value : option payload }.

(** Modelled from the spec: [Value.is_null], missing with the type/value
    module: a null wraps nothing. *)
Definition is_null (v : Value) : bool :=
  match v_value v with
  | None => true
  | Some _ => false
  end.

(** Modelled from the spec: [Value.is_typeless_null], missing with the
    type/value module: a null that carries no class tag, which is the value
    of the null token. *)
Definition is_typeless_null (v : Value) : bool :=
  is_null v && Type_eqb (v_type v) (mkType NULL_DEF).

Definition INT_TYPE_CONST : Type_ := mkType INT_DEF.
Definition STRING_TYPE_CONST : Type_ := mkType STRING_DEF.
Definition BOOL_TYPE_CONST : Type_ := mkType BOOL_DEF.

(** ** classv3: the static program model *)

Record VariableDef : Type := mkVariableDef {
  var_type : Type_;
  var_name : string;
  var_value : option Value
}.

Definition set_value (d : VariableDef) (v : Value) : VariableDef :=
  mkVariableDef (var_type d) (var_name d) (Some v).

Record MethodDef : Type := mkMethodDef {
  method_name : string;
  return_type : Type_;
  formal_params : list VariableDef;
  code : sexp
}.

(** [ClassDef]: the name, the field and method lists and the superclass.  The
    name-indexed copies ([field_map], [method_map]) and the kept source are
    never read and are left out. *)
Inductive ClassDef : Type :=
| mkClassDef (name : string) (fields : list VariableDef)
             (methods : list MethodDef) (super_class : option ClassDef).

Definition get_name (c : ClassDef) : string :=
  match c with mkClassDef n _ _ _ => n end.
Definition get_fields (c : ClassDef) : list VariableDef :=
  match c with mkClassDef _ f _ _ => f end.
Definition get_methods (c : ClassDef) : list MethodDef :=
  match c with mkClassDef _ _ m _ => m end.
Definition get_superclass (c : ClassDef) : option ClassDef :=
  match c with mkClassDef _ _ _ s => s end.

Record TemplateClassDef : Type := mkTemplateClassDef {
  t_name : string;
  t_class_source : list sexp;
  templated_types : list sexp
}.

(** ** objectv3: one level of an instance

    An instance is the list of its levels, most derived first: the chain the
    constructor builds through [__init_superclass_if_any] and never relinks.
    [super_object] of level [d] is level [d+1], [anchor_object] is level 0. *)

Record ObjectDef : Type := mkObjectDef {
  class_def : ClassDef;
  fields : gmap string VariableDef;
  methods : gmap string MethodDef
}.

(** ** The external collaborators *)

(** Modelled from the spec: the interface of what the sources call and do
    not define: the type registry [TypeManager] and the value constructors
    [create_value] and [create_default_value] of [type_valuev3], Python's
    [int(text)] and Python's [str] of an object.  Everything proved below
    holds for every implementation of this interface. *)
Class External : Type := {
  TypeManager : Type;
  TypeManager_new : TypeManager;
  tm_add_class_type : TypeManager -> string -> option string -> TypeManager;
  tm_is_valid_type : TypeManager -> string -> bool;
  tm_primitive_types : TypeManager -> list string;
  tm_check_type_compatibility : TypeManager -> Type_ -> Type_ -> bool -> bool;
  create_value : string -> option Value;
  create_default_value : Type_ -> option Value;
  int_of_text : string -> option Z;
  str_object : ObjRef -> string
}.

(** ** env_v3: the scope manager

    The frame stack, innermost frame first (the source appends the innermost
    frame at the end of a Python list and scans the list reversed).  A frame
    maps a symbol to [None] between [create_new_symbol] and the [set] that
    follows it. *)

Abbreviation frame := (gmap string (option VariableDef)).

Module EnvironmentManager.

Definition new : list frame := [∅].

Fixpoint get (environment : list frame) (symbol : string) : option VariableDef :=
  match environment with
  | [] => None
  | env :: outer =>
      match env !! symbol with
      | Some v => v
      | None => get outer symbol
      end
  end.

Definition create_new_symbol (environment : list frame) (symbol : string)
  : result (bool * list frame) :=
  match environment with
  | [] => Crash
  | env :: outer =>
      match env !! symbol with
      | None => Ok (true, <[symbol := None]> env :: outer)
      | Some _ => Ok (false, environment)
      end
  end.

Fixpoint set (environment : list frame) (symbol : string) (value : VariableDef)
  : bool * list frame :=
  match environment with
  | [] => (false, [])
  | env :: outer =>
      match env !! symbol with
      | Some _ => (true, <[symbol := Some value]> env :: outer)
      | None => let '(b, outer') := set outer symbol value in (b, env :: outer')
      end
  end.

Definition block_nest (environment : list frame) : list frame :=
  ∅ :: environment.

Definition block_unnest (environment : list frame) : result (list frame) :=
  match environment with
  | [] => Crash
  | _ :: outer => Ok outer
  end.

End EnvironmentManager.

(** ** Python operators on the payloads of values *)

Definition ref_eqb (a b : ObjRef) : bool :=
  (ref_inst a =? ref_inst b)%nat && (ref_depth a =? ref_depth b)%nat.

(** [a == b] *)
Definition py_eq (a b : option payload) : bool :=
  match a, b with
  | None, None => true
  | Some (VInt x), Some (VInt y) => (x =? y)%Z
  | Some (VStr x), Some (VStr y) => String.eqb x y
  | Some (VBool x), Some (VBool y) => Bool.eqb x y
  | Some (VObj x), Some (VObj y) => ref_eqb x y
  | Some (VInt x), Some (VBool y) => (x =? (if y then 1 else 0))%Z
  | Some (VBool y), Some (VInt x) => (x =? (if y then 1 else 0))%Z
  | _, _ => false
  end.

(** the truth value Python's [if], [and], [or] and [not] give a payload *)
Definition truthy (a : option payload) : bool :=
  match a with
  | None => false
  | Some (VInt z) => negb (z =? 0)%Z
  | Some (VStr s) => negb (String.eqb s EmptyString)
  | Some (VBool b) => b
  | Some (VObj _) => true
  end.

(** [str(a)]; the text of an object is the host's *)
Definition py_str (str_object : ObjRef -> string) (a : option payload) : string :=
  match a with
  | None => "None"
  | Some (VInt z) => str_int z
  | Some (VStr s) => s
  | Some (VBool true) => "True"
  | Some (VBool false) => "False"
  | Some (VObj o) => str_object o
  end.

(** An operator on two integers, resp. two strings; on other payloads
    Python raises (or computes with a payload its type tag does not
    announce, which no value built by the interpreter has). *)
Definition on_ints {A : Type} (f : Z -> Z -> result A) (a b : Value) : result A :=
  match v_value a, v_value b with
  | Some (VInt x), Some (VInt y) => f x y
  | _, _ => Crash
  end.

Definition on_strings {A : Type} (f : string -> string -> A) (a b : Value)
  : result A :=
  match v_value a, v_value b with
  | Some (VStr x), Some (VStr y) => Ok (f x y)
  | _, _ => Crash
  end.

Definition int_value (z : Z) : Value := mkValue INT_TYPE_CONST (Some (VInt z)).
Definition bool_value (b : bool) : Value := mkValue BOOL_TYPE_CONST (Some (VBool b)).
Definition string_value (s : string) : Value :=
  mkValue STRING_TYPE_CONST (Some (VStr s)).

(** [a // b] and [a % b]: Python rounds the quotient down and raises on a
    zero divisor *)
Definition floordiv (x y : Z) : result Z :=
  if (y =? 0)%Z then Crash else Ok (x / y)%Z.
Definition pymod (x y : Z) : result Z :=
  if (y =? 0)%Z then Crash else Ok (x mod y)%Z.

(** [__create_map_of_operations_to_lambdas] *)
Definition binary_op_list : list string :=
  ["+"; "-"; "*"; "/"; "%"; "=="; "!="; "<"; "<="; ">"; ">="; "&"; "|"].
Definition unary_op_list : list string := ["!"].

Definition py_equal (a b : Value) : result Value :=
  Ok (bool_value (py_eq (v_value a) (v_value b))).
Definition py_not_equal (a b : Value) : result Value :=
  Ok (bool_value (negb (py_eq (v_value a) (v_value b)))).

(** [binary_ops[INT_DEF]] *)
Definition binary_ops_int (op : string) : option (Value -> Value -> result Value) :=
  if String.eqb op "+" then Some (on_ints (fun x y => Ok (int_value (x + y))))
  else if String.eqb op "-" then Some (on_ints (fun x y => Ok (int_value (x - y))))
  else if String.eqb op "*" then Some (on_ints (fun x y => Ok (int_value (x * y))))
  else if String.eqb op "/" then
    Some (on_ints (fun x y => let! q := floordiv x y in Ok (int_value q)))
  else if String.eqb op "%" then
    Some (on_ints (fun x y => let! r := pymod x y in Ok (int_value r)))
  else if String.eqb op "==" then Some py_equal
  else if String.eqb op "!=" then Some py_not_equal
  else if String.eqb op ">" then Some (on_ints (fun x y => Ok (bool_value (x >? y)%Z)))
  else if String.eqb op "<" then Some (on_ints (fun x y => Ok (bool_value (x <? y)%Z)))
  else if String.eqb op ">=" then Some (on_ints (fun x y => Ok (bool_value (x >=? y)%Z)))
  else if String.eqb op "<=" then Some (on_ints (fun x y => Ok (bool_value (x <=? y)%Z)))
  else None.

(** [binary_ops[STRING_DEF]] *)
Definition binary_ops_string (op : string)
  : option (Value -> Value -> result Value) :=
  if String.eqb op "+" then
    Some (fun a b => let! r := on_strings String.append a b in Ok (string_value r))
  else if String.eqb op "==" then Some py_equal
  else if String.eqb op "!=" then Some py_not_equal
  else if String.eqb op ">" then
    Some (fun a b => let! r := on_strings (fun x y => String.ltb y x) a b in
                     Ok (bool_value r))
  else if String.eqb op "<" then
    Some (fun a b => let! r := on_strings String.ltb a b in Ok (bool_value r))
  else if String.eqb op ">=" then
    Some (fun a b => let! r := on_strings (fun x y => String.leb y x) a b in
                     Ok (bool_value r))
  else if String.eqb op "<=" then
    Some (fun a b => let! r := on_strings String.leb a b in Ok (bool_value r))
  else None.

(** [binary_ops[BOOL_DEF]]: [and] and [or] give back one of their operands *)
Definition binary_ops_bool (op : string) : option (Value -> Value -> result Value) :=
  if String.eqb op "&" then
    Some (fun a b => Ok (mkValue BOOL_TYPE_CONST
                           (if truthy (v_value a) then v_value b else v_value a)))
  else if String.eqb op "|" then
    Some (fun a b => Ok (mkValue BOOL_TYPE_CONST
                           (if truthy (v_value a) then v_value a else v_value b)))
  else if String.eqb op "==" then Some py_equal
  else if String.eqb op "!=" then Some py_not_equal
  else None.

(** [binary_ops[CLASS_DEF]] *)
Definition binary_ops_class (op : string) : option (Value -> Value -> result Value) :=
  if String.eqb op "==" then Some py_equal
  else if String.eqb op "!=" then Some py_not_equal
  else None.

(** [unary_ops[BOOL_DEF]] *)
Definition unary_ops_bool (op : string) : option (Value -> result Value) :=
  if String.eqb op "!" then Some (fun a => Ok (bool_value (negb (truthy (v_value a)))))
  else None.

(** statement execution results *)
Inductive status : Type :=
| STATUS_PROCEED
| STATUS_RETURN
| STATUS_EXCEPTION.

Definition status_eqb (a b : status) : bool :=
  match a, b with
  | STATUS_PROCEED, STATUS_PROCEED => true
  | STATUS_RETURN, STATUS_RETURN => true
  | STATUS_EXCEPTION, STATUS_EXCEPTION => true
  | _, _ => false
  end.

(** [__propagate_type_to_null] *)
Definition propagate_type_to_null (var_def : VariableDef) : Value :=
  match var_value var_def with
  | None => mkValue (var_type var_def) None
  | Some v => if is_null v then mkValue (var_type var_def) None else v
  end.

(** [__map_method_names_to_method_definitions] *)
Definition map_method_names_to_method_definitions (c : ClassDef)
  : gmap string MethodDef :=
  foldl (fun m method => <[method_name method := method]> m) ∅ (get_methods c).

(** [__instantiate_fields] *)
Definition instantiate_fields (c : ClassDef) : gmap string VariableDef :=
  foldl (fun m vardef => <[var_name vardef := vardef]> m) ∅ (get_fields c).

(** [ObjectDef.__init__]: the level for the class and, through
    [__init_superclass_if_any], the levels for its superclasses *)
Fixpoint ObjectDef_init (c : ClassDef) : list ObjectDef :=
  match c with
  | mkClassDef _ _ _ super_class =>
      mkObjectDef c (instantiate_fields c) (map_method_names_to_method_definitions c)
      :: match super_class with
         | None => []
         | Some superclass_def => ObjectDef_init superclass_def
         end
  end.

Section Runtime.
Context {ext : External}.

(** ** interpreterv3: the session state

    [class_index] maps a name to [None] while the class of that name is being
    built (the placeholder) and to its [ClassDef] afterwards.  [heap] holds
    the instances, [output] the lines given to the host and [input] the lines
    still to be read. *)

Record Interpreter : Type := mkInterpreter {
  class_index : gmap string (option ClassDef);
  template_class_index : gmap string TemplateClassDef;
  type_manager : TypeManager;
  heap : list (list ObjectDef);
  output : list string;
  input : list string
}.

Definition set_class_index (st : Interpreter) (k : string) (c : option ClassDef)
  : Interpreter :=
  mkInterpreter (<[k := c]> (class_index st)) (template_class_index st)
                (type_manager st) (heap st) (output st) (input st).

Definition set_template_class_index (st : Interpreter) (k : string)
    (t : TemplateClassDef) : Interpreter :=
  mkInterpreter (class_index st) (<[k := t]> (template_class_index st))
                (type_manager st) (heap st) (output st) (input st).

Definition add_class_type (st : Interpreter) (k : string) (sup : option string)
  : Interpreter :=
  mkInterpreter (class_index st) (template_class_index st)
                (tm_add_class_type (type_manager st) k sup)
                (heap st) (output st) (input st).

Definition set_heap (st : Interpreter) (h : list (list ObjectDef)) : Interpreter :=
  mkInterpreter (class_index st) (template_class_index st) (type_manager st)
                h (output st) (input st).

Definition is_valid_type (st : Interpreter) (typename : string) : bool :=
  tm_is_valid_type (type_manager st) typename.

Definition check_type_compatibility (st : Interpreter) (typea typeb : Type_)
    (for_assignment : bool) : bool :=
  tm_check_type_compatibility (type_manager st) typea typeb for_assignment.

Definition get_class_def (st : Interpreter) (class_name : string)
  : result (option ClassDef) :=
  match class_index st !! class_name with
  | None => Error TYPE_ERROR
  | Some c => Ok c
  end.

(** ** classv3: building a class from its declaration *)

(** [member[0] == keyword] for a member of a class body *)
Definition member_is (keyword : string) (member : sexp) : result bool :=
  match member with
  | Tok EmptyString => Crash
  | Tok _ => Ok false
  | Lst [] => Crash
  | Lst (Tok h :: _) => Ok (String.eqb h keyword)
  | Lst (Lst _ :: _) => Ok false
  end.

(** [MethodDef.__parse_params] *)
Fixpoint parse_params_list (params : list sexp) : result (list VariableDef) :=
  match params with
  | [] => Ok []
  | param :: rest =>
      let! p := as_list param in
      let! ty := idx p 0 >>= as_tok in
      let! nm := idx p 1 >>= as_tok in
      let! ps := parse_params_list rest in
      Ok (mkVariableDef (mkType ty) nm None :: ps)
  end.

Definition parse_params (params : sexp) : result (list VariableDef) :=
  match params with
  | Tok EmptyString => Ok []
  | Tok _ => Crash
  | Lst l => parse_params_list l
  end.

(** [MethodDef.__init__] *)
Definition MethodDef_init (method_source : list sexp) : result MethodDef :=
  let! nm := idx method_source 2 >>= as_tok in
  let! rt := idx method_source 1 >>= as_tok in
  let! ps := idx method_source 3 >>= parse_params in
  let! body := idx method_source 4 in
  Ok (mkMethodDef nm
        (if String.eqb rt VOID_DEF then mkType NOTHING_DEF else mkType rt)
        ps body).

(** [TemplateClassDef.__replace] *)
Fixpoint replace (template_to_actual : gmap string string) (c : sexp) : sexp :=
  match c with
  | Tok s =>
      match template_to_actual !! s with
      | Some a => Tok a
      | None =>
          let code_parts := split TYPE_CONCAT_CHAR s in
          if (1 <? length code_parts)%nat then
            Tok (join TYPE_CONCAT_CHAR
                   (map (fun p => default p (template_to_actual !! p)) code_parts))
          else Tok s
      end
  | Lst l => Lst (map (replace template_to_actual) l)
  end.

(** the dictionary [instantiate_class] fills from
    [zip(self.templated_types, actual_types)] *)
Fixpoint zip_template (templates : list sexp) (actuals : list string)
    (m : gmap string string) : result (gmap string string) :=
  match templates, actuals with
  | t :: ts, a :: acts =>
      let! k := as_tok t in
      zip_template ts acts (<[k := a]> m)
  | _, _ => Ok m
  end.

(** [instantiate_class] up to the call of the [ClassDef] constructor: the
    tree that constructor is given *)
Definition instantiate_source (t : TemplateClassDef) (actual_types : list string)
  : result (list sexp) :=
  let! template_to_actual := zip_template (templated_types t) actual_types ∅ in
  let source := t_class_source t in
  let! _ := idx source 0 in
  let source := <[0 := Tok CLASS_DEF]> source in
  let! n := idx source 1 >>= as_tok in
  let source :=
    <[1 := Tok (String.append n
                  (String TYPE_CONCAT_CHAR (join TYPE_CONCAT_CHAR actual_types)))]>
      source in
  let! _ := idx source 2 in
  let source := delete 2 source in
  Ok (map (replace template_to_actual) source).

Section ClassBody.

(** [ClassDef(source, interpreter)], as called by [instantiate_class] *)
Variable ClassDef_new :
  Interpreter -> list sexp -> result (Interpreter * ClassDef).

(** [TemplateClassDef.instantiate_class] *)
Definition instantiate_class_with (st : Interpreter) (t : TemplateClassDef)
    (actual_types : list string) : result (Interpreter * ClassDef) :=
  if negb (length (templated_types t) =? length actual_types)%nat
  then Error TYPE_ERROR
  else let! source := instantiate_source t actual_types in ClassDef_new st source.

(** The block that [__create_variable_def_from_field] runs on a field's
    type and [__check_method_names_and_types] on a return type and on each
    parameter type: a compound name whose base is a blueprint is registered
    with a placeholder, then instantiated. *)
Definition resolve_compound_type (st : Interpreter) (tn : string)
  : result Interpreter :=
  match split TYPE_CONCAT_CHAR tn with
  | base :: ((_ :: _) as actual_types) =>
      match template_class_index st !! base with
      | None => Error TYPE_ERROR
      | Some template_class_def =>
          match class_index st !! tn with
          | Some _ => Ok st
          | None =>
              let st := set_class_index st tn None in
              let st := add_class_type st tn None in
              let! '(st, c) := instantiate_class_with st template_class_def actual_types in
              Ok (set_class_index st tn (Some c))
          end
      end
  | _ => Ok st
  end.

(** [ClassDef.__create_variable_def_from_field] *)
Definition create_variable_def_from_field (st : Interpreter)
    (field_def : list sexp) : result (Interpreter * VariableDef) :=
  let! ty := idx field_def 1 >>= as_tok in
  let! st := resolve_compound_type st ty in
  let! nm := idx field_def 2 >>= as_tok in
  let! v :=
    (if (length field_def <? 4)%nat
     then Ok (create_default_value (mkType ty))
     else let! tok := idx field_def 3 >>= as_tok in Ok (create_value tok)) in
  let var_def := mkVariableDef (mkType ty) nm v in
  match v with
  | Some val =>
      if negb (check_type_compatibility st (mkType ty) (v_type val) true)
      then Error TYPE_ERROR
      else Ok (st, var_def)
  | None => Ok (st, var_def)
  end.

(** [ClassDef.__create_field_list] *)
Fixpoint create_field_list (st : Interpreter) (class_body : list sexp)
    (fields : list VariableDef) (fields_defined_so_far : gset string)
  : result (Interpreter * list VariableDef) :=
  match class_body with
  | [] => Ok (st, fields)
  | member :: rest =>
      let! is_field := member_is FIELD_DEF member in
      if is_field then
        let! m := as_list member in
        let! nm := idx m 2 >>= as_tok in
        if bool_decide (nm ∈ fields_defined_so_far) then Error NAME_ERROR
        else
          let! '(st, var_def) := create_variable_def_from_field st m in
          create_field_list st rest (fields ++ [var_def])
                            ({[nm]} ∪ fields_defined_so_far)
      else create_field_list st rest fields fields_defined_so_far
  end.

(** the loop over the formal parameters in
    [ClassDef.__check_method_names_and_types] *)
Fixpoint check_param_types (st : Interpreter) (params : list VariableDef)
  : result Interpreter :=
  match params with
  | [] => Ok st
  | param :: rest =>
      let! st := resolve_compound_type st (type_name (var_type param)) in
      if negb (is_valid_type st (type_name (var_type param)))
      then Error TYPE_ERROR
      else check_param_types st rest
  end.

(** [ClassDef.__check_method_names_and_types] *)
Definition check_method_names_and_types (st : Interpreter) (method_def : MethodDef)
  : result Interpreter :=
  let! st := resolve_compound_type st (type_name (return_type method_def)) in
  if negb (is_valid_type st (type_name (return_type method_def)))
     && negb (Type_eqb (return_type method_def) (mkType NOTHING_DEF))
  then Error TYPE_ERROR
  else check_param_types st (formal_params method_def).

(** [ClassDef.__create_method_list] *)
Fixpoint create_method_list (st : Interpreter) (class_body : list sexp)
    (methods : list MethodDef) (methods_defined_so_far : gset string)
  : result (Interpreter * list MethodDef) :=
  match class_body with
  | [] => Ok (st, methods)
  | member :: rest =>
      let! is_method := member_is METHOD_DEF member in
      if is_method then
        let! m := as_list member in
        let! method_def := MethodDef_init m in
        if bool_decide (method_name method_def ∈ methods_defined_so_far)
        then Error NAME_ERROR
        else
          let! st := check_method_names_and_types st method_def in
          create_method_list st rest (methods ++ [method_def])
                             ({[method_name method_def]} ∪ methods_defined_so_far)
      else create_method_list st rest methods methods_defined_so_far
  end.

(** [ClassDef.__check_for_inheritance_and_set_superclass_info]: the
    superclass and the index at which the members start *)
Definition check_for_inheritance_and_set_superclass_info (st : Interpreter)
    (class_source : list sexp) : result (option ClassDef * nat) :=
  let! c2 := idx class_source 2 in
  match c2 with
  | Tok w =>
      if String.eqb w INHERITS_DEF then
        let! super_class_name := idx class_source 3 >>= as_tok in
        let! super_class := get_class_def st super_class_name in
        Ok (super_class, 4)
      else Ok (None, 2)
  | Lst _ => Ok (None, 2)
  end.

(** [ClassDef.__init__] *)
Definition ClassDef_body (st : Interpreter) (class_source : list sexp)
  : result (Interpreter * ClassDef) :=
  let! nm := idx class_source 1 >>= as_tok in
  let! '(super_class, start) := check_for_inheritance_and_set_superclass_info st class_source in
  let! '(st, fs) := create_field_list st (drop start class_source) [] ∅ in
  let! '(st, ms) := create_method_list st (drop start class_source) [] ∅ in
  Ok (st, mkClassDef nm fs ms super_class).

End ClassBody.

(** The constructor and [instantiate_class] call each other; one unit of
    fuel is spent per nested construction. *)
Fixpoint ClassDef_init (fuel : nat) (st : Interpreter) (class_source : list sexp)
  : result (Interpreter * ClassDef) :=
  match fuel with
  | O => OutOfFuel
  | S n => ClassDef_body (ClassDef_init n) st class_source
  end.

Definition instantiate_class (fuel : nat) (st : Interpreter)
    (t : TemplateClassDef) (actual_types : list string)
  : result (Interpreter * ClassDef) :=
  instantiate_class_with (ClassDef_init fuel) st t actual_types.

(** ** interpreterv3: [Interpreter.instantiate] *)

Definition instantiate (fuel : nat) (st : Interpreter) (class_name : string)
  : result (Interpreter * ObjRef) :=
  let! st :=
    match class_index st !! class_name with
    | Some _ => Ok st
    | None =>
        match split TYPE_CONCAT_CHAR class_name with
        | [] => Crash
        | base :: class_args =>
            match template_class_index st !! base with
            | None => Error TYPE_ERROR
            | Some template_class_def =>
                if existsb
                     (fun template_type =>
                        negb (is_valid_type st template_type)
                        && negb (bool_decide
                                   (template_type ∈ tm_primitive_types (type_manager st))))
                     class_args
                then Error TYPE_ERROR
                else
                  let st := add_class_type st class_name None in
                  let! '(st, c) := instantiate_class fuel st template_class_def class_args in
                  Ok (set_class_index st class_name (Some c))
            end
        end
    end in
  match class_index st !! class_name with
  | Some (Some class_def) =>
      Ok (set_heap st (heap st ++ [ObjectDef_init class_def]),
          mkRef (length (heap st)) 0)
  | _ => Crash
  end.

(** ** objectv3: the levels of an instance *)

Definition get_level (st : Interpreter) (o : ObjRef) : result ObjectDef :=
  match heap st !! ref_inst o with
  | None => Crash
  | Some levels =>
      match levels !! ref_depth o with
      | None => Crash
      | Some l => Ok l
      end
  end.

Definition anchor_object (o : ObjRef) : ObjRef := mkRef (ref_inst o) 0.

Definition super_object (st : Interpreter) (o : ObjRef) : option ObjRef :=
  match heap st !! ref_inst o with
  | None => None
  | Some levels =>
      match levels !! S (ref_depth o) with
      | None => None
      | Some _ => Some (mkRef (ref_inst o) (S (ref_depth o)))
      end
  end.

(** the field table of level [o] with [field_name] bound to [d] *)
Definition set_field_def (st : Interpreter) (o : ObjRef) (field_name : string)
    (d : VariableDef) : Interpreter :=
  set_heap st
    (alter (alter (fun l => mkObjectDef (class_def l)
                                        (<[field_name := d]> (fields l))
                                        (methods l))
                  (ref_depth o))
           (ref_inst o) (heap st)).

(** [get_me_as_value] *)
Definition get_me_as_value (st : Interpreter) (self : ObjRef) : result Value :=
  let anchor := anchor_object self in
  let! l := get_level st anchor in
  Ok (mkValue (mkType (get_name (class_def l))) (Some (VObj anchor))).

(** [__compatible_param_types] *)
Fixpoint compatible_param_types (st : Interpreter)
    (actual_params : list (option Value)) (formal_params : list VariableDef)
  : result bool :=
  match formal_params, actual_params with
  | formal :: formals, actual :: actuals =>
      match actual with
      | None => Crash
      | Some a =>
          if negb (check_type_compatibility st (var_type formal) (v_type a) true)
          then Ok false
          else compatible_param_types st actuals formals
      end
  | _, _ => Ok true
  end.

(** the loop of [__get_obj_with_method] over the levels from [cur_obj] (at
    depth [d]) down to the base *)
Fixpoint get_obj_with_method_from (st : Interpreter) (inst : nat)
    (levels : list ObjectDef) (d : nat) (method_name : string)
    (actual_params : list (option Value)) : result (option ObjRef) :=
  match levels with
  | [] => Ok None
  | cur_obj :: supers =>
      match methods cur_obj !! method_name with
      | None =>
          get_obj_with_method_from st inst supers (S d) method_name actual_params
      | Some method_def =>
          let! found :=
            (if (length actual_params =? length (formal_params method_def))%nat
             then compatible_param_types st actual_params (formal_params method_def)
             else Ok false) in
          if found then Ok (Some (mkRef inst d))
          else get_obj_with_method_from st inst supers (S d) method_name
                                        actual_params
      end
  end.

(** [__get_obj_with_method] *)
Definition get_obj_with_method (st : Interpreter) (start_obj : ObjRef)
    (method_name : string) (actual_params : list (option Value))
  : result (option ObjRef) :=
  match heap st !! ref_inst start_obj with
  | None => Crash
  | Some levels =>
      get_obj_with_method_from st (ref_inst start_obj)
        (drop (ref_depth start_obj) levels) (ref_depth start_obj)
        method_name actual_params
  end.

(** [call_method] up to the choice of the level whose method runs: the
    check that [self] or a base of it knows the method, then the search from
    the anchor (from [self] for a call through [super]) *)
Definition dispatch (st : Interpreter) (self : ObjRef) (method_name : string)
    (actual_params : list (option Value)) (super_only : bool)
  : result (option ObjRef) :=
  let! known := get_obj_with_method st self method_name actual_params in
  match known with
  | None => Error NAME_ERROR
  | Some _ =>
      let anchor := if super_only then self else anchor_object self in
      get_obj_with_method st anchor method_name actual_params
  end.

(** the loop of [call_method] that binds the actual to the formal
    parameters; [None] when an actual is absent *)
Fixpoint bind_params (env : list frame) (formal_params : list VariableDef)
    (actual_params : list (option Value)) : result (option (list frame)) :=
  match formal_params, actual_params with
  | formal :: formals, actual :: actuals =>
      match actual with
      | None => Ok None
      | Some a =>
          let formal_copy := set_value formal a in
          let! '(fresh, env) :=
            EnvironmentManager.create_new_symbol env (var_name formal_copy) in
          if negb fresh then Error NAME_ERROR
          else
            let '(_, env) := EnvironmentManager.set env (var_name formal_copy)
                                                    formal_copy in
            bind_params env formals actuals
      end
  | _, _ => Ok (Some env)
  end.

(** the end of [call_method]: what the caller gets for the status and value
    the body finished with *)
Definition method_result (method_def : MethodDef) (st : status)
    (return_value : option Value) : status * option Value :=
  match st, return_value with
  | STATUS_RETURN, Some v => (STATUS_PROCEED, Some v)
  | STATUS_EXCEPTION, _ => (STATUS_EXCEPTION, return_value)
  | _, _ => (STATUS_PROCEED, create_default_value (return_type method_def))
  end.

(** [__check_type_compatibility] *)
Definition check_type_compatibility_or_error (st : Interpreter)
    (lvalue_type rvalue_type : Type_) (for_assignment : bool) : result unit :=
  if negb (check_type_compatibility st lvalue_type rvalue_type for_assignment)
  then Error TYPE_ERROR
  else Ok tt.

(** [__set_local_or_param] *)
Definition set_local_or_param (st : Interpreter) (env : list frame)
    (var_name : string) (value : Value) : result (bool * list frame) :=
  match EnvironmentManager.get env var_name with
  | None => Ok (false, env)
  | Some var_def =>
      let! _ := check_type_compatibility_or_error st (var_type var_def)
                                                  (v_type value) true in
      Ok (true, snd (EnvironmentManager.set env var_name (set_value var_def value)))
  end.

(** [__set_field] *)
Definition set_field (st : Interpreter) (self : ObjRef) (field_name : string)
    (value : Value) : result (bool * Interpreter) :=
  let! l := get_level st self in
  match fields l !! field_name with
  | None => Ok (false, st)
  | Some var_def =>
      let! _ := check_type_compatibility_or_error st (var_type var_def)
                                                  (v_type value) true in
      Ok (true, set_field_def st self field_name (set_value var_def value))
  end.

(** [__set_variable_aux] *)
Definition set_variable_aux (st : Interpreter) (self : ObjRef) (env : list frame)
    (var_name : string) (value : option Value)
  : result (Interpreter * list frame) :=
  match value with
  | None => Ok (st, env)
  | Some v =>
      let! '(done_local, env) := set_local_or_param st env var_name v in
      if done_local then Ok (st, env)
      else
        let! '(done_field, st) := set_field st self var_name v in
        if done_field then Ok (st, env) else Error NAME_ERROR
  end.

(** what a statement or an expression hands back: the session, the frame
    stack as the callee left it, the status and the value *)
Abbreviation outcome := (Interpreter * list frame * (status * option Value))%type.

(** the text [" ".join(x for x in code[1])] of the diagnostics of [if] and
    [while]: Python raises on a nested list *)
Definition condition_text_ok (cond : sexp) : bool :=
  match cond with
  | Tok _ => true
  | Lst l => forallb (fun x => match x with Tok _ => true | Lst _ => false end) l
  end.

(** the check of the condition of [if] and [while] *)
Definition check_condition (cond : sexp) (condition : option Value)
  : result Value :=
  match condition with
  | None => if condition_text_ok cond then Error TYPE_ERROR else Crash
  | Some c =>
      if negb (Type_eqb (v_type c) BOOL_TYPE_CONST)
      then (if condition_text_ok cond then Error TYPE_ERROR else Crash)
      else Ok c
  end.

Section Evaluator.

(** the evaluator's functions call each other; here they are at the fuel of
    the calls made from the function being defined *)
Variable execute_statement_rec :
  Interpreter -> ObjRef -> list frame -> Type_ -> sexp -> result outcome.
Variable execute_while_rec :
  Interpreter -> ObjRef -> list frame -> Type_ -> list sexp -> result outcome.
Variable evaluate_expression_rec :
  Interpreter -> ObjRef -> list frame -> sexp -> result outcome.
Variable call_method_rec :
  Interpreter -> ObjRef -> string -> list (option Value) -> bool ->
  result (Interpreter * (status * option Value)).
Variable instantiate_class_rec :
  Interpreter -> TemplateClassDef -> list string -> result (Interpreter * ClassDef).
Variable instantiate_rec : Interpreter -> string -> result (Interpreter * ObjRef).

(** [call_method] *)
Definition call_method_body (st : Interpreter) (self : ObjRef)
    (method_name : string) (actual_params : list (option Value))
    (super_only : bool) : result (Interpreter * (status * option Value)) :=
  let! obj_to_call_on := dispatch st self method_name actual_params super_only in
  match obj_to_call_on with
  | None => Ok (st, (STATUS_PROCEED, None))
  | Some o =>
      let! l := get_level st o in
      match methods l !! method_name with
      | None => Crash
      | Some method_def =>
          let! bound := bind_params EnvironmentManager.new
                                    (formal_params method_def) actual_params in
          match bound with
          | None => Ok (st, (STATUS_PROCEED, None))
          | Some env =>
              let! '(st, _, (status, return_value)) :=
                execute_statement_rec st o env (return_type method_def)
                                      (code method_def) in
              Ok (st, method_result method_def status return_value)
          end
      end
  end.

(** the loop of [__execute_call_aux] that evaluates the actual arguments *)
Fixpoint evaluate_args (st : Interpreter) (self : ObjRef) (env : list frame)
    (exprs : list sexp) (actual_args : list (option Value))
  : result (Interpreter * list frame * (status * option Value + list (option Value))) :=
  match exprs with
  | [] => Ok (st, env, inr actual_args)
  | expr :: rest =>
      let! '(st, env, (status, arg)) := evaluate_expression_rec st self env expr in
      if status_eqb status STATUS_EXCEPTION then Ok (st, env, inl (status, arg))
      else evaluate_args st self env rest (actual_args ++ [arg])
  end.

(** [__execute_call_aux]: the object the call is made on, for a receiver
    that is neither [me] nor [super]; [inl] when the evaluation ends the call *)
Definition evaluate_receiver (st : Interpreter) (self : ObjRef) (env : list frame)
    (obj_name : sexp)
  : result (Interpreter * list frame * (status * option Value + payload * bool)) :=
  let! '(st, env, (status, obj_val)) := evaluate_expression_rec st self env obj_name in
  if status_eqb status STATUS_EXCEPTION then Ok (st, env, inl (status, obj_val))
  else
    match obj_val with
    | None => Ok (st, env, inl (STATUS_PROCEED, None))
    | Some v =>
        match v_value v with
        | None => Error FAULT_ERROR
        | Some obj => Ok (st, env, inr (obj, false))
        end
    end.

(** [__execute_call_aux] *)
Definition execute_call_aux (st : Interpreter) (self : ObjRef) (env : list frame)
    (code : list sexp) : result outcome :=
  let! obj_name := idx code 1 in
  let! '(st, env, target) :=
    match obj_name with
    | Tok w =>
        if String.eqb w ME_DEF then Ok (st, env, inr (VObj self, false))
        else if String.eqb w SUPER_DEF then
          match super_object st self with
          | None => Error TYPE_ERROR
          | Some o => Ok (st, env, inr (VObj o, true))
          end
        else evaluate_receiver st self env obj_name
    | Lst _ => evaluate_receiver st self env obj_name
    end in
  match target with
  | inl r => Ok (st, env, r)
  | inr (obj, super_only) =>
      let! '(st, env, args) := evaluate_args st self env (drop 3 code) [] in
      match args with
      | inl r => Ok (st, env, r)
      | inr actual_args =>
          match obj with
          | VObj o =>
              let! method_name := idx code 2 >>= as_tok in
              let! '(st, r) := call_method_rec st o method_name actual_args super_only in
              Ok (st, env, r)
          | _ => Crash
          end
      end
  end.

(** [__execute_new_aux] *)
Definition execute_new_aux (st : Interpreter) (code : list sexp)
  : result (Interpreter * Value) :=
  let! class_name := idx code 1 >>= as_tok in
  let! '(st, obj) := instantiate_rec st class_name in
  Ok (st, mkValue (mkType class_name) (Some (VObj obj))).

(** [__evaluate_expression], the operands of a binary operator being
    evaluated: the dispatch on their types *)
Definition apply_binary (st : Interpreter) (operator : string)
    (operand1 operand2 : option Value) : result Value :=
  match operand1, operand2 with
  | Some a, Some b =>
      if Type_eqb (v_type a) (v_type b) && Type_eqb (v_type a) INT_TYPE_CONST then
        match binary_ops_int operator with
        | None => Error TYPE_ERROR
        | Some f => f a b
        end
      else if Type_eqb (v_type a) (v_type b)
              && Type_eqb (v_type a) STRING_TYPE_CONST then
        match binary_ops_string operator with
        | None => Error TYPE_ERROR
        | Some f => f a b
        end
      else if Type_eqb (v_type a) (v_type b)
              && Type_eqb (v_type a) BOOL_TYPE_CONST then
        match binary_ops_bool operator with
        | None => Error TYPE_ERROR
        | Some f => f a b
        end
      else if check_type_compatibility st (v_type a) (v_type b) false then
        match binary_ops_class operator with
        | None => Crash
        | Some f => f a b
        end
      else Error TYPE_ERROR
  | _, _ => Error TYPE_ERROR
  end.

(** [__evaluate_expression] on a token *)
Definition evaluate_token (st : Interpreter) (self : ObjRef) (env : list frame)
    (expr : string) : result outcome :=
  match EnvironmentManager.get env expr with
  | Some var_def =>
      Ok (st, env, (STATUS_PROCEED, Some (propagate_type_to_null var_def)))
  | None =>
      let! l := get_level st self in
      match fields l !! expr with
      | Some var_def =>
          Ok (st, env, (STATUS_PROCEED, Some (propagate_type_to_null var_def)))
      | None =>
          match create_value expr with
          | Some value => Ok (st, env, (STATUS_PROCEED, Some value))
          | None =>
              if String.eqb expr ME_DEF then
                let! me := get_me_as_value st self in
                Ok (st, env, (STATUS_PROCEED, Some me))
              else Error NAME_ERROR
          end
      end
  end.

(** [__evaluate_expression] on a list whose head is the token [operator] *)
Definition evaluate_operation (st : Interpreter) (self : ObjRef)
    (env : list frame) (operator : string) (expr : list sexp) : result outcome :=
  if bool_decide (operator ∈ binary_op_list) then
    let! e1 := idx expr 1 in
    let! '(st, env, (status1, operand1)) := evaluate_expression_rec st self env e1 in
    if status_eqb status1 STATUS_EXCEPTION then Ok (st, env, (status1, operand1))
    else
      let! e2 := idx expr 2 in
      let! '(st, env, (status2, operand2)) :=
        evaluate_expression_rec st self env e2 in
      if status_eqb status2 STATUS_EXCEPTION then Ok (st, env, (status2, operand2))
      else
        let! v := apply_binary st operator operand1 operand2 in
        Ok (st, env, (STATUS_PROCEED, Some v))
  else if bool_decide (operator ∈ unary_op_list) then
    let! e1 := idx expr 1 in
    let! '(st, env, (status, operand)) := evaluate_expression_rec st self env e1 in
    if status_eqb status STATUS_EXCEPTION then Ok (st, env, (status, operand))
    else
      match operand with
      | None => Error TYPE_ERROR
      | Some a =>
          if Type_eqb (v_type a) BOOL_TYPE_CONST then
            match unary_ops_bool operator with
            | None => Error TYPE_ERROR
            | Some f => let! v := f a in Ok (st, env, (STATUS_PROCEED, Some v))
            end
          else Ok (st, env, (STATUS_PROCEED, None))
      end
  else if String.eqb operator CALL_DEF then execute_call_aux st self env expr
  else if String.eqb operator NEW_DEF then
    let! '(st, v) := execute_new_aux st expr in
    Ok (st, env, (STATUS_PROCEED, Some v))
  else Ok (st, env, (STATUS_PROCEED, None)).

(** [__evaluate_expression] *)
Definition evaluate_expression_body (st : Interpreter) (self : ObjRef)
    (env : list frame) (expr : sexp) : result outcome :=
  match expr with
  | Tok t => evaluate_token st self env t
  | Lst l =>
      let! operator := idx l 0 in
      match operator with
      | Tok op => evaluate_operation st self env op l
      | Lst _ => Ok (st, env, (STATUS_PROCEED, None))
      end
  end.

(** one declaration of a [let], in [__add_locals_to_env]; [None] when the
    loop over the declarations ends early *)
Definition add_local_to_env (st : Interpreter) (env : list frame)
    (var_def : sexp) : result (option (Interpreter * list frame)) :=
  let! vd := as_list var_def in
  let! ty := idx vd 0 >>= as_tok in
  let! st :=
    match class_index st !! ty with
    | Some _ => Ok st
    | None =>
        match split TYPE_CONCAT_CHAR ty with
        | base :: ((_ :: _) as actual_types) =>
            match template_class_index st !! base with
            | None => Crash
            | Some template_class_def =>
                let! '(st, c) :=
                  instantiate_class_rec st template_class_def actual_types in
                Ok (add_class_type (set_class_index st ty (Some c)) ty None)
            end
        | _ => Ok st
        end
    end in
  let var_type := mkType ty in
  let! var_name := idx vd 1 >>= as_tok in
  let! default_value :=
    (if (length vd <? 3)%nat then Ok (create_default_value var_type)
     else let! tok := idx vd 2 >>= as_tok in Ok (create_value tok)) in
  match default_value with
  | None => Ok None
  | Some dv =>
      let! _ := check_type_compatibility_or_error st var_type (v_type dv) true in
      let! '(fresh, env) := EnvironmentManager.create_new_symbol env var_name in
      if negb fresh then Error NAME_ERROR
      else
        Ok (Some (st, snd (EnvironmentManager.set env var_name
                             (mkVariableDef var_type var_name (Some dv)))))
  end.

Fixpoint add_locals_list (st : Interpreter) (env : list frame)
    (var_defs : list sexp) : result (Interpreter * list frame) :=
  match var_defs with
  | [] => Ok (st, env)
  | var_def :: rest =>
      let! r := add_local_to_env st env var_def in
      match r with
      | None => Ok (st, env)
      | Some (st', env') => add_locals_list st' env' rest
      end
  end.

(** [__add_locals_to_env] *)
Definition add_locals_to_env (st : Interpreter) (env : list frame)
    (var_defs : sexp) : result (Interpreter * list frame) :=
  match var_defs with
  | Tok EmptyString => Ok (st, env)
  | Tok _ => Crash
  | Lst l => add_locals_list st env l
  end.

(** the loop of [__execute_begin] over the statements of the block *)
Fixpoint execute_block (st : Interpreter) (self : ObjRef) (env : list frame)
    (return_type : Type_) (statements : list sexp)
    (last : status * option Value) : result outcome :=
  match statements with
  | [] => Ok (st, env, last)
  | statement :: rest =>
      let! '(st, env, (status, return_value)) :=
        execute_statement_rec st self env return_type statement in
      if status_eqb status STATUS_RETURN || status_eqb status STATUS_EXCEPTION
      then Ok (st, env, (status, return_value))
      else execute_block st self env return_type rest (status, return_value)
  end.

(** [__execute_begin] *)
Definition execute_begin (st : Interpreter) (self : ObjRef) (env : list frame)
    (return_type : Type_) (code : list sexp) (has_vardef : bool)
  : result outcome :=
  if has_vardef then
    let env := EnvironmentManager.block_nest env in
    let! var_defs := idx code 1 in
    let! '(st, env) := add_locals_to_env st env var_defs in
    let! '(st, env, r) :=
      execute_block st self env return_type (drop 2 code) (STATUS_PROCEED, None) in
    let! env := EnvironmentManager.block_unnest env in
    Ok (st, env, r)
  else
    execute_block st self env return_type (drop 1 code) (STATUS_PROCEED, None).

(** [__execute_let] *)
Definition execute_let (st : Interpreter) (self : ObjRef) (env : list frame)
    (return_type : Type_) (code : list sexp) : result outcome :=
  execute_begin st self env return_type code true.

(** [__execute_call] followed by the [[1]] that [__execute_statement]
    takes of it *)
Definition execute_call (st : Interpreter) (self : ObjRef) (env : list frame)
    (code : list sexp) : result outcome :=
  execute_call_aux st self env code.

(** [__set_variable_aux] on the target [code[1]] of [set], [inputs] and
    [inputi] *)
Definition set_target (st : Interpreter) (self : ObjRef) (env : list frame)
    (target : sexp) (value : option Value) : result (Interpreter * list frame) :=
  match value with
  | None => Ok (st, env)
  | Some _ =>
      let! var_name := as_tok target in
      set_variable_aux st self env var_name value
  end.

(** [__execute_set] *)
Definition execute_set (st : Interpreter) (self : ObjRef) (env : list frame)
    (code : list sexp) : result outcome :=
  let! e := idx code 2 in
  let! '(st, env, (status, val)) := evaluate_expression_rec st self env e in
  if status_eqb status STATUS_EXCEPTION then Ok (st, env, (status, val))
  else
    let! target := idx code 1 in
    let! '(st, env) := set_target st self env target val in
    Ok (st, env, (STATUS_PROCEED, None)).

(** [__execute_return] *)
Definition execute_return (st : Interpreter) (self : ObjRef) (env : list frame)
    (return_type : Type_) (code : list sexp) : result outcome :=
  if (length code =? 1)%nat then Ok (st, env, (STATUS_RETURN, None))
  else
    let! e := idx code 1 in
    let! '(st, env, (status, result)) := evaluate_expression_rec st self env e in
    if status_eqb status STATUS_EXCEPTION then Ok (st, env, (status, result))
    else
      let! result :=
        match result with
        | Some r =>
            if is_typeless_null r then
              let! _ := check_type_compatibility_or_error st return_type
                                                          (v_type r) true in
              Ok (Some (mkValue return_type None))
            else Ok result
        | None => Ok None
        end in
      match result with
      | None => Crash
      | Some r =>
          let! _ := check_type_compatibility_or_error st return_type
                                                      (v_type r) true in
          Ok (st, env, (STATUS_RETURN, Some r))
      end.

(** [__execute_try] *)
Definition execute_try (st : Interpreter) (self : ObjRef) (env : list frame)
    (return_type : Type_) (code : list sexp) : result outcome :=
  let! try_block := idx code 1 in
  let! '(st, env, result) :=
    execute_statement_rec st self env return_type try_block in
  if status_eqb (fst result) STATUS_EXCEPTION then
    let env := EnvironmentManager.block_nest env in
    let! '(_, env) :=
      EnvironmentManager.create_new_symbol env EXCEPTION_VARIABLE_DEF in
    let env :=
      snd (EnvironmentManager.set env EXCEPTION_VARIABLE_DEF
             (mkVariableDef (mkType STRING_DEF) EXCEPTION_VARIABLE_DEF
                            (snd result))) in
    let! catch_block := idx code 2 in
    let! '(st, env, result) :=
      execute_statement_rec st self env return_type catch_block in
    let! env := EnvironmentManager.block_unnest env in
    Ok (st, env, result)
  else Ok (st, env, result).

(** [__execute_throw] *)
Definition execute_throw (st : Interpreter) (self : ObjRef) (env : list frame)
    (code : list sexp) : result outcome :=
  let! e := idx code 1 in
  let! '(st, env, (status, result)) := evaluate_expression_rec st self env e in
  if status_eqb status STATUS_EXCEPTION then Ok (st, env, (status, result))
  else
    match result with
    | None => Error TYPE_ERROR
    | Some r =>
        if negb (String.eqb (type_name (v_type r)) STRING_DEF)
        then Error TYPE_ERROR
        else Ok (st, env, (STATUS_EXCEPTION, result))
    end.

(** the text [__execute_print] adds to the line for one operand *)
Definition print_text (term : Value) : string :=
  if Type_eqb (v_type term) BOOL_TYPE_CONST then
    if py_eq (v_value term) (Some (VBool true)) then "true" else "false"
  else py_str str_object (v_value term).

(** the loop of [__execute_print] over the operands; [inl] when an operand
    ends the statement *)
Fixpoint print_operands (st : Interpreter) (self : ObjRef) (env : list frame)
    (exprs : list sexp) (output : string)
  : result (Interpreter * list frame * (status * option Value + string)) :=
  match exprs with
  | [] => Ok (st, env, inr output)
  | expr :: rest =>
      let! '(st, env, (status, term)) := evaluate_expression_rec st self env expr in
      if status_eqb status STATUS_EXCEPTION then Ok (st, env, inl (status, term))
      else
        match term with
        | None => Error TYPE_ERROR
        | Some t =>
            print_operands st self env rest (String.append output (print_text t))
        end
  end.

(** Modelled from the spec: [InterpreterBase.output], of the host base class
    that is not among the sources: one more line of program output. *)
Definition host_output (st : Interpreter) (line : string) : Interpreter :=
  mkInterpreter (class_index st) (template_class_index st) (type_manager st)
                (heap st) (output st ++ [line]) (input st).

(** Modelled from the spec: [InterpreterBase.get_input], of the host base
    class that is not among the sources: the next line of input, or nothing
    when the input is used up. *)
Definition get_input (st : Interpreter) : Interpreter * option string :=
  match input st with
  | [] => (st, None)
  | line :: rest =>
      (mkInterpreter (class_index st) (template_class_index st) (type_manager st)
                     (heap st) (output st) rest,
       Some line)
  end.

(** [__execute_print] *)
Definition execute_print (st : Interpreter) (self : ObjRef) (env : list frame)
    (code : list sexp) : result outcome :=
  let! '(st, env, r) := print_operands st self env (drop 1 code) EmptyString in
  match r with
  | inl early => Ok (st, env, early)
  | inr line => Ok (host_output st line, env, (STATUS_PROCEED, None))
  end.

(** [__execute_input] *)
Definition execute_input (st : Interpreter) (self : ObjRef) (env : list frame)
    (code : list sexp) (get_string : bool) : result outcome :=
  let '(st, inp) := get_input st in
  let! val :=
    (if get_string
     then Ok (mkValue STRING_TYPE_CONST (option_map VStr inp))
     else match inp with
          | None => Crash
          | Some text =>
              match int_of_text text with
              | None => Crash
              | Some z => Ok (int_value z)
              end
          end) in
  let! target := idx code 1 in
  let! '(st, env) := set_target st self env target (Some val) in
  Ok (st, env, (STATUS_PROCEED, None)).

(** [__execute_if] *)
Definition execute_if (st : Interpreter) (self : ObjRef) (env : list frame)
    (return_type : Type_) (code : list sexp) : result outcome :=
  let! cond := idx code 1 in
  let! '(st, env, (status, condition)) := evaluate_expression_rec st self env cond in
  if status_eqb status STATUS_EXCEPTION then Ok (st, env, (status, condition))
  else
    let! c := check_condition cond condition in
    if truthy (v_value c) then
      let! s := idx code 2 in execute_statement_rec st self env return_type s
    else if (length code =? 4)%nat then
      let! s := idx code 3 in execute_statement_rec st self env return_type s
    else Ok (st, env, (STATUS_PROCEED, None)).

(** [__execute_while]: one turn of the loop *)
Definition execute_while_body (st : Interpreter) (self : ObjRef)
    (env : list frame) (return_type : Type_) (code : list sexp) : result outcome :=
  let! cond := idx code 1 in
  let! '(st, env, (status, condition)) := evaluate_expression_rec st self env cond in
  if status_eqb status STATUS_EXCEPTION then Ok (st, env, (status, condition))
  else
    let! c := check_condition cond condition in
    if negb (truthy (v_value c)) then Ok (st, env, (STATUS_PROCEED, None))
    else
      let! s := idx code 2 in
      let! '(st, env, (status, return_value)) :=
        execute_statement_rec st self env return_type s in
      if status_eqb status STATUS_EXCEPTION || status_eqb status STATUS_RETURN
      then Ok (st, env, (status, return_value))
      else execute_while_rec st self env return_type code.

(** [__execute_statement] *)
Definition execute_statement_body (st : Interpreter) (self : ObjRef)
    (env : list frame) (return_type : Type_) (code : sexp) : result outcome :=
  let! code := as_list code in
  let! tok := idx code 0 >>= as_tok in
  if String.eqb tok BEGIN_DEF then execute_begin st self env return_type code false
  else if String.eqb tok SET_DEF then execute_set st self env code
  else if String.eqb tok IF_DEF then execute_if st self env return_type code
  else if String.eqb tok CALL_DEF then execute_call st self env code
  else if String.eqb tok WHILE_DEF then
    execute_while_rec st self env return_type code
  else if String.eqb tok RETURN_DEF then execute_return st self env return_type code
  else if String.eqb tok THROW_DEF then execute_throw st self env code
  else if String.eqb tok TRY_DEF then execute_try st self env return_type code
  else if String.eqb tok INPUT_STRING_DEF then execute_input st self env code true
  else if String.eqb tok INPUT_INT_DEF then execute_input st self env code false
  else if String.eqb tok PRINT_DEF then execute_print st self env code
  else if String.eqb tok LET_DEF then execute_let st self env return_type code
  else Error SYNTAX_ERROR.

End Evaluator.

(** The evaluator: each call from one of its functions to another, and each
    turn of a [while], spends one unit of fuel. *)
Fixpoint execute_statement (fuel : nat) (st : Interpreter) (self : ObjRef)
    (env : list frame) (return_type : Type_) (code : sexp) {struct fuel}
  : result outcome :=
  match fuel with
  | O => OutOfFuel
  | S n =>
      execute_statement_body (execute_statement n) (execute_while n)
        (evaluate_expression n) (call_method n) (instantiate_class n)
        st self env return_type code
  end
with execute_while (fuel : nat) (st : Interpreter) (self : ObjRef)
    (env : list frame) (return_type : Type_) (code : list sexp) {struct fuel}
  : result outcome :=
  match fuel with
  | O => OutOfFuel
  | S n =>
      execute_while_body (execute_statement n) (execute_while n)
        (evaluate_expression n) st self env return_type code
  end
with evaluate_expression (fuel : nat) (st : Interpreter) (self : ObjRef)
    (env : list frame) (expr : sexp) {struct fuel} : result outcome :=
  match fuel with
  | O => OutOfFuel
  | S n =>
      evaluate_expression_body (evaluate_expression n) (call_method n)
        (instantiate n) st self env expr
  end
with call_method (fuel : nat) (st : Interpreter) (self : ObjRef)
    (method_name : string) (actual_params : list (option Value))
    (super_only : bool) {struct fuel}
  : result (Interpreter * (status * option Value)) :=
  match fuel with
  | O => OutOfFuel
  | S n =>
      call_method_body (execute_statement n) st self method_name actual_params
                       super_only
  end.

(** ** classv3: blueprints *)

(** [TemplateClassDef.__validate] *)
Fixpoint validate (st : Interpreter) (templated : list sexp) (c : sexp)
  : result unit :=
  match c with
  | Tok s =>
      match split TYPE_CONCAT_CHAR s with
      | _ :: ((_ :: _) as parts) =>
          if existsb
               (fun part =>
                  negb (is_valid_type st part)
                  && negb (existsb (fun t => match t with
                                             | Tok name => String.eqb name part
                                             | Lst _ => false
                                             end) templated))
               parts
          then Error TYPE_ERROR
          else Ok tt
      | _ => Ok tt
      end
  | Lst l =>
      (fix validate_all (parts : list sexp) : result unit :=
         match parts with
         | [] => Ok tt
         | part :: rest =>
             let! _ := validate st templated part in validate_all rest
         end) l
  end.

(** [TemplateClassDef.__init__] *)
Definition TemplateClassDef_init (st : Interpreter) (class_source : list sexp)
  : result TemplateClassDef :=
  let! nm := idx class_source 1 >>= as_tok in
  let! templated := idx class_source 2 >>= as_list in
  let! _ := validate st templated (Lst class_source) in
  Ok (mkTemplateClassDef nm class_source templated).

(** ** interpreterv3: the session *)

(** [__add_all_class_types_to_type_manager], the loop over the program *)
Fixpoint add_all_class_types_to_type_manager (st : Interpreter)
    (parsed_program : list sexp) : result Interpreter :=
  match parsed_program with
  | [] => Ok st
  | item :: rest =>
      let! is_class := member_is CLASS_DEF item in
      if is_class then
        let! it := as_list item in
        let! class_name := idx it 1 >>= as_tok in
        let! c2 := idx it 2 in
        let! superclass_name :=
          match c2 with
          | Tok w =>
              if String.eqb w INHERITS_DEF
              then let! sup := idx it 3 >>= as_tok in Ok (Some sup)
              else Ok None
          | Lst _ => Ok None
          end in
        add_all_class_types_to_type_manager
          (add_class_type st class_name superclass_name) rest
      else add_all_class_types_to_type_manager st rest
  end.

(** [item[1] in self.class_index or item[1] in self.template_class_index] *)
Definition name_taken (st : Interpreter) (nm : string) : bool :=
  match class_index st !! nm, template_class_index st !! nm with
  | None, None => false
  | _, _ => true
  end.

(** [__map_class_names_to_class_defs], the loop over the program *)
Fixpoint map_class_names_to_class_defs (fuel : nat) (st : Interpreter)
    (program : list sexp) : result Interpreter :=
  match program with
  | [] => Ok st
  | item :: rest =>
      let! is_class := member_is CLASS_DEF item in
      if is_class then
        let! it := as_list item in
        let! nm := idx it 1 >>= as_tok in
        if name_taken st nm then Error TYPE_ERROR
        else
          let! '(st, c) := ClassDef_init fuel st it in
          map_class_names_to_class_defs fuel (set_class_index st nm (Some c)) rest
      else
        let! is_template := member_is TEMPLATE_CLASS_DEF item in
        if is_template then
          let! it := as_list item in
          let! nm := idx it 1 >>= as_tok in
          if name_taken st nm then Error TYPE_ERROR
          else
            let! t := TemplateClassDef_init st it in
            map_class_names_to_class_defs fuel (set_template_class_index st nm t)
                                          rest
        else map_class_names_to_class_defs fuel st rest
  end.

(** the state in which [run] starts its two passes over the program: both
    registries empty, a new type registry, nothing printed *)
Definition initial (inp : list string) : Interpreter :=
  mkInterpreter ∅ ∅ TypeManager_new [] [] inp.

(** [Interpreter.run] on a parsed program: the session at the end of the
    run.  What the entry method returns is dropped. *)
Definition run (fuel : nat) (parsed_program : list sexp) (inp : list string)
  : result Interpreter :=
  let! st := add_all_class_types_to_type_manager (initial inp) parsed_program in
  let! st := map_class_names_to_class_defs fuel st parsed_program in
  let! '(st, main_object) := instantiate fuel st MAIN_CLASS_DEF in
  let! '(st, _) := call_method fuel st main_object MAIN_FUNC_DEF [] false in
  Ok st.

End Runtime.

(** ** Vocabulary of the properties *)

Section Vocabulary.
Context {ext : External}.

(** The expressions [exprs], evaluated in order from the session [st] and
    the scopes [env], each end with the status PROCEED and a value; [vs] are
    the values and [st'], [env'] the session and scopes after the last. *)
Inductive operands_evaluate (fuel : nat) (self : ObjRef)
  : Interpreter -> list frame -> list sexp -> list Value ->
    Interpreter -> list frame -> Prop :=
| operands_none (st : Interpreter) (env : list frame) :
    operands_evaluate fuel self st env [] [] st env
| operands_next (st st1 st2 : Interpreter) (env env1 env2 : list frame)
      (e : sexp) (es : list sexp) (v : Value) (vs : list Value) :
    evaluate_expression fuel st self env e
    = Ok (st1, env1, (STATUS_PROCEED, Some v)) ->
    operands_evaluate fuel self st1 env1 es vs st2 env2 ->
    operands_evaluate fuel self st env (e :: es) (v :: vs) st2 env2.

(** each formal parameter admits the type of the argument at its place *)
Fixpoint params_admit (st : Interpreter) (formals : list VariableDef)
    (args : list Value) : bool :=
  match formals, args with
  | formal :: formals', arg :: args' =>
      check_type_compatibility st (var_type formal) (v_type arg) true
      && params_admit st formals' args'
  | _, _ => true
  end.

(** the level has a method of that name with as many formal parameters as
    there are arguments, each admitting the type of its argument *)
Definition method_matches (st : Interpreter) (l : ObjectDef)
    (method_name : string) (args : list Value) : bool :=
  match methods l !! method_name with
  | None => false
  | Some m =>
      (length args =? length (formal_params m))%nat
      && params_admit st (formal_params m) args
  end.

(** what [call_method] does once the level [o] whose method [m] runs is
    chosen: bind the arguments in a fresh scope, run the body with [o] as
    the executing level, and turn the body's status into the call's *)
Definition invoke (fuel : nat) (st : Interpreter) (o : ObjRef) (m : MethodDef)
    (actual_params : list (option Value))
  : result (Interpreter * (status * option Value)) :=
  let! bound := bind_params EnvironmentManager.new (formal_params m)
                            actual_params in
  match bound with
  | None => Ok (st, (STATUS_PROCEED, None))
  | Some env =>
      let! '(st', _, (status, return_value)) :=
        execute_statement fuel st o env (return_type m) (code m) in
      Ok (st', method_result m status return_value)
  end.

(** the name has the separator of mangled names in it *)
Fixpoint has_sep (s : string) : bool :=
  match s with
  | EmptyString => false
  | String a s' => Ascii.eqb a TYPE_CONCAT_CHAR || has_sep s'
  end.

(** the type a blueprint has inside its own body: its name applied to its
    own parameters *)
Definition own_type (base : string) (params : list string) : string :=
  join TYPE_CONCAT_CHAR (base :: params).

(** every token of the tree satisfies [ok] *)
Fixpoint tokens_all (ok : string -> bool) (c : sexp) : bool :=
  match c with
  | Tok s => ok s
  | Lst l => forallb (tokens_all ok) l
  end.

(** every token of the members of the blueprint is free of the separator or
    is the blueprint's own type *)
Definition refers_to_own_type (base : string) (params : list string)
    (members : list sexp) : bool :=
  forallb (tokens_all (fun s => negb (has_sep s)
                                || String.eqb s (own_type base params)))
          members.

(** the type name is the name [nm] of the class being built, or has no
    type arguments *)
Definition own_or_plain (nm tn : string) : bool :=
  String.eqb tn nm
  || match split TYPE_CONCAT_CHAR tn with
     | _ :: _ :: _ => false
     | _ => true
     end.

(** the member of a class body, when it is a field or a method, names no
    instantiated blueprint but [nm] in the type of the field, resp. in the
    return type and the parameter types of the method *)
Definition member_refers_only_to (nm : string) (member : sexp) : bool :=
  match member with
  | Lst (Tok kw :: rest) =>
      if String.eqb kw FIELD_DEF then
        match rest with
        | Tok ty :: _ => own_or_plain nm ty
        | _ => true
        end
      else if String.eqb kw METHOD_DEF then
        match MethodDef_init (Tok kw :: rest) with
        | Ok md =>
            own_or_plain nm (type_name (return_type md))
            && forallb (fun p => own_or_plain nm (type_name (var_type p)))
                       (formal_params md)
        | _ => true
        end
      else true
  | _ => true
  end.

(** the declaration of the class [nm] refers to no instantiated blueprint
    but itself *)
Definition refers_only_to_itself (nm : string) (class_source : list sexp) : bool :=
  forallb (member_refers_only_to nm) class_source.

(** the computation is not cut short by the fuel, and the session it ends
    with, if it ends with one, satisfies [P] *)
Definition ends {A : Type} (P : Interpreter -> Prop)
    (r : result (Interpreter * A)) : Prop :=
  match r with
  | Ok (st, _) => P st
  | OutOfFuel => False
  | _ => True
  end.

Definition ends_session (P : Interpreter -> Prop) (r : result Interpreter) : Prop :=
  match r with
  | Ok st => P st
  | OutOfFuel => False
  | _ => True
  end.

(** the blueprint [t] is registered under the name [base] *)
Definition knows_blueprint (t : TemplateClassDef) (base : string)
    (st : Interpreter) : Prop :=
  template_class_index st !! base = Some t.

(** the class index has the name [nm], with a class or as a placeholder *)
Definition has_name (nm : string) (st : Interpreter) : Prop :=
  is_Some (class_index st !! nm).

(** the computation, when it ends with a result, ends with one that
    satisfies [Q] *)
Definition holds {A : Type} (Q : A -> Prop) (r : result A) : Prop :=
  match r with
  | Ok a => Q a
  | _ => True
  end.

(** the scopes handed back have [n] frames *)
Definition frames {A : Type} (n : nat) (x : Interpreter * list frame * A) : Prop :=
  length (snd (fst x)) = n.

Definition frames2 (n : nat) (x : Interpreter * list frame) : Prop :=
  length (snd x) = n.

(** the variable holds a null: no value yet, or a value without payload *)
Definition holds_null (d : VariableDef) : bool :=
  match var_value d with
  | None => true
  | Some v => is_null v
  end.

(** the texts of the values, one after the other *)
Fixpoint printed (vs : list Value) : string :=
  match vs with
  | [] => EmptyString
  | v :: rest => String.append (print_text v) (printed rest)
  end.

(** the name a member of a class body declares, when the member is a
    [keyword] member (a field or a method): its third element *)
Definition member_name (keyword : string) (member : sexp) : option string :=
  match member with
  | Lst (Tok h :: _ :: Tok nm :: _) =>
      if String.eqb h keyword then Some nm else None
  | _ => None
  end.

(** the names the [keyword] members of a class body declare, in order *)
Fixpoint declared (keyword : string) (class_body : list sexp) : list string :=
  match class_body with
  | [] => []
  | member :: rest =>
      match member_name keyword member with
      | Some nm => nm :: declared keyword rest
      | None => declared keyword rest
      end
  end.

(** no token of the tree is, or has among the parts of its mangled name, a
    name the dictionary replaces *)
Definition free_of (template_to_actual : gmap string string) (c : sexp) : bool :=
  tokens_all
    (fun s =>
       bool_decide (template_to_actual !! s = None)
       && forallb (fun p => bool_decide (template_to_actual !! p = None))
                  (split TYPE_CONCAT_CHAR s))
    c.

(** the variable is declared as before: its type and its name are those
    of [d] *)
Definition same_declaration (d d' : VariableDef) : Prop :=
  var_type d' = var_type d /\ var_name d' = var_name d.

(** the level is of the same class, with the same methods and the same
    fields, each declared as before; only the values of the fields may
    differ *)
Definition same_shape (l l' : ObjectDef) : Prop :=
  class_def l' = class_def l
  /\ methods l' = methods l
  /\ forall k : string,
       match fields l !! k, fields l' !! k with
       | Some d, Some d' => same_declaration d d'
       | None, None => True
       | _, _ => False
       end.

(** every instance of the first session is an instance of the second, with
    as many levels, each of the same shape *)
Definition keeps_objects (st st' : Interpreter) : Prop :=
  forall (i : nat) (levels : list ObjectDef),
    heap st !! i = Some levels ->
    exists levels' : list ObjectDef,
      heap st' !! i = Some levels' /\ Forall2 same_shape levels levels'.


(** the second session has the output of the first, with lines added at
    its end if any, and of the input of the first what is left after lines
    were read from its front *)
Definition keeps_lines (st st' : Interpreter) : Prop :=
  output st `prefix_of` output st' /\ input st' `suffix_of` input st.

(** the name a top-level item of a program declares, when the item is a
    class or a blueprint *)
Definition item_name (item : sexp) : option string :=
  match item with
  | Lst (Tok kw :: Tok nm :: _) =>
      if String.eqb kw CLASS_DEF || String.eqb kw TEMPLATE_CLASS_DEF
      then Some nm else None
  | _ => None
  end.

(** the names the classes and the blueprints of a program declare, in
    order *)
Fixpoint program_names (program : list sexp) : list string :=
  match program with
  | [] => []
  | item :: rest =>
      match item_name item with
      | Some nm => nm :: program_names rest
      | None => program_names rest
      end
  end.

(** the type arguments of a mangled name (its parts after the first) are
    each a valid type or one of the blueprint's type parameters; a name
    without separator has none *)
Definition type_arguments_known (st : Interpreter) (templated : list sexp)
    (s : string) : bool :=
  match split TYPE_CONCAT_CHAR s with
  | _ :: ((_ :: _) as parts) =>
      forallb (fun part =>
                 is_valid_type st part
                 || existsb (fun t => match t with
                                      | Tok name => String.eqb name part
                                      | Lst _ => false
                                      end) templated)
              parts
  | _ => true
  end.

(** the two variables found under a name agree: both are missing, or both
    are there and declared the same way *)
Definition same_variable (o o' : option VariableDef) : Prop :=
  match o, o' with
  | None, None => True
  | Some d, Some d' => same_declaration d d'
  | _, _ => False
  end.

(** the two frames have the same symbols, each declared the same way; only
    the values may differ *)
Definition same_symbols (f f' : frame) : Prop :=
  forall k : string,
    match f !! k, f' !! k with
    | None, None => True
    | Some o, Some o' => same_variable o o'
    | _, _ => False
    end.

(** the two stacks have as many frames, with the same symbols frame by
    frame *)
Definition same_scopes (env env' : list frame) : Prop :=
  Forall2 same_symbols env env'.

(** the scopes handed back are those of [env], up to the values *)
Definition scoped {A : Type} (env : list frame)
    (x : Interpreter * list frame * A) : Prop :=
  same_scopes env (snd (fst x)).

Definition scoped2 (env : list frame) (x : Interpreter * list frame) : Prop :=
  same_scopes env (snd x).

(** the scopes handed back are those below the innermost one of the
    scopes given, which may have new symbols *)
Definition grown (outer : list frame) (x : Interpreter * list frame) : Prop :=
  exists f : frame, snd x = f :: outer.

End Vocabulary.

(** ** A reference implementation of the external collaborators *)

Module Reference.

(** Modelled from the spec: the type registry of [type_valuev3], which is
    not among the sources.  It maps a registered type name to the name of
    its superclass; the primitive types are registered from the start. *)
Definition primitives : list string := [INT_DEF; STRING_DEF; BOOL_DEF].

Definition registry_new : gmap string (option string) :=
  <[INT_DEF := None]> (<[STRING_DEF := None]> (<[BOOL_DEF := None]> ∅)).

Definition is_primitive (n : string) : bool := bool_decide (n ∈ primitives).

(** Modelled from the spec: [is_a_subtype(super_candidate, sub_candidate)],
    by walking up from the candidate subtype *)
Fixpoint walk_up (fuel : nat) (reg : gmap string (option string))
    (suspected_supertype cur : string) : bool :=
  if String.eqb suspected_supertype cur then true
  else match fuel with
       | O => false
       | S n =>
           match reg !! cur with
           | Some (Some sup) => walk_up n reg suspected_supertype sup
           | _ => false
           end
       end.

Definition is_a_subtype (reg : gmap string (option string))
    (suspected_supertype suspected_subtype : string) : bool :=
  match reg !! suspected_supertype, reg !! suspected_subtype with
  | Some _, Some _ => walk_up (size reg) reg suspected_supertype suspected_subtype
  | _, _ => false
  end.

(** Modelled from the spec: a value of type [source] may be stored where
    [target] is declared.  Identical names are compatible; a primitive or
    the type of a method that returns nothing is compatible with no other
    type; a typeless null goes into any class-typed target; a subclass goes
    where its superclass is expected and not the reverse. *)
Definition assignable (reg : gmap string (option string)) (target source : string)
  : bool :=
  if String.eqb target source then true
  else if is_primitive target || is_primitive source then false
  else if String.eqb target NOTHING_DEF || String.eqb source NOTHING_DEF then false
  else if String.eqb source NULL_DEF then true
  else is_a_subtype reg target source.

(** Modelled from the spec: [check_type_compatibility(target, source,
    for_assignment)]; a comparison accepts what could be assigned either
    way. *)
Definition check (reg : gmap string (option string)) (typea typeb : Type_)
    (for_assignment : bool) : bool :=
  if for_assignment then assignable reg (type_name typea) (type_name typeb)
  else assignable reg (type_name typea) (type_name typeb)
       || assignable reg (type_name typeb) (type_name typea).

Definition digit_of (c : ascii) : option Z :=
  let n := Z.of_nat (nat_of_ascii c) in
  if (48 <=? n)%Z && (n <=? 57)%Z then Some (n - 48)%Z else None.

Fixpoint digits (s : string) (acc : Z) : option Z :=
  match s with
  | EmptyString => Some acc
  | String c rest =>
      match digit_of c with
      | Some d => digits rest (10 * acc + d)%Z
      | None => None
      end
  end.

(** the integer a decimal numeral with an optional minus sign denotes *)
Definition numeral (s : string) : option Z :=
  match s with
  | EmptyString => None
  | String "-"%char EmptyString => None
  | String "-"%char rest => option_map Z.opp (digits rest 0%Z)
  | _ => digits s 0%Z
  end.

Definition quote : ascii := ascii_of_nat 34.

Fixpoint drop_last_quote (s : string) : string :=
  match s with
  | EmptyString => EmptyString
  | String c EmptyString =>
      if Ascii.eqb c quote then EmptyString else String c EmptyString
  | String c rest => String c (drop_last_quote rest)
  end.

(** Modelled from the spec: [create_value(token)], the value of a literal
    token: the boolean tokens, a quoted string, a numeral, the null token;
    nothing for any other token. *)
Definition value_of_token (tok : string) : option Value :=
  if String.eqb tok "true" then Some (bool_value true)
  else if String.eqb tok "false" then Some (bool_value false)
  else if String.eqb tok NULL_DEF then Some (mkValue (mkType NULL_DEF) None)
  else match tok with
       | String c rest =>
           if Ascii.eqb c quote then Some (string_value (drop_last_quote rest))
           else option_map int_value (numeral tok)
       | EmptyString => None
       end.

(** Modelled from the spec: [create_default_value(type)]: 0, false, the
    empty string, and a null of the type for any other type. *)
Definition default_of_type (t : Type_) : option Value :=
  if Type_eqb t INT_TYPE_CONST then Some (int_value 0)
  else if Type_eqb t BOOL_TYPE_CONST then Some (bool_value false)
  else if Type_eqb t STRING_TYPE_CONST then Some (string_value EmptyString)
  else Some (mkValue t None).

#[global] Instance external : External := {
  TypeManager := gmap string (option string);
  TypeManager_new := registry_new;
  tm_add_class_type := fun reg nm sup => <[nm := sup]> reg;
  tm_is_valid_type := fun reg nm => bool_decide (is_Some (reg !! nm));
  tm_primitive_types := fun _ => primitives;
  tm_check_type_compatibility := check;
  create_value := value_of_token;
  create_default_value := default_of_type;
  int_of_text := numeral;
  str_object := fun _ => "<object>"
}.

End Reference.

(** ** Programs and sessions used as instances *)

Module Examples.
Import Reference.

(** a string literal token: the text between double quotes *)
Definition lit (text : string) : sexp :=
  Tok (String quote (String.append text (String quote EmptyString))).

(** a session with one instance of a class [main] that has no members *)
Definition bare_class : ClassDef := mkClassDef "main" [] [] None.
Definition bare_session : Interpreter :=
  set_heap (set_class_index (initial []) "main" (Some bare_class))
           [ObjectDef_init bare_class].
Definition bare_object : ObjRef := mkRef 0 0.

(** the session in which the entry object of a program has been made: the
    state of [run] just before it calls the entry method *)
Definition entry_session (fuel : nat) (program : list sexp) : Interpreter :=
  match
    (let! st := add_all_class_types_to_type_manager (initial []) program in
     let! st := map_class_names_to_class_defs fuel st program in
     instantiate fuel st MAIN_CLASS_DEF)
  with
  | Ok (st, _) => st
  | _ => initial []
  end.

(** two unrelated classes and an entry class with a null field of each *)
Definition kennel : list sexp :=
  [Lst [Tok "class"; Tok "Dog"; Lst [Tok "field"; Tok "int"; Tok "age"; Tok "0"]];
   Lst [Tok "class"; Tok "Cat"; Lst [Tok "field"; Tok "int"; Tok "age"; Tok "0"]];
   Lst [Tok "class"; Tok "main";
        Lst [Tok "field"; Tok "Dog"; Tok "d"; Tok "null"];
        Lst [Tok "field"; Tok "Cat"; Tok "c"; Tok "null"];
        Lst [Tok "method"; Tok "void"; Tok "main"; Lst [];
             Lst [Tok "print"; Lst [Tok "=="; Tok "d"; Tok "c"]]]]].

Definition kennel_session : Interpreter := entry_session 1 kennel.

(** the session of [entry_session] with one more instance, of [class_name] *)
Definition session_with_instance (fuel : nat) (program : list sexp)
    (class_name : string) : Interpreter :=
  match instantiate fuel (entry_session fuel program) class_name with
  | Ok (st, _) => st
  | _ => initial []
  end.

(** three classes in a line; each says its name and passes on to [super] *)
Definition parade : list sexp :=
  [Lst [Tok "class"; Tok "A";
        Lst [Tok "method"; Tok "void"; Tok "speak"; Lst [];
             Lst [Tok "print"; lit "A"]]];
   Lst [Tok "class"; Tok "B"; Tok "inherits"; Tok "A";
        Lst [Tok "method"; Tok "void"; Tok "speak"; Lst [];
             Lst [Tok "begin"; Lst [Tok "print"; lit "B"];
                  Lst [Tok "call"; Tok "super"; Tok "speak"]]]];
   Lst [Tok "class"; Tok "C"; Tok "inherits"; Tok "B";
        Lst [Tok "method"; Tok "void"; Tok "speak"; Lst [];
             Lst [Tok "begin"; Lst [Tok "print"; lit "C"];
                  Lst [Tok "call"; Tok "super"; Tok "speak"]]]];
   Lst [Tok "class"; Tok "main";
        Lst [Tok "field"; Tok "A"; Tok "x"; Tok "null"];
        Lst [Tok "method"; Tok "void"; Tok "main"; Lst [];
             Lst [Tok "begin"; Lst [Tok "set"; Tok "x"; Lst [Tok "new"; Tok "C"]];
                  Lst [Tok "call"; Tok "x"; Tok "speak"]]]]].

(** instance 0 is the entry object, instance 1 a [C] with its three levels *)
Definition parade_session : Interpreter := session_with_instance 1 parade "C".

(** a base class whose method calls, on [me], a method that only the
    subclass has *)
Definition litter : list sexp :=
  [Lst [Tok "class"; Tok "Animal";
        Lst [Tok "method"; Tok "void"; Tok "f"; Lst [];
             Lst [Tok "call"; Tok "me"; Tok "g"]]];
   Lst [Tok "class"; Tok "Dog"; Tok "inherits"; Tok "Animal";
        Lst [Tok "method"; Tok "void"; Tok "g"; Lst [];
             Lst [Tok "print"; lit "woof"]]];
   Lst [Tok "class"; Tok "main";
        Lst [Tok "field"; Tok "Animal"; Tok "a"; Tok "null"];
        Lst [Tok "method"; Tok "void"; Tok "main"; Lst [];
             Lst [Tok "begin"; Lst [Tok "set"; Tok "a"; Lst [Tok "new"; Tok "Dog"]];
                  Lst [Tok "call"; Tok "a"; Tok "f"]]]]].

(** instance 0 is the entry object, instance 1 a [Dog] with its two levels *)
Definition litter_session : Interpreter := session_with_instance 1 litter "Dog".

(** a program without an entry class *)
Definition no_entry_class : list sexp :=
  [Lst [Tok "class"; Tok "Dog"; Lst [Tok "field"; Tok "int"; Tok "age"; Tok "0"]]].

(** a program whose entry class has no entry method *)
Definition no_entry_method : list sexp :=
  [Lst [Tok "class"; Tok "main";
        Lst [Tok "method"; Tok "void"; Tok "start"; Lst [];
             Lst [Tok "print"; lit "x"]]]].

(** methods that end with a bare return, or run off their end *)
Definition defaults : list sexp :=
  [Lst [Tok "class"; Tok "main";
        Lst [Tok "method"; Tok "int"; Tok "f"; Lst []; Lst [Tok "return"]];
        Lst [Tok "method"; Tok "bool"; Tok "g"; Lst []; Lst [Tok "begin"]];
        Lst [Tok "method"; Tok "int"; Tok "h"; Lst []; Lst [Tok "return"; Tok "null"]];
        Lst [Tok "method"; Tok "void"; Tok "main"; Lst [];
             Lst [Tok "begin";
                  Lst [Tok "print"; Lst [Tok "call"; Tok "me"; Tok "f"];
                       Lst [Tok "call"; Tok "me"; Tok "g"]];
                  Lst [Tok "call"; Tok "me"; Tok "h"]]]]].

(** a throw three calls deep; [main] catches the first and not the second *)
Definition deep : list sexp :=
  [Lst [Tok "class"; Tok "main";
        Lst [Tok "method"; Tok "void"; Tok "c"; Lst [];
             Lst [Tok "begin"; Lst [Tok "throw"; lit "oops"];
                  Lst [Tok "print"; lit "after throw"]]];
        Lst [Tok "method"; Tok "void"; Tok "b"; Lst [];
             Lst [Tok "begin"; Lst [Tok "call"; Tok "me"; Tok "c"];
                  Lst [Tok "print"; lit "after c"]]];
        Lst [Tok "method"; Tok "void"; Tok "a"; Lst [];
             Lst [Tok "begin"; Lst [Tok "call"; Tok "me"; Tok "b"];
                  Lst [Tok "print"; lit "after b"]]];
        Lst [Tok "method"; Tok "void"; Tok "main"; Lst [];
             Lst [Tok "begin";
                  Lst [Tok "try"; Lst [Tok "call"; Tok "me"; Tok "a"];
                       Lst [Tok "print"; lit "caught "; Tok "exception"]];
                  Lst [Tok "call"; Tok "me"; Tok "a"];
                  Lst [Tok "print"; lit "after a"]]]]].

Definition deep_session : Interpreter := entry_session 1 deep.

(** a blueprint for the nodes of a linked list: a node holds a value and a
    reference to a node of its own instantiation *)
Definition linked : list sexp :=
  [Lst [Tok "tclass"; Tok "Node"; Lst [Tok "T"];
        Lst [Tok "field"; Tok "Node@T"; Tok "next"; Tok "null"];
        Lst [Tok "field"; Tok "T"; Tok "val"];
        Lst [Tok "method"; Tok "Node@T"; Tok "rest"; Lst [];
             Lst [Tok "return"; Tok "next"]]];
   Lst [Tok "class"; Tok "main";
        Lst [Tok "method"; Tok "void"; Tok "main"; Lst [];
             Lst [Tok "let"; Lst [Lst [Tok "Node@int"; Tok "n"; Tok "null"]];
                  Lst [Tok "set"; Tok "n"; Lst [Tok "new"; Tok "Node@int"]];
                  Lst [Tok "print"; lit "made a node: ";
                       Lst [Tok "=="; Lst [Tok "call"; Tok "n"; Tok "rest"];
                            Tok "null"]]]]]].

Definition linked_session : Interpreter := entry_session 1 linked.

(** the lines a run of the program gives the host *)
Definition lines_of (r : result Interpreter) : result (list string) :=
  let! st := r in Ok (output st).

End Examples.

(** ** More programs and sessions used as instances *)

Module Samples.
Import Reference.

(** a class with two fields and a method *)
Definition point : list sexp :=
  [Tok "class"; Tok "Point";
   Lst [Tok "field"; Tok "int"; Tok "x"; Tok "0"];
   Lst [Tok "field"; Tok "string"; Tok "tag"];
   Lst [Tok "method"; Tok "void"; Tok "reset"; Lst [];
        Lst [Tok "set"; Tok "x"; Tok "0"]]].

(** a class and a subclass of it, each with a field and a method of its
    own, and an entry class with a field of the class and a counter *)
Definition estate : list sexp :=
  [Lst [Tok "class"; Tok "Animal";
        Lst [Tok "field"; Tok "int"; Tok "age"; Tok "3"];
        Lst [Tok "method"; Tok "int"; Tok "years"; Lst [];
             Lst [Tok "return"; Tok "age"]]];
   Lst [Tok "class"; Tok "Dog"; Tok "inherits"; Tok "Animal";
        Lst [Tok "field"; Tok "string"; Tok "name"; Examples.lit "rex"];
        Lst [Tok "method"; Tok "string"; Tok "call"; Lst [];
             Lst [Tok "return"; Tok "name"]]];
   Lst [Tok "class"; Tok "main";
        Lst [Tok "field"; Tok "Animal"; Tok "pet"; Tok "null"];
        Lst [Tok "field"; Tok "int"; Tok "n"; Tok "0"];
        Lst [Tok "method"; Tok "void"; Tok "main"; Lst [];
             Lst [Tok "begin"]]]].

(** instance 0 is the entry object, instance 1 a [Dog] with its two levels *)
Definition estate_session : Interpreter :=
  Examples.session_with_instance 1 estate "Dog".

(** the session of a program after the pass that registers its types *)
Definition typed_session (program : list sexp) : Interpreter :=
  match add_all_class_types_to_type_manager (initial []) program with
  | Ok st => st
  | _ => initial []
  end.

(** a blueprint that prints the text [line] *)
Definition box (line : string) : list sexp :=
  [Tok "tclass"; Tok "Box"; Lst [Tok "T"];
   Lst [Tok "field"; Tok "Box@T"; Tok "next"];
   Lst [Tok "method"; Tok "void"; Tok "show"; Lst [];
        Lst [Tok "print"; Examples.lit line]]].

(** the scopes of a method whose parameter [x] holds 1 *)
Definition counter_scopes : list frame :=
  [{[ "x" := Some (mkVariableDef (mkType INT_DEF) "x" (Some (int_value 1))) ]}].

(** a block that assigns to [x], also from within a [let] of its own *)
Definition count_up : sexp :=
  Lst [Tok "begin";
       Lst [Tok "set"; Tok "x"; Tok "5"];
       Lst [Tok "let"; Lst [Lst [Tok "int"; Tok "y"; Tok "2"]];
            Lst [Tok "set"; Tok "x"; Lst [Tok "+"; Tok "x"; Tok "y"]]]].

End Samples.

(** * Properties *)

Section Operators.
Context {ext : External}.

(** ** Operators *)

(** C9: a parenthesized expression whose head token is not a binary
    operator, not [!], not [call] and not [new] reports no error and raises
    no exception: it yields the status PROCEED and no value, and leaves the
    session and the scopes as they were. *)
Theorem unknown_operator_yields_no_value :
  forall (fuel : nat) (st : Interpreter) (self : ObjRef) (env : list frame)
         (head : string) (args : list sexp),
    head ∉ binary_op_list ->
    head ∉ unary_op_list ->
    head <> CALL_DEF ->
    head <> NEW_DEF ->
    evaluate_expression (S fuel) st self env (Lst (Tok head :: args))
    = Ok (st, env, (STATUS_PROCEED, None)).
Proof.
  intros fuel st self env head args Hbin Hun Hcall Hnew.
  cbn [evaluate_expression evaluate_expression_body idx lookup list_lookup bind].
  unfold evaluate_operation.
  rewrite (bool_decide_eq_false_2 _ Hbin), (bool_decide_eq_false_2 _ Hun).
  apply String.eqb_neq in Hcall, Hnew.
  now rewrite Hcall, Hnew.
Qed.

Lemma floordiv_is_floor (a b : Z) :
  b <> 0%Z ->
  floordiv a b = Ok (a / b)%Z
  /\ ((0 < b /\ b * (a / b) <= a < b * (a / b) + b)
      \/ (b < 0 /\ b * (a / b) + b < a <= b * (a / b)))%Z.
Proof.
  intros Hb. split.
  - unfold floordiv. now rewrite (proj2 (Z.eqb_neq b 0) Hb).
  - destruct (Z.lt_total b 0) as [Hneg | [Hz | Hpos]]; [right | lia | left].
    + pose proof (Z.mod_neg_bound a b Hneg) as Hr.
      pose proof (Z.div_mod a b Hb) as Hd. lia.
    + pose proof (Z.mod_pos_bound a b Hpos) as Hr.
      pose proof (Z.div_mod a b Hb) as Hd. lia.
Qed.

Lemma apply_binary_ints (st : Interpreter) (op : string) (a b : Z) :
  apply_binary st op (Some (int_value a)) (Some (int_value b))
  = match binary_ops_int op with
    | None => Error TYPE_ERROR
    | Some f => f (int_value a) (int_value b)
    end.
Proof. reflexivity. Qed.

(** C10: on integer operands [a] and [b], [b] not zero, the operator [/]
    yields the integer [q] = floor of a/b, the quotient rounded toward
    negative infinity: for a positive divisor b*q <= a < b*q + b, for a
    negative one b*q + b < a <= b*q.  The result is an integer of unbounded
    size. *)
Theorem division_rounds_toward_negative_infinity :
  forall (fuel : nat) (st st1 st2 : Interpreter) (self : ObjRef)
         (env env1 env2 : list frame) (e1 e2 : sexp) (a b : Z),
    evaluate_expression fuel st self env e1
    = Ok (st1, env1, (STATUS_PROCEED, Some (int_value a))) ->
    evaluate_expression fuel st1 self env1 e2
    = Ok (st2, env2, (STATUS_PROCEED, Some (int_value b))) ->
    b <> 0%Z ->
    evaluate_expression (S fuel) st self env (Lst [Tok "/"; e1; e2])
    = Ok (st2, env2, (STATUS_PROCEED, Some (int_value (a / b))))
    /\ ((0 < b /\ b * (a / b) <= a < b * (a / b) + b)
        \/ (b < 0 /\ b * (a / b) + b < a <= b * (a / b)))%Z.
Proof.
  intros fuel st st1 st2 self env env1 env2 e1 e2 a b H1 H2 Hb.
  destruct (floordiv_is_floor a b Hb) as [Hq Hfloor].
  split; [| exact Hfloor].
  cbn [evaluate_expression evaluate_expression_body idx lookup list_lookup bind].
  unfold evaluate_operation.
  replace (bool_decide ("/" ∈ binary_op_list)) with true by reflexivity.
  cbn [idx lookup list_lookup bind].
  rewrite H1. cbn [bind status_eqb].
  rewrite H2. cbn [bind status_eqb].
  rewrite apply_binary_ints.
  change (binary_ops_int "/")
    with (Some (on_ints (fun x y => let! q := floordiv x y in Ok (int_value q)))).
  cbn [on_ints int_value v_value].
  rewrite Hq. reflexivity.
Qed.

End Operators.

(** ** The print statement *)

Section Print.
Context {ext : External}.

Lemma append_cons (ch : ascii) (a b : string) :
  String.append (String ch a) b = String ch (String.append a b).
Proof. reflexivity. Qed.

Lemma append_assoc (a b c : string) :
  String.append (String.append a b) c = String.append a (String.append b c).
Proof.
  induction a as [| ch a' IH]; [reflexivity |].
  now rewrite !append_cons, IH.
Qed.

Lemma append_empty_r (a : string) : String.append a EmptyString = a.
Proof.
  induction a as [| ch a' IH]; [reflexivity |].
  now rewrite append_cons, IH.
Qed.

Lemma print_operands_all (fuel : nat) (self : ObjRef) (st st' : Interpreter)
    (env env' : list frame) (exprs : list sexp) (vs : list Value) :
  operands_evaluate fuel self st env exprs vs st' env' ->
  forall (rest : list sexp) (line : string),
    print_operands (evaluate_expression fuel) st self env (exprs ++ rest) line
    = print_operands (evaluate_expression fuel) st' self env' rest
        (String.append line (printed vs)).
Proof.
  induction 1 as [st env | st st1 st2 env env1 env2 e es v vs He Hes IH];
    intros rest line.
  - cbn. now rewrite append_empty_r.
  - cbn [app print_operands]. rewrite He. cbn [bind status_eqb].
    rewrite IH. cbn [printed]. now rewrite append_assoc.
Qed.

Lemma execute_print_unfold (fuel : nat) (st : Interpreter) (self : ObjRef)
    (env : list frame) (rt : Type_) (exprs : list sexp) :
  execute_statement (S fuel) st self env rt (Lst (Tok PRINT_DEF :: exprs))
  = let! '(st, env, r) :=
      print_operands (evaluate_expression fuel) st self env exprs EmptyString in
    match r with
    | inl early => Ok (st, env, early)
    | inr line => Ok (host_output st line, env, (STATUS_PROCEED, None))
    end.
Proof. reflexivity. Qed.

(** C8, as amended: a print statement whose operands all evaluate to values
    gives the host one line, the texts of the values joined in order, and
    ends with the status PROCEED; the text of an integer is its decimal
    numeral, of a string the string, of a boolean the token true or false.
    An operand that evaluates to no value is a type error.  (No operand is
    rejected for its type.) *)
Theorem print_emits_one_line :
  forall (fuel : nat) (st st' : Interpreter) (self : ObjRef)
         (env env' : list frame) (rt : Type_) (exprs : list sexp)
         (vs : list Value),
    operands_evaluate fuel self st env exprs vs st' env' ->
    execute_statement (S fuel) st self env rt (Lst (Tok PRINT_DEF :: exprs))
    = Ok (host_output st' (printed vs), env', (STATUS_PROCEED, None))
    /\ output (host_output st' (printed vs)) = (output st' ++ [printed vs])%list
    /\ (forall z : Z, print_text (int_value z) = str_int z)
    /\ (forall s : string, print_text (string_value s) = s)
    /\ (forall b : bool,
          print_text (bool_value b) = if b then "true" else "false")
    /\ (forall (e : sexp) (rest : list sexp) (st2 : Interpreter)
               (env2 : list frame),
          evaluate_expression fuel st' self env' e
          = Ok (st2, env2, (STATUS_PROCEED, None)) ->
          execute_statement (S fuel) st self env rt
            (Lst (Tok PRINT_DEF :: exprs ++ e :: rest))
          = Error TYPE_ERROR).
Proof.
  intros fuel st st' self env env' rt exprs vs Hev.
  repeat split.
  - rewrite execute_print_unfold.
    rewrite <- (app_nil_r exprs).
    rewrite (print_operands_all _ _ _ _ _ _ _ _ Hev [] EmptyString).
    reflexivity.
  - intros [|]; reflexivity.
  - intros e rest st2 env2 He.
    rewrite execute_print_unfold.
    rewrite (print_operands_all _ _ _ _ _ _ _ _ Hev (e :: rest) EmptyString).
    cbn [print_operands]. rewrite He. reflexivity.
Qed.

End Print.

(** ** Nulls of different declared types *)

Section Nulls.
Context {ext : External}.

Lemma evaluate_null_field (fuel : nat) (st : Interpreter) (self : ObjRef)
    (env : list frame) (l : ObjectDef) (x : string) (fx : VariableDef) :
  get_level st self = Ok l ->
  EnvironmentManager.get env x = None ->
  fields l !! x = Some fx ->
  holds_null fx = true ->
  evaluate_expression (S fuel) st self env (Tok x)
  = Ok (st, env, (STATUS_PROCEED, Some (mkValue (var_type fx) None))).
Proof.
  intros Hl Henv Hfx Hnull.
  cbn [evaluate_expression evaluate_expression_body].
  unfold evaluate_token. rewrite Henv, Hl. cbn [bind]. rewrite Hfx.
  unfold propagate_type_to_null. unfold holds_null in Hnull.
  destruct (var_value fx) as [v |]; [now rewrite Hnull | reflexivity].
Qed.

Lemma apply_binary_nulls (st : Interpreter) (op : string) (ta tb : Type_) :
  type_name ta <> type_name tb ->
  apply_binary st op (Some (mkValue ta None)) (Some (mkValue tb None))
  = if check_type_compatibility st ta tb false
    then match binary_ops_class op with
         | None => Crash
         | Some f => f (mkValue ta None) (mkValue tb None)
         end
    else Error TYPE_ERROR.
Proof.
  intros Hne. unfold apply_binary. cbn [v_type].
  unfold Type_eqb at 1 3 5.
  now rewrite (proj2 (String.eqb_neq _ _) Hne).
Qed.

(** C7, as amended: for a field declared with one class type and a field
    declared with another, both holding null and neither hidden by a local,
    the comparison with [==] or [!=] is a type error when the session's type
    registry finds the two declared types incompatible, and otherwise [==]
    yields true and [!=] yields false; it never yields not-equal.  Each null
    read carries the declared type of its field, and printing either field
    gives the host the line None. *)
Theorem nulls_of_different_types_compare :
  forall (fuel : nat) (st : Interpreter) (self : ObjRef) (env : list frame)
         (rt : Type_) (l : ObjectDef) (d c : string) (fd fc : VariableDef),
    get_level st self = Ok l ->
    EnvironmentManager.get env d = None ->
    EnvironmentManager.get env c = None ->
    fields l !! d = Some fd ->
    fields l !! c = Some fc ->
    holds_null fd = true ->
    holds_null fc = true ->
    type_name (var_type fd) <> type_name (var_type fc) ->
    type_name (var_type fd) <> BOOL_DEF ->
    type_name (var_type fc) <> BOOL_DEF ->
    evaluate_expression (S (S fuel)) st self env (Lst [Tok "=="; Tok d; Tok c])
    = (if check_type_compatibility st (var_type fd) (var_type fc) false
       then Ok (st, env, (STATUS_PROCEED, Some (bool_value true)))
       else Error TYPE_ERROR)
    /\ evaluate_expression (S (S fuel)) st self env (Lst [Tok "!="; Tok d; Tok c])
       = (if check_type_compatibility st (var_type fd) (var_type fc) false
          then Ok (st, env, (STATUS_PROCEED, Some (bool_value false)))
          else Error TYPE_ERROR)
    /\ evaluate_expression (S fuel) st self env (Tok d)
       = Ok (st, env, (STATUS_PROCEED, Some (mkValue (var_type fd) None)))
    /\ evaluate_expression (S fuel) st self env (Tok c)
       = Ok (st, env, (STATUS_PROCEED, Some (mkValue (var_type fc) None)))
    /\ execute_statement (S (S fuel)) st self env rt (Lst [Tok PRINT_DEF; Tok d])
       = Ok (host_output st "None", env, (STATUS_PROCEED, None))
    /\ execute_statement (S (S fuel)) st self env rt (Lst [Tok PRINT_DEF; Tok c])
       = Ok (host_output st "None", env, (STATUS_PROCEED, None)).
Proof.
  intros fuel st self env rt l d c fd fc Hl Hd Hc Hfd Hfc Hnd Hnc Hne Hbd Hbc.
  pose proof (evaluate_null_field fuel st self env l d fd Hl Hd Hfd Hnd) as Ed.
  pose proof (evaluate_null_field fuel st self env l c fc Hl Hc Hfc Hnc) as Ec.
  assert (Hcmp : forall op : string,
             op ∈ binary_op_list ->
             evaluate_expression (S (S fuel)) st self env (Lst [Tok op; Tok d; Tok c])
             = let! v := apply_binary st op (Some (mkValue (var_type fd) None))
                                      (Some (mkValue (var_type fc) None)) in
               Ok (st, env, (STATUS_PROCEED, Some v))).
  { intros op Hop.
    change (evaluate_expression (S (S fuel)) st self env (Lst [Tok op; Tok d; Tok c]))
      with (evaluate_operation (evaluate_expression (S fuel)) (call_method (S fuel))
              (instantiate (S fuel)) st self env op [Tok op; Tok d; Tok c]).
    unfold evaluate_operation. rewrite (bool_decide_eq_true_2 _ Hop).
    cbn [idx lookup list_lookup bind]. rewrite Ed. cbn [bind status_eqb].
    rewrite Ec. reflexivity. }
  assert (Hprint : forall (x : string) (fx : VariableDef),
             evaluate_expression (S fuel) st self env (Tok x)
             = Ok (st, env, (STATUS_PROCEED, Some (mkValue (var_type fx) None))) ->
             type_name (var_type fx) <> BOOL_DEF ->
             execute_statement (S (S fuel)) st self env rt (Lst [Tok PRINT_DEF; Tok x])
             = Ok (host_output st "None", env, (STATUS_PROCEED, None))).
  { intros x fx Ex Hb. rewrite execute_print_unfold.
    cbn [print_operands]. rewrite Ex. cbn [bind status_eqb].
    unfold print_text. cbn [v_type v_value]. unfold Type_eqb.
    change (type_name BOOL_TYPE_CONST) with BOOL_DEF.
    now rewrite (proj2 (String.eqb_neq _ _) Hb). }
  repeat split.
  - rewrite Hcmp by (apply (bool_decide_unpack _); reflexivity).
    rewrite (apply_binary_nulls st "==" _ _ Hne).
    now destruct (check_type_compatibility st (var_type fd) (var_type fc) false).
  - rewrite Hcmp by (apply (bool_decide_unpack _); reflexivity).
    rewrite (apply_binary_nulls st "!=" _ _ Hne).
    now destruct (check_type_compatibility st (var_type fd) (var_type fc) false).
  - exact Ed.
  - exact Ec.
  - exact (Hprint d fd Ed Hbd).
  - exact (Hprint c fc Ec Hbc).
Qed.

End Nulls.

(** ** Dispatch *)

Section Dispatch.
Context {ext : External}.

Lemma compatible_param_types_values (st : Interpreter) (args : list Value)
    (formals : list VariableDef) :
  compatible_param_types st (map Some args) formals
  = Ok (params_admit st formals args).
Proof.
  revert args. induction formals as [| f formals IH]; intros [| a args];
    try reflexivity.
  cbn [map compatible_param_types params_admit].
  destruct (check_type_compatibility st (var_type f) (v_type a) true);
    [apply IH | reflexivity].
Qed.

(** one step of the scan: a level that matches is returned, another is
    passed over *)
Lemma scan_step (st : Interpreter) (inst d : nat) (l : ObjectDef)
    (supers : list ObjectDef) (method_name : string) (args : list Value) :
  get_obj_with_method_from st inst (l :: supers) d method_name (map Some args)
  = if method_matches st l method_name args then Ok (Some (mkRef inst d))
    else get_obj_with_method_from st inst supers (S d) method_name (map Some args).
Proof.
  cbn [get_obj_with_method_from]. unfold method_matches.
  destruct (methods l !! method_name) as [m |]; [| reflexivity].
  rewrite length_map.
  destruct (length args =? length (formal_params m))%nat; cbn [andb bind].
  - rewrite compatible_param_types_values. reflexivity.
  - reflexivity.
Qed.

(** the scan stops at the first level that matches *)
Lemma scan_finds_first (st : Interpreter) (inst : nat) (method_name : string)
    (args : list Value) (levels : list ObjectDef) :
  forall (d k : nat) (l : ObjectDef),
    levels !! k = Some l ->
    method_matches st l method_name args = true ->
    (forall (i : nat) (li : ObjectDef),
        i < k -> levels !! i = Some li ->
        method_matches st li method_name args = false) ->
    get_obj_with_method_from st inst levels d method_name (map Some args)
    = Ok (Some (mkRef inst (d + k))).
Proof.
  induction levels as [| l0 levels IH]; intros d k l Hk Hm Hbefore.
  - discriminate.
  - rewrite scan_step. destruct k as [| k].
    + injection Hk as ->. rewrite Hm. now rewrite Nat.add_0_r.
    + rewrite (Hbefore 0 l0) by (reflexivity || lia).
      rewrite (IH (S d) k l Hk Hm).
      * now replace (S d + k) with (d + S k) by lia.
      * intros i li Hi Hli. apply (Hbefore (S i) li); [lia | exact Hli].
Qed.

(** what the scan returns is the first level that matches *)
Lemma scan_found_is_first (st : Interpreter) (inst : nat) (method_name : string)
    (args : list Value) (levels : list ObjectDef) :
  forall (d : nat) (o : ObjRef),
    get_obj_with_method_from st inst levels d method_name (map Some args)
    = Ok (Some o) ->
    ref_inst o = inst
    /\ exists (k : nat) (l : ObjectDef),
         ref_depth o = d + k
         /\ levels !! k = Some l
         /\ method_matches st l method_name args = true
         /\ forall (i : nat) (li : ObjectDef),
              i < k -> levels !! i = Some li ->
              method_matches st li method_name args = false.
Proof.
  induction levels as [| l0 levels IH]; intros d o Hscan.
  - discriminate.
  - rewrite scan_step in Hscan.
    destruct (method_matches st l0 method_name args) eqn:Hm0.
    + injection Hscan as <-. split; [reflexivity |].
      exists 0, l0. cbn [ref_depth]. repeat split; [lia | exact Hm0 |].
      intros i li Hi. lia.
    + destruct (IH (S d) o Hscan) as [Hinst (k & l & Hd & Hk & Hm & Hbefore)].
      split; [exact Hinst |].
      exists (S k), l. repeat split; [lia | exact Hk | exact Hm |].
      intros [| i] li Hi Hli.
      * injection Hli as <-. exact Hm0.
      * apply (Hbefore i li); [lia | exact Hli].
Qed.

(** the scan finds nothing when no level matches *)
Lemma scan_finds_none (st : Interpreter) (inst : nat) (method_name : string)
    (args : list Value) (levels : list ObjectDef) :
  forall d : nat,
    (forall (i : nat) (li : ObjectDef),
        levels !! i = Some li -> method_matches st li method_name args = false) ->
    get_obj_with_method_from st inst levels d method_name (map Some args)
    = Ok None.
Proof.
  induction levels as [| l0 levels IH]; intros d Hnone; [reflexivity |].
  rewrite scan_step, (Hnone 0 l0) by reflexivity.
  apply IH. intros i li Hli. exact (Hnone (S i) li Hli).
Qed.

(** on arguments that are all values the scan ends with a level or with none *)
Lemma scan_total (st : Interpreter) (inst : nat) (method_name : string)
    (args : list Value) (levels : list ObjectDef) :
  forall d : nat,
    exists r : option ObjRef,
      get_obj_with_method_from st inst levels d method_name (map Some args)
      = Ok r.
Proof.
  induction levels as [| l0 levels IH]; intros d; [now exists None |].
  rewrite scan_step. destruct (method_matches st l0 method_name args); eauto.
Qed.

Lemma scan_none_inv (st : Interpreter) (inst : nat) (method_name : string)
    (args : list Value) (levels : list ObjectDef) :
  forall d : nat,
    get_obj_with_method_from st inst levels d method_name (map Some args)
    = Ok None ->
    forall (i : nat) (li : ObjectDef),
      levels !! i = Some li -> method_matches st li method_name args = false.
Proof.
  induction levels as [| l0 levels IH]; intros d Hscan i li Hli;
    [discriminate |].
  rewrite scan_step in Hscan.
  destruct (method_matches st l0 method_name args) eqn:Hm0; [discriminate |].
  destruct i as [| i]; [injection Hli as <-; exact Hm0 |].
  exact (IH (S d) Hscan i li Hli).
Qed.

(** the scan from a level of an instance, in terms of the instance's levels *)
Lemma search_finds_first (st : Interpreter) (start : ObjRef)
    (levels : list ObjectDef) (method_name : string) (args : list Value)
    (k : nat) (l : ObjectDef) :
  heap st !! ref_inst start = Some levels ->
  ref_depth start <= k ->
  levels !! k = Some l ->
  method_matches st l method_name args = true ->
  (forall (i : nat) (li : ObjectDef),
      ref_depth start <= i < k -> levels !! i = Some li ->
      method_matches st li method_name args = false) ->
  get_obj_with_method st start method_name (map Some args)
  = Ok (Some (mkRef (ref_inst start) k)).
Proof.
  intros Hheap Hle Hk Hm Hbefore. unfold get_obj_with_method. rewrite Hheap.
  rewrite (scan_finds_first st _ method_name args _ (ref_depth start)
             (k - ref_depth start) l).
  - now replace (ref_depth start + (k - ref_depth start)) with k by lia.
  - rewrite lookup_drop. now replace (ref_depth start + (k - ref_depth start))
      with k by lia.
  - exact Hm.
  - intros i li Hi Hli. rewrite lookup_drop in Hli.
    apply (Hbefore (ref_depth start + i) li); [lia | exact Hli].
Qed.

Lemma search_found_is_first (st : Interpreter) (start o : ObjRef)
    (method_name : string) (args : list Value) :
  get_obj_with_method st start method_name (map Some args) = Ok (Some o) ->
  ref_inst o = ref_inst start
  /\ ref_depth start <= ref_depth o
  /\ exists (levels : list ObjectDef) (l : ObjectDef),
       heap st !! ref_inst start = Some levels
       /\ levels !! ref_depth o = Some l
       /\ method_matches st l method_name args = true
       /\ forall (i : nat) (li : ObjectDef),
            ref_depth start <= i < ref_depth o -> levels !! i = Some li ->
            method_matches st li method_name args = false.
Proof.
  unfold get_obj_with_method. intros Hscan.
  destruct (heap st !! ref_inst start) as [levels |] eqn:Hheap; [| discriminate].
  destruct (scan_found_is_first _ _ _ _ _ _ _ Hscan)
    as [Hinst (k & l & Hd & Hk & Hm & Hbefore)].
  rewrite lookup_drop in Hk. rewrite <- Hd in Hk.
  split; [exact Hinst |]. split; [lia |].
  exists levels, l. repeat split; [exact Hk | exact Hm |].
  intros i li Hi Hli.
  apply (Hbefore (i - ref_depth start) li); [lia |].
  rewrite lookup_drop.
  now replace (ref_depth start + (i - ref_depth start)) with i by lia.
Qed.

(** [call_method] runs the body of the method of the level [dispatch]
    chooses, with that level as the executing one *)
Lemma call_method_runs_dispatched (fuel : nat) (st : Interpreter)
    (self o : ObjRef) (method_name : string)
    (actual_params : list (option Value)) (super_only : bool)
    (l : ObjectDef) (m : MethodDef) :
  dispatch st self method_name actual_params super_only = Ok (Some o) ->
  get_level st o = Ok l ->
  methods l !! method_name = Some m ->
  call_method (S fuel) st self method_name actual_params super_only
  = invoke fuel st o m actual_params.
Proof.
  intros Hd Hl Hm. cbn [call_method]. unfold call_method_body.
  rewrite Hd. cbn [bind]. rewrite Hl. cbn [bind]. rewrite Hm. reflexivity.
Qed.

Lemma method_matches_has_method (st : Interpreter) (l : ObjectDef)
    (method_name : string) (args : list Value) :
  method_matches st l method_name args = true ->
  exists m : MethodDef, methods l !! method_name = Some m.
Proof.
  unfold method_matches. destruct (methods l !! method_name) as [m |];
    [eauto | discriminate].
Qed.

(** C1, as amended: for a call that is not made through [super] and whose
    receiving level, or a level more base than it, has a matching method
    (name, number of parameters, each formal type admitting the argument's
    type), the levels are scanned from the anchor, most derived first, and
    the first level that has a matching method is the one chosen: it is the
    executing level of the body that [call_method] runs, and no level more
    base than it is looked at. *)
Theorem dispatch_first_match_from_anchor :
  forall (fuel : nat) (st : Interpreter) (self : ObjRef)
         (method_name : string) (args : list Value)
         (levels : list ObjectDef) (j k : nat) (lj l : ObjectDef),
    heap st !! ref_inst self = Some levels ->
    ref_depth self <= j ->
    levels !! j = Some lj ->
    method_matches st lj method_name args = true ->
    levels !! k = Some l ->
    method_matches st l method_name args = true ->
    (forall (i : nat) (li : ObjectDef),
        i < k -> levels !! i = Some li ->
        method_matches st li method_name args = false) ->
    dispatch st self method_name (map Some args) false
    = Ok (Some (mkRef (ref_inst self) k))
    /\ exists m : MethodDef,
         methods l !! method_name = Some m
         /\ call_method (S fuel) st self method_name (map Some args) false
            = invoke fuel st (mkRef (ref_inst self) k) m (map Some args).
Proof.
  intros fuel st self method_name args levels j k lj l
         Hheap Hj Hlj Hmj Hk Hm Hbefore.
  assert (Hknown : exists o,
             get_obj_with_method st self method_name (map Some args)
             = Ok (Some o)).
  { unfold get_obj_with_method. rewrite Hheap.
    destruct (scan_total st (ref_inst self) method_name args
                (drop (ref_depth self) levels) (ref_depth self)) as [[o |] Hr].
    - now exists o.
    - exfalso.
      pose proof (scan_none_inv st _ method_name args _ _ Hr
                    (j - ref_depth self) lj) as Hno.
      rewrite lookup_drop in Hno.
      replace (ref_depth self + (j - ref_depth self)) with j in Hno by lia.
      specialize (Hno Hlj). congruence. }
  destruct Hknown as [o Hknown].
  assert (Hd : dispatch st self method_name (map Some args) false
               = Ok (Some (mkRef (ref_inst self) k))).
  { unfold dispatch. rewrite Hknown. cbn [bind].
    apply (search_finds_first st (anchor_object self) levels method_name args k l);
      cbn [anchor_object ref_inst ref_depth];
      [exact Hheap | lia | exact Hk | exact Hm |].
    intros i li Hi. apply Hbefore. lia. }
  split; [exact Hd |].
  destruct (method_matches_has_method _ _ _ _ Hm) as [m Hmeth].
  exists m. split; [exact Hmeth |].
  apply (call_method_runs_dispatched fuel st self _ method_name _ false l m Hd);
    [| exact Hmeth].
  unfold get_level. cbn [ref_inst ref_depth]. now rewrite Hheap, Hk.
Qed.

End Dispatch.

(** ** Calls through super *)

Section Super.
Context {ext : External}.

Lemma super_object_is_next_level (st : Interpreter) (self sup : ObjRef) :
  super_object st self = Some sup ->
  sup = mkRef (ref_inst self) (S (ref_depth self)).
Proof.
  unfold super_object. intros H.
  destruct (heap st !! ref_inst self) as [levels |]; [| discriminate].
  destruct (levels !! S (ref_depth self)); [| discriminate].
  now injection H as <-.
Qed.

(** a call whose receiver is [super]: the arguments are evaluated, then the
    method is called on the level below the executing one, as a super call *)
Lemma execute_call_aux_super (fuel : nat) (st st1 : Interpreter)
    (self sup : ObjRef) (env env1 : list frame) (method_name : string)
    (arg_exprs : list sexp) (actuals : list (option Value)) :
  super_object st self = Some sup ->
  evaluate_args (evaluate_expression fuel) st self env arg_exprs []
  = Ok (st1, env1, inr actuals) ->
  execute_call_aux (evaluate_expression fuel) (call_method fuel) st self env
    (Tok CALL_DEF :: Tok SUPER_DEF :: Tok method_name :: arg_exprs)
  = let! '(st2, r) := call_method fuel st1 sup method_name actuals true in
    Ok (st2, env1, r).
Proof.
  intros Hsup Hargs. unfold execute_call_aux.
  cbn [idx lookup list_lookup bind].
  change (String.eqb SUPER_DEF ME_DEF) with false.
  change (String.eqb SUPER_DEF SUPER_DEF) with true.
  cbn iota. rewrite Hsup. cbn [bind drop]. rewrite drop_0, Hargs. reflexivity.
Qed.

(** C2: a call through [super] made while the method resolved at level
    [self] executes is a call on the level immediately below [self]; the
    level it chooses belongs to the same instance and lies strictly below
    [self], it is the first level below [self] with a matching method, and
    its body then runs with that level as the executing one, so that a
    [super] call in that body searches below it in turn.  No level at or
    above [self] is ever chosen, however long the chain. *)
Theorem super_call_searches_below_executing_level :
  forall (fuel : nat) (st st1 : Interpreter) (self sup : ObjRef)
         (env env1 : list frame) (rt : Type_) (method_name : string)
         (arg_exprs : list sexp) (args : list Value),
    super_object st self = Some sup ->
    evaluate_args (evaluate_expression fuel) st self env arg_exprs []
    = Ok (st1, env1, inr (map Some args)) ->
    evaluate_expression (S fuel) st self env
      (Lst (Tok CALL_DEF :: Tok SUPER_DEF :: Tok method_name :: arg_exprs))
    = (let! '(st2, r) := call_method fuel st1 sup method_name (map Some args) true in
       Ok (st2, env1, r))
    /\ execute_statement (S fuel) st self env rt
         (Lst (Tok CALL_DEF :: Tok SUPER_DEF :: Tok method_name :: arg_exprs))
       = (let! '(st2, r) := call_method fuel st1 sup method_name (map Some args) true in
          Ok (st2, env1, r))
    /\ sup = mkRef (ref_inst self) (S (ref_depth self))
    /\ forall o : ObjRef,
         dispatch st1 sup method_name (map Some args) true = Ok (Some o) ->
         ref_inst o = ref_inst self
         /\ ref_depth self < ref_depth o
         /\ exists (levels : list ObjectDef) (l : ObjectDef) (m : MethodDef),
              heap st1 !! ref_inst self = Some levels
              /\ levels !! ref_depth o = Some l
              /\ method_matches st1 l method_name args = true
              /\ (forall (i : nat) (li : ObjectDef),
                    ref_depth self < i < ref_depth o -> levels !! i = Some li ->
                    method_matches st1 li method_name args = false)
              /\ methods l !! method_name = Some m
              /\ forall n : nat,
                   call_method (S n) st1 sup method_name (map Some args) true
                   = invoke n st1 o m (map Some args).
Proof.
  intros fuel st st1 self sup env env1 rt method_name arg_exprs args Hsup Hargs.
  pose proof (execute_call_aux_super fuel st st1 self sup env env1 method_name
                arg_exprs (map Some args) Hsup Hargs) as Hcall.
  pose proof (super_object_is_next_level st self sup Hsup) as Hnext.
  split; [exact Hcall |]. split; [exact Hcall |]. split; [exact Hnext |].
  intros o Hd.
  assert (Hscan : get_obj_with_method st1 sup method_name (map Some args)
                  = Ok (Some o)).
  { unfold dispatch in Hd.
    destruct (get_obj_with_method st1 sup method_name (map Some args))
      as [[known |] | | |]; try discriminate.
    exact Hd. }
  destruct (search_found_is_first st1 sup o method_name args Hscan)
    as (Hinst & Hdepth & levels & l & Hheap & Hl & Hm & Hbefore).
  subst sup. cbn [ref_inst ref_depth] in *.
  split; [exact Hinst |]. split; [lia |].
  destruct (method_matches_has_method _ _ _ _ Hm) as [m Hmeth].
  exists levels, l, m. repeat split; try assumption.
  intros n.
  apply (call_method_runs_dispatched n st1 _ o method_name _ true l m Hd);
    [| exact Hmeth].
  unfold get_level. rewrite Hinst, Hheap, Hl. reflexivity.
Qed.

End Super.

(** ** Return *)

Section Return.
Context {ext : External}.

Lemma invoke_result (fuel : nat) (st st' : Interpreter) (o : ObjRef)
    (m : MethodDef) (actual_params : list (option Value))
    (scope scope' : list frame) (s : status) (v : option Value) :
  bind_params EnvironmentManager.new (formal_params m) actual_params
  = Ok (Some scope) ->
  execute_statement fuel st o scope (return_type m) (code m)
  = Ok (st', scope', (s, v)) ->
  invoke fuel st o m actual_params = Ok (st', method_result m s v).
Proof. intros Hb He. unfold invoke. rewrite Hb. cbn [bind]. now rewrite He. Qed.

(** C3: a bare [return] ends the statement with the status RETURN and no
    value; a method whose body ends with RETURN and no value, or runs off
    its end, hands its caller the default value of its declared return type,
    and one whose body returns a value hands over that value.  A [return]
    whose operand evaluates to a value of a type the declared return type
    does not admit is a type error; an admitted typeless null is replaced by
    a null of the declared return type, which is then checked against the
    declared return type; any other admitted value is returned as it is. *)
Theorem return_hands_back_value_or_default :
  forall (fuel : nat) (st st1 : Interpreter) (self : ObjRef)
         (env env1 : list frame) (rt : Type_) (e : sexp) (r : Value),
    evaluate_expression fuel st self env e
    = Ok (st1, env1, (STATUS_PROCEED, Some r)) ->
    execute_statement (S fuel) st self env rt (Lst [Tok RETURN_DEF])
    = Ok (st, env, (STATUS_RETURN, None))
    /\ execute_statement (S fuel) st self env rt (Lst [Tok RETURN_DEF; e])
       = (if check_type_compatibility st1 rt (v_type r) true then
            if is_typeless_null r then
              if check_type_compatibility st1 rt rt true
              then Ok (st1, env1, (STATUS_RETURN, Some (mkValue rt None)))
              else Error TYPE_ERROR
            else Ok (st1, env1, (STATUS_RETURN, Some r))
          else Error TYPE_ERROR)
    /\ (forall (n : nat) (s0 s' : Interpreter) (caller o : ObjRef)
               (method_name : string) (actual_params : list (option Value))
               (super_only : bool) (l : ObjectDef) (m : MethodDef)
               (scope scope' : list frame) (s : status) (v : option Value),
          dispatch s0 caller method_name actual_params super_only = Ok (Some o) ->
          get_level s0 o = Ok l ->
          methods l !! method_name = Some m ->
          bind_params EnvironmentManager.new (formal_params m) actual_params
          = Ok (Some scope) ->
          execute_statement n s0 o scope (return_type m) (code m)
          = Ok (s', scope', (s, v)) ->
          call_method (S n) s0 caller method_name actual_params super_only
          = Ok (s', match s, v with
                    | STATUS_RETURN, Some value => (STATUS_PROCEED, Some value)
                    | STATUS_RETURN, None =>
                        (STATUS_PROCEED, create_default_value (return_type m))
                    | STATUS_PROCEED, _ =>
                        (STATUS_PROCEED, create_default_value (return_type m))
                    | STATUS_EXCEPTION, _ => (STATUS_EXCEPTION, v)
                    end)).
Proof.
  intros fuel st st1 self env env1 rt e r He.
  split; [reflexivity |]. split.
  - change (execute_statement (S fuel) st self env rt (Lst [Tok RETURN_DEF; e]))
      with (execute_return (evaluate_expression fuel) st self env rt
              [Tok RETURN_DEF; e]).
    unfold execute_return. cbn [length Nat.eqb idx lookup list_lookup bind].
    rewrite He. cbn [bind status_eqb].
    unfold check_type_compatibility_or_error.
    destruct (is_typeless_null r) eqn:Hnull.
    + destruct (check_type_compatibility st1 rt (v_type r) true);
        cbn [negb bind v_type]; [| reflexivity].
      now destruct (check_type_compatibility st1 rt rt true).
    + cbn [bind].
      now destruct (check_type_compatibility st1 rt (v_type r) true).
  - intros n s0 s' caller o method_name actual_params super_only l m
           scope scope' s v Hd Hl Hm Hb Hbody.
    rewrite (call_method_runs_dispatched n s0 caller o method_name actual_params
               super_only l m Hd Hl Hm).
    rewrite (invoke_result n s0 s' o m actual_params scope scope' s v Hb Hbody).
    now destruct s, v.
Qed.

End Return.

(** ** The frame stack *)

Section Frames.
Context {ext : External}.

#[local] Abbreviation outcome :=
  (Interpreter * list frame * (status * option Value))%type.

Lemma holds_bind {A B : Type} (Q' : A -> Prop) (Q : B -> Prop)
    (m : result A) (f : A -> result B) :
  holds Q' m -> (forall a, Q' a -> holds Q (f a)) -> holds Q (bind m f).
Proof. destruct m; cbn; auto. Qed.

Lemma holds_any {A : Type} (m : result A) : holds (fun _ => True) m.
Proof. now destruct m. Qed.

Lemma set_keeps_frames (env : list frame) (k : string) (d : VariableDef) :
  length (snd (EnvironmentManager.set env k d)) = length env.
Proof.
  induction env as [| f env IH]; [reflexivity |].
  cbn [EnvironmentManager.set]. destruct (f !! k); [reflexivity |].
  destruct (EnvironmentManager.set env k d) as [b env'] eqn:E.
  cbn [snd length] in *. now rewrite IH.
Qed.

Lemma create_new_symbol_keeps_frames (env : list frame) (k : string) :
  holds (fun r => length (snd r) = length env)
        (EnvironmentManager.create_new_symbol env k).
Proof.
  destruct env as [| f env]; [exact I |].
  cbn [EnvironmentManager.create_new_symbol]. now destruct (f !! k).
Qed.

Ltac pure_bind := eapply holds_bind; [apply holds_any | intros ? _].

Lemma set_local_or_param_keeps (st : Interpreter) (env : list frame)
    (k : string) (v : Value) :
  holds (fun r => length (snd r) = length env) (set_local_or_param st env k v).
Proof.
  unfold set_local_or_param.
  destruct (EnvironmentManager.get env k); [| reflexivity].
  pure_bind. cbn. apply set_keeps_frames.
Qed.

Lemma set_variable_aux_keeps (st : Interpreter) (self : ObjRef)
    (env : list frame) (k : string) (v : option Value) :
  holds (frames2 (length env)) (set_variable_aux st self env k v).
Proof.
  unfold set_variable_aux. destruct v as [v |]; [| reflexivity].
  eapply holds_bind; [apply set_local_or_param_keeps |].
  intros [b env'] Hlen. cbn [snd] in Hlen.
  destruct b; [exact Hlen |].
  pure_bind. destruct a as [[|] st']; [exact Hlen | exact I].
Qed.

Lemma set_target_keeps (st : Interpreter) (self : ObjRef) (env : list frame)
    (target : sexp) (v : option Value) :
  holds (frames2 (length env)) (set_target st self env target v).
Proof.
  unfold set_target. destruct v as [v |]; [| reflexivity].
  pure_bind. apply set_variable_aux_keeps.
Qed.


Lemma add_local_to_env_keeps
    (inst : Interpreter -> TemplateClassDef -> list string ->
            result (Interpreter * ClassDef))
    (st : Interpreter) (env : list frame) (var_def : sexp) :
  holds (fun r => match r with
                  | Some x => frames2 (length env) x
                  | None => True
                  end)
        (add_local_to_env inst st env var_def).
Proof.
  unfold add_local_to_env.
  pure_bind. pure_bind. pure_bind. pure_bind. pure_bind.
  destruct a3 as [dv |]; [| exact I].
  pure_bind.
  eapply holds_bind; [apply create_new_symbol_keeps_frames |].
  intros [fresh env'] Hlen. cbn [snd] in Hlen.
  destruct fresh; [| exact I].
  cbn. unfold frames2. cbn [snd]. now rewrite set_keeps_frames.
Qed.

Lemma add_locals_list_keeps
    (inst : Interpreter -> TemplateClassDef -> list string ->
            result (Interpreter * ClassDef))
    (var_defs : list sexp) :
  forall (st : Interpreter) (env : list frame),
    holds (frames2 (length env)) (add_locals_list inst st env var_defs).
Proof.
  induction var_defs as [| var_def rest IH]; intros st env; [reflexivity |].
  cbn [add_locals_list].
  eapply holds_bind; [apply add_local_to_env_keeps |].
  intros [[st' env'] |] Hlen; [| reflexivity].
  unfold frames2 in Hlen. cbn [snd] in Hlen.
  rewrite <- Hlen. apply IH.
Qed.

Lemma add_locals_to_env_keeps
    (inst : Interpreter -> TemplateClassDef -> list string ->
            result (Interpreter * ClassDef))
    (st : Interpreter) (env : list frame) (var_defs : sexp) :
  holds (frames2 (length env)) (add_locals_to_env inst st env var_defs).
Proof.
  destruct var_defs as [[| ? ?] | l]; try exact I; [reflexivity |].
  apply add_locals_list_keeps.
Qed.

Section Bodies.

(** the functions of the evaluator at the fuel below, which hand back as
    many frames as they are given *)
Variable execute_statement_rec :
  Interpreter -> ObjRef -> list frame -> Type_ -> sexp -> result outcome.
Variable execute_while_rec :
  Interpreter -> ObjRef -> list frame -> Type_ -> list sexp -> result outcome.
Variable evaluate_expression_rec :
  Interpreter -> ObjRef -> list frame -> sexp -> result outcome.
Variable call_method_rec :
  Interpreter -> ObjRef -> string -> list (option Value) -> bool ->
  result (Interpreter * (status * option Value)).
Variable instantiate_class_rec :
  Interpreter -> TemplateClassDef -> list string -> result (Interpreter * ClassDef).
Variable instantiate_rec : Interpreter -> string -> result (Interpreter * ObjRef).

Hypothesis statement_keeps :
  forall st self env rt code,
    holds (frames (length env)) (execute_statement_rec st self env rt code).
Hypothesis while_keeps :
  forall st self env rt code,
    holds (frames (length env)) (execute_while_rec st self env rt code).
Hypothesis expression_keeps :
  forall st self env expr,
    holds (frames (length env)) (evaluate_expression_rec st self env expr).

(** bind a computation that hands back the scopes, then go on with as many
    frames *)
Ltac scoped_bind H :=
  eapply holds_bind; [apply H |];
  let st := fresh "st" in
  let env := fresh "env" in
  let r := fresh "r" in
  let Hlen := fresh "Hlen" in
  intros [[st env] r] Hlen; unfold frames in Hlen; cbn [fst snd] in Hlen.

Lemma evaluate_args_keeps (exprs : list sexp) :
  forall (st : Interpreter) (self : ObjRef) (env : list frame)
         (acc : list (option Value)),
    holds (frames (length env))
          (evaluate_args evaluate_expression_rec st self env exprs acc).
Proof.
  induction exprs as [| e rest IH]; intros st self env acc; [reflexivity |].
  cbn [evaluate_args]. scoped_bind expression_keeps.
  destruct r as [s arg]. destruct (status_eqb s STATUS_EXCEPTION); [exact Hlen |].
  rewrite <- Hlen. apply IH.
Qed.

Lemma evaluate_receiver_keeps (st : Interpreter) (self : ObjRef)
    (env : list frame) (obj_name : sexp) :
  holds (frames (length env))
        (evaluate_receiver evaluate_expression_rec st self env obj_name).
Proof.
  unfold evaluate_receiver. scoped_bind expression_keeps.
  destruct r as [s [v |]]; destruct (status_eqb s STATUS_EXCEPTION);
    try exact Hlen.
  now destruct (v_value v).
Qed.

Lemma execute_call_aux_keeps (st : Interpreter) (self : ObjRef)
    (env : list frame) (code : list sexp) :
  holds (frames (length env))
        (execute_call_aux evaluate_expression_rec call_method_rec st self env code).
Proof.
  unfold execute_call_aux. pure_bind.
  eapply holds_bind with (Q' := frames (length env)).
  - destruct a as [w | l]; [| apply evaluate_receiver_keeps].
    destruct (String.eqb w ME_DEF); [reflexivity |].
    destruct (String.eqb w SUPER_DEF); [| apply evaluate_receiver_keeps].
    now destruct (super_object st self).
  - intros [[st1 env1] target] Hlen. unfold frames in Hlen. cbn [fst snd] in Hlen.
    destruct target as [r | [obj super_only]]; [exact Hlen |].
    eapply holds_bind; [apply evaluate_args_keeps |].
    intros [[st2 env2] args] Hlen2. unfold frames in Hlen2. cbn [fst snd] in Hlen2.
    destruct args as [r | actual_args]; [cbn; unfold frames; cbn; lia |].
    destruct obj; try exact I.
    pure_bind. pure_bind. destruct a1 as [st3 r].
    cbn. unfold frames. cbn. lia.
Qed.

Lemma evaluate_token_keeps (st : Interpreter) (self : ObjRef) (env : list frame)
    (expr : string) :
  holds (frames (length env)) (evaluate_token st self env expr).
Proof.
  unfold evaluate_token.
  destruct (EnvironmentManager.get env expr); [reflexivity |].
  pure_bind. destruct (fields a !! expr); [reflexivity |].
  destruct (create_value expr); [reflexivity |].
  destruct (String.eqb expr ME_DEF); [| exact I].
  pure_bind. reflexivity.
Qed.

Lemma evaluate_operation_keeps (st : Interpreter) (self : ObjRef)
    (env : list frame) (operator : string) (expr : list sexp) :
  holds (frames (length env))
        (evaluate_operation evaluate_expression_rec call_method_rec
                            instantiate_rec st self env operator expr).
Proof.
  unfold evaluate_operation.
  destruct (bool_decide (operator ∈ binary_op_list)).
  { pure_bind. scoped_bind expression_keeps. destruct r as [s1 o1].
    destruct (status_eqb s1 STATUS_EXCEPTION); [exact Hlen |].
    pure_bind. eapply holds_bind; [apply expression_keeps |].
    intros [[st2 env2] [s2 o2]] Hlen2. unfold frames in Hlen2.
    cbn [fst snd] in Hlen2.
    destruct (status_eqb s2 STATUS_EXCEPTION); [cbn; unfold frames; cbn; lia |].
    pure_bind. cbn. unfold frames. cbn. lia. }
  destruct (bool_decide (operator ∈ unary_op_list)).
  { pure_bind. scoped_bind expression_keeps. destruct r as [s1 o1].
    destruct (status_eqb s1 STATUS_EXCEPTION); [exact Hlen |].
    destruct o1 as [a1 |]; [| exact I].
    destruct (Type_eqb (v_type a1) BOOL_TYPE_CONST); [| exact Hlen].
    destruct (unary_ops_bool operator); [| exact I].
    pure_bind. exact Hlen. }
  destruct (String.eqb operator CALL_DEF); [apply execute_call_aux_keeps |].
  destruct (String.eqb operator NEW_DEF); [| reflexivity].
  pure_bind. destruct a as [st1 v]. reflexivity.
Qed.

Lemma evaluate_expression_body_keeps (st : Interpreter) (self : ObjRef)
    (env : list frame) (expr : sexp) :
  holds (frames (length env))
        (evaluate_expression_body evaluate_expression_rec call_method_rec
                                  instantiate_rec st self env expr).
Proof.
  destruct expr as [t | l]; [apply evaluate_token_keeps |].
  cbn [evaluate_expression_body]. pure_bind.
  destruct a; [apply evaluate_operation_keeps | reflexivity].
Qed.

Lemma execute_block_keeps (statements : list sexp) :
  forall (st : Interpreter) (self : ObjRef) (env : list frame) (rt : Type_)
         (last : status * option Value),
    holds (frames (length env))
          (execute_block execute_statement_rec st self env rt statements last).
Proof.
  induction statements as [| s rest IH]; intros st self env rt last;
    [reflexivity |].
  cbn [execute_block]. scoped_bind statement_keeps. destruct r as [s1 v1].
  destruct (status_eqb s1 STATUS_RETURN || status_eqb s1 STATUS_EXCEPTION);
    [exact Hlen |].
  rewrite <- Hlen. apply IH.
Qed.

Lemma execute_begin_keeps (st : Interpreter) (self : ObjRef) (env : list frame)
    (rt : Type_) (code : list sexp) (has_vardef : bool) :
  holds (frames (length env))
        (execute_begin execute_statement_rec instantiate_class_rec st self env rt
                       code has_vardef).
Proof.
  unfold execute_begin. destruct has_vardef; [| apply execute_block_keeps].
  pure_bind.
  eapply holds_bind; [apply add_locals_to_env_keeps |].
  intros [st1 env1] Hlen1. unfold frames2 in Hlen1. cbn [snd] in Hlen1.
  eapply holds_bind; [apply execute_block_keeps |].
  intros [[st2 env2] r] Hlen2. unfold frames in Hlen2. cbn [fst snd] in Hlen2.
  destruct env2 as [| f env2]; [exact I |].
  cbn. unfold frames. cbn.
  unfold EnvironmentManager.block_nest in Hlen1. cbn [length] in Hlen1, Hlen2. lia.
Qed.

Lemma execute_set_keeps (st : Interpreter) (self : ObjRef) (env : list frame)
    (code : list sexp) :
  holds (frames (length env)) (execute_set evaluate_expression_rec st self env code).
Proof.
  unfold execute_set. pure_bind. scoped_bind expression_keeps.
  destruct r as [s v]. destruct (status_eqb s STATUS_EXCEPTION); [exact Hlen |].
  pure_bind. eapply holds_bind; [apply set_target_keeps |].
  intros [st2 env2] Hlen2. unfold frames2 in Hlen2. cbn [snd] in Hlen2.
  cbn. unfold frames. cbn. lia.
Qed.

Lemma execute_return_keeps (st : Interpreter) (self : ObjRef) (env : list frame)
    (rt : Type_) (code : list sexp) :
  holds (frames (length env))
        (execute_return evaluate_expression_rec st self env rt code).
Proof.
  unfold execute_return. destruct (length code =? 1)%nat; [reflexivity |].
  pure_bind. scoped_bind expression_keeps.
  destruct r as [s v]. destruct (status_eqb s STATUS_EXCEPTION); [exact Hlen |].
  pure_bind. destruct a0; [| exact I]. pure_bind. exact Hlen.
Qed.

Lemma execute_try_keeps (st : Interpreter) (self : ObjRef) (env : list frame)
    (rt : Type_) (code : list sexp) :
  holds (frames (length env)) (execute_try execute_statement_rec st self env rt code).
Proof.
  unfold execute_try. pure_bind. scoped_bind statement_keeps.
  destruct (status_eqb (fst r) STATUS_EXCEPTION); [| exact Hlen].
  eapply holds_bind; [apply create_new_symbol_keeps_frames |].
  intros [fresh scope] Hscope. cbn [snd] in Hscope.
  pure_bind.
  eapply holds_bind; [apply statement_keeps |].
  intros [[st2 env2] r2] Hlen2. unfold frames in Hlen2. cbn [fst snd] in Hlen2.
  rewrite set_keeps_frames, Hscope in Hlen2.
  unfold EnvironmentManager.block_nest in Hlen2. cbn [length] in Hlen2.
  destruct env2 as [| f env2]; [exact I |].
  cbn. unfold frames. cbn. cbn [length] in Hlen2. lia.
Qed.

Lemma execute_throw_keeps (st : Interpreter) (self : ObjRef) (env : list frame)
    (code : list sexp) :
  holds (frames (length env)) (execute_throw evaluate_expression_rec st self env code).
Proof.
  unfold execute_throw. pure_bind. scoped_bind expression_keeps.
  destruct r as [s v]. destruct (status_eqb s STATUS_EXCEPTION); [exact Hlen |].
  destruct v as [v |]; [| exact I].
  now destruct (negb (String.eqb (type_name (v_type v)) STRING_DEF)).
Qed.

Lemma print_operands_keeps (exprs : list sexp) :
  forall (st : Interpreter) (self : ObjRef) (env : list frame) (line : string),
    holds (frames (length env))
          (print_operands evaluate_expression_rec st self env exprs line).
Proof.
  induction exprs as [| e rest IH]; intros st self env line; [reflexivity |].
  cbn [print_operands]. scoped_bind expression_keeps. destruct r as [s term].
  destruct (status_eqb s STATUS_EXCEPTION); [exact Hlen |].
  destruct term as [t |]; [| exact I].
  rewrite <- Hlen. apply IH.
Qed.

Lemma execute_print_keeps (st : Interpreter) (self : ObjRef) (env : list frame)
    (code : list sexp) :
  holds (frames (length env)) (execute_print evaluate_expression_rec st self env code).
Proof.
  unfold execute_print. eapply holds_bind; [apply print_operands_keeps |].
  intros [[st1 env1] r] Hlen. unfold frames in Hlen. cbn [fst snd] in Hlen.
  now destruct r.
Qed.

Lemma execute_input_keeps (st : Interpreter) (self : ObjRef) (env : list frame)
    (code : list sexp) (get_string : bool) :
  holds (frames (length env)) (execute_input st self env code get_string).
Proof.
  unfold execute_input. destruct (get_input st) as [st1 inp].
  pure_bind. pure_bind. eapply holds_bind; [apply set_target_keeps |].
  intros [st2 env2] Hlen2. exact Hlen2.
Qed.

Lemma execute_if_keeps (st : Interpreter) (self : ObjRef) (env : list frame)
    (rt : Type_) (code : list sexp) :
  holds (frames (length env))
        (execute_if execute_statement_rec evaluate_expression_rec st self env rt code).
Proof.
  unfold execute_if. pure_bind. scoped_bind expression_keeps.
  destruct r as [s c]. destruct (status_eqb s STATUS_EXCEPTION); [exact Hlen |].
  pure_bind. rewrite <- Hlen.
  destruct (truthy (v_value a0)); [pure_bind; apply statement_keeps |].
  destruct (length code =? 4)%nat; [pure_bind; apply statement_keeps | reflexivity].
Qed.

Lemma execute_while_body_keeps (st : Interpreter) (self : ObjRef)
    (env : list frame) (rt : Type_) (code : list sexp) :
  holds (frames (length env))
        (execute_while_body execute_statement_rec execute_while_rec
                            evaluate_expression_rec st self env rt code).
Proof.
  unfold execute_while_body. pure_bind. scoped_bind expression_keeps.
  destruct r as [s c]. destruct (status_eqb s STATUS_EXCEPTION); [exact Hlen |].
  pure_bind. destruct (negb (truthy (v_value a0))); [exact Hlen |].
  pure_bind. rewrite <- Hlen.
  eapply holds_bind; [apply statement_keeps |].
  intros [[st2 env2] [s2 v2]] Hlen2. unfold frames in Hlen2. cbn [fst snd] in Hlen2.
  destruct (status_eqb s2 STATUS_EXCEPTION || status_eqb s2 STATUS_RETURN);
    [exact Hlen2 |].
  rewrite <- Hlen2. apply while_keeps.
Qed.

Lemma execute_statement_body_keeps (st : Interpreter) (self : ObjRef)
    (env : list frame) (rt : Type_) (code : sexp) :
  holds (frames (length env))
        (execute_statement_body execute_statement_rec execute_while_rec
           evaluate_expression_rec call_method_rec instantiate_class_rec
           st self env rt code).
Proof.
  unfold execute_statement_body. pure_bind. pure_bind.
  repeat match goal with
         | |- holds _ (if ?b then _ else _) => destruct b
         end;
    first [ apply execute_begin_keeps | apply execute_set_keeps
          | apply execute_if_keeps | apply execute_call_aux_keeps
          | apply while_keeps | apply execute_return_keeps
          | apply execute_throw_keeps | apply execute_try_keeps
          | apply execute_input_keeps | apply execute_print_keeps
          | exact I ].
Qed.

End Bodies.

(** every statement and every expression hands back as many frames as it
    was given: the frames pushed by [let] and by [try] are popped *)
Lemma evaluator_keeps_frames (fuel : nat) :
  (forall st self env rt code,
      holds (frames (length env)) (execute_statement fuel st self env rt code))
  /\ (forall st self env rt code,
         holds (frames (length env)) (execute_while fuel st self env rt code))
  /\ (forall st self env expr,
         holds (frames (length env)) (evaluate_expression fuel st self env expr)).
Proof.
  induction fuel as [| n (IHs & IHw & IHe)]; [now repeat split |].
  repeat split; intros.
  - apply execute_statement_body_keeps; assumption.
  - apply execute_while_body_keeps; assumption.
  - apply evaluate_expression_body_keeps; assumption.
Qed.

End Frames.

(** ** Try, catch and the way of an exception *)

Section Try.
Context {ext : External}.

(** the scope a catch block runs in: one more frame, with the exception
    variable bound to what was thrown *)
Lemma catch_scope (env : list frame) (thrown : option Value) :
  (let! '(_, scope) :=
     EnvironmentManager.create_new_symbol (EnvironmentManager.block_nest env)
                                          EXCEPTION_VARIABLE_DEF in
   Ok (snd (EnvironmentManager.set scope EXCEPTION_VARIABLE_DEF
              (mkVariableDef (mkType STRING_DEF) EXCEPTION_VARIABLE_DEF thrown))))
  = Ok ({[EXCEPTION_VARIABLE_DEF :=
            Some (mkVariableDef (mkType STRING_DEF) EXCEPTION_VARIABLE_DEF thrown)]}
        :: env).
Proof.
  unfold EnvironmentManager.block_nest, EnvironmentManager.create_new_symbol.
  rewrite lookup_empty. cbn [bind EnvironmentManager.set snd].
  rewrite lookup_insert_eq. cbn [snd].
  now rewrite insert_insert_eq, insert_empty.
Qed.

Lemma execute_try_unfold (fuel : nat) (st : Interpreter) (self : ObjRef)
    (env : list frame) (rt : Type_) (code : list sexp) :
  execute_statement (S fuel) st self env rt (Lst (Tok TRY_DEF :: code))
  = execute_try (execute_statement fuel) st self env rt (Tok TRY_DEF :: code).
Proof. reflexivity. Qed.

(** a call on [me]: the arguments are evaluated and the method is called on
    the executing level; the statement ends as the call does *)
Lemma execute_call_on_me (fuel : nat) (st st1 : Interpreter) (self : ObjRef)
    (env env1 : list frame) (rt : Type_) (method_name : string)
    (arg_exprs : list sexp) (actuals : list (option Value)) :
  evaluate_args (evaluate_expression fuel) st self env arg_exprs []
  = Ok (st1, env1, inr actuals) ->
  execute_statement (S fuel) st self env rt
    (Lst (Tok CALL_DEF :: Tok ME_DEF :: Tok method_name :: arg_exprs))
  = let! '(st2, r) := call_method fuel st1 self method_name actuals false in
    Ok (st2, env1, r).
Proof.
  intros Hargs.
  change (execute_statement (S fuel) st self env rt
            (Lst (Tok CALL_DEF :: Tok ME_DEF :: Tok method_name :: arg_exprs)))
    with (execute_call_aux (evaluate_expression fuel) (call_method fuel) st self
            env (Tok CALL_DEF :: Tok ME_DEF :: Tok method_name :: arg_exprs)).
  unfold execute_call_aux. cbn [idx lookup list_lookup bind].
  change (String.eqb ME_DEF ME_DEF) with true. cbn iota.
  cbn [bind drop]. rewrite drop_0, Hargs. reflexivity.
Qed.

(** a block stops at the statement that raises *)
Lemma execute_block_stops_at_exception (fuel : nat) (st st1 : Interpreter)
    (self : ObjRef) (env env1 : list frame) (rt : Type_) (statement : sexp)
    (rest : list sexp) (last : status * option Value) (thrown : option Value) :
  execute_statement fuel st self env rt statement
  = Ok (st1, env1, (STATUS_EXCEPTION, thrown)) ->
  execute_block (execute_statement fuel) st self env rt (statement :: rest) last
  = Ok (st1, env1, (STATUS_EXCEPTION, thrown)).
Proof. intros H. cbn [execute_block]. now rewrite H. Qed.

(** C4: a [try] whose protected block does not end with the status
    EXCEPTION ends as that block does.  When the protected block ends with
    EXCEPTION, the catch block runs in the scopes the protected block left
    with one more frame, in which the exception variable is bound to what
    was thrown; that frame is popped afterwards, so that the [try] hands
    back as many frames as it was given, and the [try] ends with the status
    and value of the catch block, whatever they are.  An exception
    leaves a method call as an exception of the call, ends a call statement
    with the status EXCEPTION, and stops the block in which the call
    statement stands. *)
Theorem try_runs_catch_block_on_exception :
  forall (fuel : nat) (st st1 : Interpreter) (self : ObjRef)
         (env env1 : list frame) (rt : Type_) (try_block catch_block : sexp)
         (s : status) (v : option Value),
    execute_statement fuel st self env rt try_block = Ok (st1, env1, (s, v)) ->
    (s <> STATUS_EXCEPTION ->
     execute_statement (S fuel) st self env rt
       (Lst [Tok TRY_DEF; try_block; catch_block])
     = Ok (st1, env1, (s, v)))
    /\ (s = STATUS_EXCEPTION ->
        EnvironmentManager.get
          ({[EXCEPTION_VARIABLE_DEF :=
               Some (mkVariableDef (mkType STRING_DEF) EXCEPTION_VARIABLE_DEF v)]}
           :: env1) EXCEPTION_VARIABLE_DEF
        = Some (mkVariableDef (mkType STRING_DEF) EXCEPTION_VARIABLE_DEF v)
        /\ execute_statement (S fuel) st self env rt
             (Lst [Tok TRY_DEF; try_block; catch_block])
           = (let! '(st2, env2, r) :=
                execute_statement fuel st1 self
                  ({[EXCEPTION_VARIABLE_DEF :=
                       Some (mkVariableDef (mkType STRING_DEF)
                                           EXCEPTION_VARIABLE_DEF v)]}
                   :: env1) rt catch_block in
              Ok (st2, tail env2, r))
        /\ forall (st2 : Interpreter) (env2 : list frame)
                  (r : status * option Value),
             execute_statement fuel st1 self
               ({[EXCEPTION_VARIABLE_DEF :=
                    Some (mkVariableDef (mkType STRING_DEF)
                                        EXCEPTION_VARIABLE_DEF v)]}
                :: env1) rt catch_block
             = Ok (st2, env2, r) ->
             length env2 = S (length env) /\ length (tail env2) = length env)
    /\ (forall (n : nat) (s0 s' : Interpreter) (caller o : ObjRef)
               (method_name : string) (actual_params : list (option Value))
               (super_only : bool) (l : ObjectDef) (m : MethodDef)
               (scope scope' : list frame) (thrown : option Value),
          dispatch s0 caller method_name actual_params super_only = Ok (Some o) ->
          get_level s0 o = Ok l ->
          methods l !! method_name = Some m ->
          bind_params EnvironmentManager.new (formal_params m) actual_params
          = Ok (Some scope) ->
          execute_statement n s0 o scope (return_type m) (code m)
          = Ok (s', scope', (STATUS_EXCEPTION, thrown)) ->
          call_method (S n) s0 caller method_name actual_params super_only
          = Ok (s', (STATUS_EXCEPTION, thrown)))
    /\ (forall (n : nat) (s0 s1 s2 : Interpreter) (caller : ObjRef)
               (scope scope1 : list frame) (t : Type_) (method_name : string)
               (arg_exprs rest : list sexp) (actuals : list (option Value))
               (last : status * option Value) (thrown : option Value),
          evaluate_args (evaluate_expression n) s0 caller scope arg_exprs []
          = Ok (s1, scope1, inr actuals) ->
          call_method n s1 caller method_name actuals false
          = Ok (s2, (STATUS_EXCEPTION, thrown)) ->
          execute_statement (S n) s0 caller scope t
            (Lst (Tok CALL_DEF :: Tok ME_DEF :: Tok method_name :: arg_exprs))
          = Ok (s2, scope1, (STATUS_EXCEPTION, thrown))
          /\ execute_block (execute_statement (S n)) s0 caller scope t
               (Lst (Tok CALL_DEF :: Tok ME_DEF :: Tok method_name :: arg_exprs)
                :: rest) last
             = Ok (s2, scope1, (STATUS_EXCEPTION, thrown))).
Proof.
  intros fuel st st1 self env env1 rt try_block catch_block s v Htry.
  split; [| split; [| split]].
  - intros Hs. rewrite execute_try_unfold. unfold execute_try.
    cbn [idx lookup list_lookup bind]. rewrite Htry. cbn [bind fst].
    now destruct s.
  - intros ->.
    assert (Hkept : length env1 = length env).
    { pose proof (proj1 (evaluator_keeps_frames fuel) st self env rt try_block)
        as Hk.
      rewrite Htry in Hk. exact Hk. }
    assert (Hcatch : forall (st2 : Interpreter) (env2 : list frame)
                            (r : status * option Value),
               execute_statement fuel st1 self
                 ({[EXCEPTION_VARIABLE_DEF :=
                      Some (mkVariableDef (mkType STRING_DEF)
                                          EXCEPTION_VARIABLE_DEF v)]}
                  :: env1) rt catch_block
               = Ok (st2, env2, r) ->
               length env2 = S (length env)).
    { intros st2 env2 r Hc.
      pose proof (proj1 (evaluator_keeps_frames fuel) st1 self
                    ({[EXCEPTION_VARIABLE_DEF :=
                         Some (mkVariableDef (mkType STRING_DEF)
                                             EXCEPTION_VARIABLE_DEF v)]}
                     :: env1) rt catch_block) as Hk.
      rewrite Hc in Hk. unfold holds, frames in Hk. cbn [fst snd length] in Hk.
      lia. }
    split; [| split].
    + cbn [EnvironmentManager.get]. now rewrite lookup_singleton_eq.
    + rewrite execute_try_unfold. unfold execute_try.
      cbn [idx lookup list_lookup bind]. rewrite Htry.
      cbn [bind fst snd status_eqb].
      pose proof (catch_scope env1 v) as Hscope.
      destruct (EnvironmentManager.create_new_symbol
                  (EnvironmentManager.block_nest env1) EXCEPTION_VARIABLE_DEF)
        as [[fresh scope] | | |]; cbn [bind] in Hscope |- *; try discriminate.
      injection Hscope as ->.
      destruct (execute_statement fuel st1 self _ rt catch_block)
        as [[[st2 env2] r] | | |] eqn:Hc; try reflexivity.
      cbn [bind]. specialize (Hcatch st2 env2 r eq_refl).
      destruct env2 as [| f env2]; [discriminate | reflexivity].
    + intros st2 env2 r Hc. specialize (Hcatch st2 env2 r Hc).
      split; [exact Hcatch |].
      destruct env2 as [| f env2]; [discriminate |].
      cbn [tail length] in *. lia.
  - intros n s0 s' caller o method_name actual_params super_only l m
           scope scope' thrown Hd Hl Hm Hb Hbody.
    rewrite (call_method_runs_dispatched n s0 caller o method_name actual_params
               super_only l m Hd Hl Hm).
    now rewrite (invoke_result n s0 s' o m actual_params scope scope' _ _ Hb Hbody).
  - intros n s0 s1 s2 caller scope scope1 t method_name arg_exprs rest actuals
           last thrown Hargs Hcall.
    assert (Hstmt : execute_statement (S n) s0 caller scope t
                      (Lst (Tok CALL_DEF :: Tok ME_DEF :: Tok method_name
                            :: arg_exprs))
                    = Ok (s2, scope1, (STATUS_EXCEPTION, thrown))).
    { rewrite (execute_call_on_me n s0 s1 caller scope scope1 t method_name
                 arg_exprs actuals Hargs).
      now rewrite Hcall. }
    split; [exact Hstmt |].
    exact (execute_block_stops_at_exception _ _ _ _ _ _ _ _ _ _ _ Hstmt).
Qed.

End Try.

(** ** The entry point *)

Section Entry.
Context {ext : External}.

Lemma instantiate_known_class (fuel : nat) (st : Interpreter)
    (class_name : string) (cls : ClassDef) :
  class_index st !! class_name = Some (Some cls) ->
  instantiate fuel st class_name
  = Ok (set_heap st (heap st ++ [ObjectDef_init cls]), mkRef (length (heap st)) 0).
Proof. intros H. unfold instantiate. rewrite H. cbn [bind]. now rewrite H. Qed.

Lemma instantiate_without_entry_class (fuel : nat) (st : Interpreter) :
  class_index st !! MAIN_CLASS_DEF = None ->
  template_class_index st !! MAIN_CLASS_DEF = None ->
  instantiate fuel st MAIN_CLASS_DEF = Error TYPE_ERROR.
Proof.
  intros Hc Ht. unfold instantiate. rewrite Hc.
  change (split TYPE_CONCAT_CHAR MAIN_CLASS_DEF) with [MAIN_CLASS_DEF].
  cbn iota. now rewrite Ht.
Qed.

(** C6, as amended: once the classes of the program are registered, the run
    makes an instance of the entry class and calls its entry method with no
    arguments; whatever the call returns is dropped and the run ends with
    the session the call left.  When neither a class nor a blueprint has the
    name of the entry class the run aborts with a type error; when no level
    of the entry object has an entry method without parameters it aborts
    with a name error. *)
Theorem run_starts_at_entry_method :
  forall (fuel : nat) (parsed_program : list sexp) (inp : list string)
         (st0 st : Interpreter),
    add_all_class_types_to_type_manager (initial inp) parsed_program = Ok st0 ->
    map_class_names_to_class_defs (S fuel) st0 parsed_program = Ok st ->
    (class_index st !! MAIN_CLASS_DEF = None ->
     template_class_index st !! MAIN_CLASS_DEF = None ->
     run (S fuel) parsed_program inp = Error TYPE_ERROR)
    /\ (forall cls : ClassDef,
          class_index st !! MAIN_CLASS_DEF = Some (Some cls) ->
          (forall (st2 : Interpreter) (r : status * option Value),
              call_method (S fuel)
                (set_heap st (heap st ++ [ObjectDef_init cls]))
                (mkRef (length (heap st)) 0) MAIN_FUNC_DEF [] false
              = Ok (st2, r) ->
              run (S fuel) parsed_program inp = Ok st2)
          /\ ((forall (i : nat) (l : ObjectDef),
                  ObjectDef_init cls !! i = Some l ->
                  method_matches (set_heap st (heap st ++ [ObjectDef_init cls]))
                                 l MAIN_FUNC_DEF [] = false) ->
              run (S fuel) parsed_program inp = Error NAME_ERROR)).
Proof.
  intros fuel parsed_program inp st0 st Hadd Hmap.
  split.
  - intros Hc Ht. unfold run. rewrite Hadd. cbn [bind]. rewrite Hmap. cbn [bind].
    now rewrite (instantiate_without_entry_class _ _ Hc Ht).
  - intros cls Hcls.
    assert (Hrun : run (S fuel) parsed_program inp
                   = let! '(st2, _) :=
                       call_method (S fuel)
                         (set_heap st (heap st ++ [ObjectDef_init cls]))
                         (mkRef (length (heap st)) 0) MAIN_FUNC_DEF [] false in
                     Ok st2).
    { unfold run. rewrite Hadd. cbn [bind]. rewrite Hmap. cbn [bind].
      now rewrite (instantiate_known_class _ _ _ _ Hcls). }
    split.
    + intros st2 r Hcall. rewrite Hrun, Hcall. reflexivity.
    + intros Hnone. rewrite Hrun.
      cbn [call_method]. unfold call_method_body, dispatch.
      unfold get_obj_with_method at 1. cbn [ref_inst ref_depth set_heap heap].
      rewrite lookup_app_r by lia. rewrite Nat.sub_diag.
      cbn [lookup list_lookup drop].
      change (@nil (option Value)) with (map Some (@nil Value)).
      now rewrite (scan_finds_none _ _ _ _ _ 0 Hnone).
Qed.

End Entry.

(** ** Blueprints that refer to their own instantiation *)

Section Generics.
Context {ext : External}.

Lemma ends_weaken {A : Type} (P Q : Interpreter -> Prop)
    (r : result (Interpreter * A)) :
  (forall st, P st -> Q st) -> ends P r -> ends Q r.
Proof. intros H. destruct r as [[st a] | | |]; cbn; auto. Qed.

Lemma ends_not_out_of_fuel {A : Type} (P : Interpreter -> Prop)
    (r : result (Interpreter * A)) :
  ends P r -> r <> OutOfFuel.
Proof. intros H ->. exact H. Qed.

Lemma forallb_drop {A : Type} (f : A -> bool) (n : nat) (l : list A) :
  forallb f l = true -> forallb f (drop n l) = true.
Proof.
  revert n. induction l as [| x l IH]; intros [| n] H; try exact H.
  cbn [forallb] in H. apply andb_prop in H. apply IH, H.
Qed.

Lemma idx_as_tok_ends (l : list sexp) (i : nat) :
  (idx l i >>= as_tok) <> OutOfFuel.
Proof. unfold idx. destruct (l !! i) as [[? | ?] |]; discriminate. Qed.

Section Walk.

(** the constructor the walk over the members calls for a nested
    instantiation, the name of the class being built, and a property of the
    session that resolving a type name of the body keeps *)
Variable rec : Interpreter -> list sexp -> result (Interpreter * ClassDef).
Variable nm : string.
Variable P : Interpreter -> Prop.
Hypothesis resolve_ends :
  forall (st : Interpreter) (tn : string),
    P st -> own_or_plain nm tn = true ->
    ends_session P (resolve_compound_type rec st tn).

Lemma create_variable_def_from_field_ends (st : Interpreter)
    (field_def : list sexp) :
  P st ->
  member_refers_only_to nm (Lst (Tok FIELD_DEF :: drop 1 field_def)) = true ->
  ends P (create_variable_def_from_field rec st field_def).
Proof.
  intros HP Hm. unfold create_variable_def_from_field.
  destruct field_def as [| kw [| [ty | ?] rest]]; try exact I.
  cbn [idx lookup list_lookup bind as_tok].
  cbn in Hm.
  pose proof (resolve_ends st ty HP Hm) as Hr.
  destruct (resolve_compound_type rec st ty) as [st' | | |]; try exact Hr; try exact I.
  cbn [bind ends_session] in Hr |- *.
  destruct (idx (kw :: Tok ty :: rest) 2 >>= as_tok) as [n | | |] eqn:En;
    try exact I.
  - cbn [bind].
    destruct (length (kw :: Tok ty :: rest) <? 4)%nat.
    + cbn [bind]. destruct (create_default_value (mkType ty)) as [val |];
        [| exact Hr].
      destruct (negb (check_type_compatibility st' (mkType ty) (v_type val) true));
        [exact I | exact Hr].
    + destruct (idx (kw :: Tok ty :: rest) 3 >>= as_tok) as [tok | | |] eqn:Et;
        try exact I.
      * cbn [bind]. destruct (create_value tok) as [val |]; [| exact Hr].
        destruct (negb (check_type_compatibility st' (mkType ty) (v_type val) true));
          [exact I | exact Hr].
      * exact (idx_as_tok_ends _ _ Et).
  - exact (idx_as_tok_ends _ _ En).
Qed.

Lemma member_is_true (keyword : string) (member : sexp) :
  member_is keyword member = Ok true ->
  exists rest : list sexp, member = Lst (Tok keyword :: rest).
Proof.
  destruct member as [[| ? ?] | [| [h | ?] rest]]; try discriminate.
  cbn [member_is]. intros H. injection H as H.
  apply String.eqb_eq in H. subst h. now exists rest.
Qed.

Lemma member_is_ends (keyword : string) (member : sexp) :
  member_is keyword member <> OutOfFuel.
Proof. destruct member as [[| ? ?] | [| [h | ?] rest]]; discriminate. Qed.

Lemma create_field_list_ends (class_body : list sexp) :
  forallb (member_refers_only_to nm) class_body = true ->
  forall (st : Interpreter) (fs : list VariableDef) (defined : gset string),
    P st -> ends P (create_field_list rec st class_body fs defined).
Proof.
  induction class_body as [| member rest IH]; intros Hall st fs defined HP;
    [exact HP |].
  cbn [forallb] in Hall. apply andb_prop in Hall. destruct Hall as [Hm Hrest].
  cbn [create_field_list].
  destruct (member_is FIELD_DEF member) as [[|] | | |] eqn:Eis; try exact I.
  - destruct (member_is_true _ _ Eis) as [body ->].
    cbn [bind as_list].
    destruct (idx (Tok FIELD_DEF :: body) 2 >>= as_tok) as [n | | |] eqn:En;
      try exact I.
    + cbn [bind]. destruct (bool_decide (n ∈ defined)); [exact I |].
      pose proof (create_variable_def_from_field_ends st (Tok FIELD_DEF :: body)
                    HP Hm) as Hf.
      destruct (create_variable_def_from_field rec st (Tok FIELD_DEF :: body))
        as [[st' var_def] | | |]; try exact Hf; try exact I.
      cbn [bind]. apply (IH Hrest). exact Hf.
    + exact (idx_as_tok_ends _ _ En).
  - cbn [bind]. apply (IH Hrest). exact HP.
  - exfalso. exact (member_is_ends _ _ Eis).
Qed.

Lemma check_param_types_ends (params : list VariableDef) :
  forallb (fun p => own_or_plain nm (type_name (var_type p))) params = true ->
  forall st : Interpreter,
    P st -> ends_session P (check_param_types rec st params).
Proof.
  induction params as [| param rest IH]; intros Hall st HP; [exact HP |].
  cbn [forallb] in Hall. apply andb_prop in Hall. destruct Hall as [Hp Hrest].
  cbn [check_param_types].
  pose proof (resolve_ends st _ HP Hp) as Hr.
  destruct (resolve_compound_type rec st (type_name (var_type param)))
    as [st' | | |]; try exact Hr; try exact I.
  cbn [bind].
  destruct (negb (is_valid_type st' (type_name (var_type param)))); [exact I |].
  apply (IH Hrest). exact Hr.
Qed.

Lemma check_method_names_and_types_ends (st : Interpreter) (md : MethodDef) :
  P st ->
  own_or_plain nm (type_name (return_type md)) = true ->
  forallb (fun p => own_or_plain nm (type_name (var_type p))) (formal_params md)
  = true ->
  ends_session P (check_method_names_and_types rec st md).
Proof.
  intros HP Hrt Hps. unfold check_method_names_and_types.
  pose proof (resolve_ends st _ HP Hrt) as Hr.
  destruct (resolve_compound_type rec st (type_name (return_type md)))
    as [st' | | |]; try exact Hr; try exact I.
  cbn [bind].
  destruct (negb (is_valid_type st' (type_name (return_type md)))
            && negb (Type_eqb (return_type md) (mkType NOTHING_DEF)));
    [exact I |].
  apply (check_param_types_ends _ Hps). exact Hr.
Qed.

Lemma parse_params_ends (params : sexp) : parse_params params <> OutOfFuel.
Proof.
  destruct params as [[| ? ?] | l]; try discriminate.
  cbn [parse_params]. induction l as [| [? | p] l IH]; try discriminate.
  cbn [parse_params_list as_list bind]. unfold idx.
  destruct (p !! 0) as [[? | ?] |]; try discriminate. cbn [bind as_tok].
  destruct (p !! 1) as [[? | ?] |]; try discriminate. cbn [bind as_tok].
  destruct (parse_params_list l); try discriminate. now exfalso.
Qed.

Lemma MethodDef_init_ends (method_source : list sexp) :
  MethodDef_init method_source <> OutOfFuel.
Proof.
  unfold MethodDef_init, idx.
  destruct (method_source !! 2) as [[? | ?] |]; try discriminate.
  cbn [bind as_tok].
  destruct (method_source !! 1) as [[? | ?] |]; try discriminate.
  cbn [bind as_tok].
  destruct (method_source !! 3) as [ps |]; try discriminate.
  cbn [bind].
  pose proof (parse_params_ends ps) as Hps.
  destruct (parse_params ps); try discriminate; [| now exfalso].
  cbn [bind]. destruct (method_source !! 4); discriminate.
Qed.

Lemma create_method_list_ends (class_body : list sexp) :
  forallb (member_refers_only_to nm) class_body = true ->
  forall (st : Interpreter) (ms : list MethodDef) (defined : gset string),
    P st -> ends P (create_method_list rec st class_body ms defined).
Proof.
  induction class_body as [| member rest IH]; intros Hall st ms defined HP;
    [exact HP |].
  cbn [forallb] in Hall. apply andb_prop in Hall. destruct Hall as [Hm Hrest].
  cbn [create_method_list].
  destruct (member_is METHOD_DEF member) as [[|] | | |] eqn:Eis; try exact I.
  - destruct (member_is_true _ _ Eis) as [body ->].
    cbn [bind as_list].
    cbn [member_refers_only_to] in Hm.
    change (String.eqb METHOD_DEF FIELD_DEF) with false in Hm.
    change (String.eqb METHOD_DEF METHOD_DEF) with true in Hm.
    cbn iota in Hm.
    pose proof (MethodDef_init_ends (Tok METHOD_DEF :: body)) as Hinit.
    destruct (MethodDef_init (Tok METHOD_DEF :: body)) as [md | | |];
      try exact I; [| now exfalso].
    cbn [bind].
    destruct (bool_decide (method_name md ∈ defined)); [exact I |].
    apply andb_prop in Hm. destruct Hm as [Hrt Hps].
    pose proof (check_method_names_and_types_ends st md HP Hrt Hps) as Hc.
    destruct (check_method_names_and_types rec st md) as [st' | | |];
      try exact Hc; try exact I.
    cbn [bind]. apply (IH Hrest). exact Hc.
  - cbn [bind]. apply (IH Hrest). exact HP.
  - exfalso. exact (member_is_ends _ _ Eis).
Qed.

Lemma ClassDef_body_ends (st : Interpreter) (class_source : list sexp) :
  P st ->
  refers_only_to_itself nm class_source = true ->
  ends P (ClassDef_body rec st class_source).
Proof.
  intros HP Hself. unfold ClassDef_body.
  destruct (idx class_source 1 >>= as_tok) as [n | | |] eqn:En; try exact I;
    [| exact (idx_as_tok_ends _ _ En)].
  cbn [bind].
  assert (Hsup : check_for_inheritance_and_set_superclass_info st class_source
                 <> OutOfFuel).
  { unfold check_for_inheritance_and_set_superclass_info, idx.
    destruct (class_source !! 2) as [[w | ?] |]; try discriminate.
    cbn [bind]. destruct (String.eqb w INHERITS_DEF); [| discriminate].
    destruct (class_source !! 3) as [[sup | ?] |]; try discriminate.
    cbn [bind as_tok]. unfold get_class_def.
    destruct (class_index st !! sup); discriminate. }
  destruct (check_for_inheritance_and_set_superclass_info st class_source)
    as [[super_class start] | | |]; try exact I; [| now exfalso].
  cbn [bind].
  pose proof (create_field_list_ends (drop start class_source)
                (forallb_drop _ _ _ Hself) st [] ∅ HP) as Hf.
  destruct (create_field_list rec st (drop start class_source) [] ∅)
    as [[st1 fs] | | |]; try exact Hf; try exact I.
  cbn [bind].
  pose proof (create_method_list_ends (drop start class_source)
                (forallb_drop _ _ _ Hself) st1 [] ∅ Hf) as Hm.
  destruct (create_method_list rec st1 (drop start class_source) [] ∅)
    as [[st2 ms] | | |]; try exact Hm; exact I.
Qed.

End Walk.

Section SelfReference.

(** the blueprint [t], registered under [base]; the class [nm] is its
    instantiation at the types [actual :: actuals], [class_source] the
    declaration [instantiate_class] builds for it *)
Variable t : TemplateClassDef.
Variables base actual nm : string.
Variable actuals : list string.
Variable class_source : list sexp.
Hypothesis nm_parts : split TYPE_CONCAT_CHAR nm = base :: actual :: actuals.
Hypothesis nm_source : instantiate_source t (actual :: actuals) = Ok class_source.
Hypothesis nm_only : refers_only_to_itself nm class_source = true.

#[local] Abbreviation knows_blueprint := (knows_blueprint t base).
#[local] Abbreviation has_name := (has_name nm).

(** when the name is in the class index, as a placeholder or with its class,
    resolving a type name of the body instantiates nothing *)
Lemma resolve_under_placeholder
    (rec : Interpreter -> list sexp -> result (Interpreter * ClassDef))
    (st : Interpreter) (tn : string) :
  knows_blueprint st /\ has_name st ->
  own_or_plain nm tn = true ->
  resolve_compound_type rec st tn = Ok st.
Proof.
  intros [Hb [c Hc]] Hown. unfold resolve_compound_type.
  unfold own_or_plain in Hown. apply orb_prop in Hown.
  destruct Hown as [Heq | Hplain].
  - apply String.eqb_eq in Heq. subst tn.
    rewrite nm_parts. unfold knows_blueprint in Hb. now rewrite Hb, Hc.
  - now destruct (split TYPE_CONCAT_CHAR tn) as [| ? [| ? ?]].
Qed.

(** so the construction of the class under its own placeholder calls for no
    nested construction: any fuel will do *)
Lemma construction_under_placeholder (fuel : nat) (st : Interpreter) :
  knows_blueprint st -> has_name st ->
  ends knows_blueprint (ClassDef_init (S fuel) st class_source).
Proof.
  intros Hb Hn. cbn [ClassDef_init].
  apply (ends_weaken (fun st => knows_blueprint st /\ has_name st));
    [now intros ? [? ?] |].
  apply (ClassDef_body_ends (ClassDef_init fuel) nm); [| now split | exact nm_only].
  intros st' tn HP Hown.
  now rewrite (resolve_under_placeholder _ st' tn HP Hown).
Qed.

Lemma instantiate_under_placeholder (fuel : nat) (st : Interpreter) :
  knows_blueprint st -> has_name st ->
  ends knows_blueprint (instantiate_class (S fuel) st t (actual :: actuals)).
Proof.
  intros Hb Hn. unfold instantiate_class, instantiate_class_with.
  destruct (negb (length (templated_types t) =? length (actual :: actuals))%nat);
    [exact I |].
  rewrite nm_source. cbn [bind].
  exact (construction_under_placeholder fuel st Hb Hn).
Qed.

(** the first reference to the name registers the placeholder and builds the
    class under it *)
Lemma resolve_own_name_first (fuel : nat) (st : Interpreter) :
  knows_blueprint st ->
  class_index st !! nm = None ->
  resolve_compound_type (ClassDef_init fuel) st nm
  = let! '(st2, c) :=
      instantiate_class fuel (add_class_type (set_class_index st nm None) nm None)
                        t (actual :: actuals) in
    Ok (set_class_index st2 nm (Some c)).
Proof.
  intros Hb Hc. unfold resolve_compound_type. rewrite nm_parts.
  unfold knows_blueprint in Hb. now rewrite Hb, Hc.
Qed.

Lemma placeholder_registered (st : Interpreter) :
  class_index (add_class_type (set_class_index st nm None) nm None) !! nm
  = Some None.
Proof. cbn [add_class_type set_class_index class_index]. apply lookup_insert_eq. Qed.

Lemma resolve_with_fuel (fuel : nat) (st : Interpreter) (tn : string) :
  knows_blueprint st ->
  own_or_plain nm tn = true ->
  ends_session knows_blueprint
    (resolve_compound_type (ClassDef_init (S fuel)) st tn).
Proof.
  intros Hb Hown.
  destruct (class_index st !! nm) as [c |] eqn:Hc.
  - rewrite (resolve_under_placeholder _ st tn); [exact Hb | | exact Hown].
    split; [exact Hb | now exists c].
  - unfold own_or_plain in Hown. apply orb_prop in Hown.
    destruct Hown as [Heq | Hplain].
    + apply String.eqb_eq in Heq. subst tn.
      rewrite (resolve_own_name_first (S fuel) st Hb Hc).
      pose proof (instantiate_under_placeholder fuel
                    (add_class_type (set_class_index st nm None) nm None) Hb)
        as Hin.
      specialize (Hin ltac:(unfold has_name; rewrite placeholder_registered; eauto)).
      destruct (instantiate_class (S fuel)
                  (add_class_type (set_class_index st nm None) nm None)
                  t (actual :: actuals)) as [[st2 c] | | |];
        try exact Hin; exact I.
    + unfold resolve_compound_type.
      now destruct (split TYPE_CONCAT_CHAR tn) as [| ? [| ? ?]].
Qed.

Lemma construction_with_fuel (fuel : nat) (st : Interpreter) :
  knows_blueprint st ->
  ends knows_blueprint (ClassDef_init (S (S fuel)) st class_source).
Proof.
  intros Hb.
  change (ClassDef_init (S (S fuel)) st class_source)
    with (ClassDef_body (ClassDef_init (S fuel)) st class_source).
  apply (ClassDef_body_ends (ClassDef_init (S fuel)) nm);
    [| exact Hb | exact nm_only].
  intros st' tn HP Hown. exact (resolve_with_fuel fuel st' tn HP Hown).
Qed.

Lemma instantiate_class_with_fuel (fuel : nat) (st : Interpreter) :
  knows_blueprint st ->
  ends knows_blueprint (instantiate_class (S (S fuel)) st t (actual :: actuals)).
Proof.
  intros Hb. unfold instantiate_class, instantiate_class_with.
  destruct (negb (length (templated_types t) =? length (actual :: actuals))%nat);
    [exact I |].
  rewrite nm_source. cbn [bind].
  exact (construction_with_fuel fuel st Hb).
Qed.

Lemma instantiate_with_fuel (fuel : nat) (st : Interpreter) :
  knows_blueprint st ->
  instantiate (S (S fuel)) st nm <> OutOfFuel.
Proof.
  intros Hb. unfold instantiate.
  destruct (class_index st !! nm) as [c |] eqn:Hc.
  - cbn [bind]. rewrite Hc. destruct c; discriminate.
  - rewrite nm_parts. unfold knows_blueprint in Hb. rewrite Hb.
    destruct (existsb _ (actual :: actuals)); [discriminate |].
    pose proof (instantiate_class_with_fuel fuel (add_class_type st nm None) Hb)
      as Hin.
    destruct (instantiate_class (S (S fuel)) (add_class_type st nm None) t
                (actual :: actuals)) as [[st2 c] | | |];
      try discriminate; [| now exfalso].
    cbn [bind set_class_index class_index]. rewrite lookup_insert_eq.
    discriminate.
Qed.

End SelfReference.

(** *** The blueprint behind such a declaration *)

Section Strings.

Lemma split_cons_plain (a : ascii) (s : string) :
  Ascii.eqb a TYPE_CONCAT_CHAR = false ->
  split TYPE_CONCAT_CHAR (String a s)
  = match split TYPE_CONCAT_CHAR s with
    | [] => [String a EmptyString]
    | h :: t => String a h :: t
    end.
Proof. intros H. cbn [split]. now rewrite H. Qed.

Lemma split_plain (s : string) :
  has_sep s = false -> split TYPE_CONCAT_CHAR s = [s].
Proof.
  induction s as [| a s IH]; [reflexivity |].
  cbn [has_sep]. intros H. apply orb_false_elim in H. destruct H as [Ha Hs].
  rewrite (split_cons_plain a s Ha), (IH Hs). reflexivity.
Qed.

Lemma split_app_sep (p r : string) :
  has_sep p = false ->
  split TYPE_CONCAT_CHAR (String.append p (String TYPE_CONCAT_CHAR r))
  = p :: split TYPE_CONCAT_CHAR r.
Proof.
  induction p as [| a p IH]; intros H.
  - reflexivity.
  - cbn [has_sep] in H. apply orb_false_elim in H. destruct H as [Ha Hp].
    change (String.append (String a p) (String TYPE_CONCAT_CHAR r))
      with (String a (String.append p (String TYPE_CONCAT_CHAR r))).
    rewrite (split_cons_plain a _ Ha), (IH Hp). reflexivity.
Qed.

Lemma split_join (p : string) (parts : list string) :
  forallb (fun s => negb (has_sep s)) (p :: parts) = true ->
  split TYPE_CONCAT_CHAR (join TYPE_CONCAT_CHAR (p :: parts)) = p :: parts.
Proof.
  revert p. induction parts as [| q parts IH]; intros p H.
  - cbn [forallb] in H. rewrite andb_true_r in H.
    apply negb_true_iff in H. exact (split_plain p H).
  - cbn [forallb] in H. apply andb_prop in H. destruct H as [Hp Hrest].
    apply negb_true_iff in Hp.
    change (join TYPE_CONCAT_CHAR (p :: q :: parts))
      with (String.append p (String TYPE_CONCAT_CHAR
                               (join TYPE_CONCAT_CHAR (q :: parts)))).
    rewrite (split_app_sep p _ Hp). f_equal. apply IH. exact Hrest.
Qed.

End Strings.

Section Blueprint.

(** the dictionary of a blueprint with distinct parameters sends each
    parameter to the actual type at its place and nothing else anywhere *)
Lemma zip_template_distinct (params : list string) :
  forall (actuals : list string) (m0 : gmap string string),
    NoDup params ->
    length params = length actuals ->
    (forall x, x ∈ params -> m0 !! x = None) ->
    exists m : gmap string string,
      zip_template (map Tok params) actuals m0 = Ok m
      /\ (forall x, x ∉ params -> m !! x = m0 !! x)
      /\ map (fun p => default p (m !! p)) params = actuals
      /\ (forall x a, m !! x = Some a -> m0 !! x = Some a \/ a ∈ actuals).
Proof.
  induction params as [| T params IH]; intros [| a actuals] m0 Hnd Hlen Hfresh;
    try discriminate.
  - exists m0. repeat split; auto.
  - apply NoDup_cons in Hnd. destruct Hnd as [HT Hnd].
    cbn [length] in Hlen. injection Hlen as Hlen.
    destruct (IH actuals (<[T := a]> m0) Hnd Hlen)
      as (m & Hzip & Hout & Hmap & Hval).
    { intros x Hx. rewrite lookup_insert_ne; [| set_solver].
      apply Hfresh. set_solver. }
    exists m. cbn [map zip_template as_tok bind]. repeat split.
    + exact Hzip.
    + intros x Hx. rewrite Hout by set_solver.
      apply lookup_insert_ne. set_solver.
    + cbn [map]. rewrite Hmap. rewrite (Hout T HT), lookup_insert_eq. reflexivity.
    + intros x b Hb. destruct (Hval x b Hb) as [Hin | Hin];
        [| right; now apply list_elem_of_further].
      destruct (decide (T = x)) as [-> | Hne].
      * rewrite lookup_insert_eq in Hin. injection Hin as <-. set_solver.
      * rewrite lookup_insert_ne in Hin by exact Hne. now left.
Qed.

(** a token of the declaration is no member of the class *)
Lemma replace_token_is_no_member (nm : string) (m : gmap string string)
    (s : string) :
  member_refers_only_to nm (replace m (Tok s)) = true.
Proof.
  cbn [replace]. destruct (m !! s); [reflexivity |].
  now destruct (1 <? _)%nat.
Qed.

Section Instantiation.

(** a blueprint [base] with the distinct parameters [params], none of them
    [base], all free of the separator, and the actual types, as many and
    free of the separator too; [m] is the dictionary of the instantiation *)
Variables base : string.
Variables params actuals : list string.
Variable actual : string.
Variable m : gmap string string.
Hypothesis base_plain : has_sep base = false.
Hypothesis params_plain : forallb (fun s => negb (has_sep s)) params = true.
Hypothesis actuals_plain :
  forallb (fun s => negb (has_sep s)) (actual :: actuals) = true.
Hypothesis base_no_param : base ∉ params.
Hypothesis m_outside : forall x, x ∉ params -> m !! x = None.
Hypothesis m_params :
  map (fun p => default p (m !! p)) params = actual :: actuals.
Hypothesis m_values : forall x a, m !! x = Some a -> a ∈ actual :: actuals.

Lemma actual_plain (a : string) : a ∈ actual :: actuals -> has_sep a = false.
Proof.
  intros Hin. rewrite forallb_forall in actuals_plain.
  apply negb_true_iff, actuals_plain, list_elem_of_In, Hin.
Qed.

(** substitution turns the blueprint's own type into the mangled name of the
    instantiation, and leaves a token free of the separator free of it *)
Lemma replace_token (s : string) :
  negb (has_sep s) || String.eqb s (own_type base params) = true ->
  exists s' : string,
    replace m (Tok s) = Tok s'
    /\ (has_sep s' = false \/ s' = own_type base (actual :: actuals)).
Proof.
  intros Hs. cbn [replace].
  destruct (m !! s) as [a |] eqn:Hm.
  - exists a. split; [reflexivity |]. left. apply actual_plain. eauto.
  - apply orb_prop in Hs. destruct Hs as [Hplain | Hown].
    + apply negb_true_iff in Hplain. rewrite (split_plain s Hplain).
      exists s. split; [reflexivity | now left].
    + apply String.eqb_eq in Hown. subst s.
      assert (Hsplit : split TYPE_CONCAT_CHAR (own_type base params)
                       = base :: params).
      { apply split_join. cbn [forallb]. now rewrite base_plain, params_plain. }
      rewrite Hsplit.
      assert (Hlen : (1 <? length (base :: params))%nat = true).
      { destruct params; [discriminate m_params | reflexivity]. }
      rewrite Hlen. exists (own_type base (actual :: actuals)).
      split; [| now right].
      unfold own_type. do 2 f_equal.
      change (map (fun p => default p (m !! p)) (base :: params))
        with (default base (m !! base) :: map (fun p => default p (m !! p)) params).
      now rewrite m_params, (m_outside base base_no_param).
Qed.

Lemma replace_tokens (c : sexp) :
  tokens_all (fun s => negb (has_sep s)
                       || String.eqb s (own_type base params)) c = true ->
  tokens_all (fun s => negb (has_sep s)
                       || String.eqb s (own_type base (actual :: actuals)))
             (replace m c) = true.
Proof.
  induction c as [s | l IH] using
    (fix ind (P : sexp -> Prop) (Ht : forall s, P (Tok s))
         (Hl : forall l, Forall P l -> P (Lst l)) (c : sexp) {struct c} : P c :=
       match c with
       | Tok s => Ht s
       | Lst l =>
           Hl l ((fix all (l : list sexp) : Forall P l :=
                    match l with
                    | [] => Forall_nil_2 P
                    | x :: r => Forall_cons_2 P x r (ind P Ht Hl x) (all r)
                    end) l)
       end).
  - intros Hs. destruct (replace_token s Hs) as (s' & -> & [Hp | ->]).
    + cbn [tokens_all]. now rewrite Hp.
    + cbn [tokens_all]. rewrite String.eqb_refl. apply orb_true_r.
  - cbn [tokens_all replace]. intros Hall.
    induction IH as [| x l Hx Hrest IHl]; [reflexivity |].
    cbn [forallb map] in *. apply andb_prop in Hall. destruct Hall as [H1 H2].
    rewrite (Hx H1), (IHl H2). reflexivity.
Qed.

#[local] Abbreviation nm' := (own_type base (actual :: actuals)).
#[local] Abbreviation plain_or_own :=
  (fun s => negb (has_sep s) || String.eqb s nm').

Lemma split_own_type :
  split TYPE_CONCAT_CHAR nm' = base :: actual :: actuals.
Proof.
  apply split_join. cbn [forallb] in *. now rewrite base_plain, actuals_plain.
Qed.

Lemma plain_or_own_spec (s : string) :
  plain_or_own s = true -> own_or_plain nm' s = true.
Proof.
  intros H. unfold own_or_plain. apply orb_prop in H. destruct H as [H | H].
  - apply negb_true_iff in H. rewrite (split_plain s H). apply orb_true_r.
  - now rewrite H.
Qed.

Lemma tokens_all_idx (ok : string -> bool) (l : list sexp) (i : nat) (x : sexp) :
  forallb (tokens_all ok) l = true -> idx l i = Ok x -> tokens_all ok x = true.
Proof.
  intros Hall Hx. unfold idx in Hx.
  destruct (l !! i) as [y |] eqn:Hy; [| discriminate].
  injection Hx as ->. rewrite forallb_forall in Hall.
  apply Hall, list_elem_of_In. eapply list_elem_of_lookup_2, Hy.
Qed.

Lemma tokens_all_idx_tok (ok : string -> bool) (l : list sexp) (i : nat)
    (s : string) :
  forallb (tokens_all ok) l = true -> idx l i >>= as_tok = Ok s -> ok s = true.
Proof.
  intros Hall Hs. destruct (idx l i) as [x | | |] eqn:Hx; try discriminate.
  pose proof (tokens_all_idx ok l i x Hall Hx) as Hok.
  destruct x as [s' | l']; [| discriminate]. injection Hs as ->. exact Hok.
Qed.

Lemma parse_params_list_plain_or_own (l : list sexp) :
  forall ps : list VariableDef,
    forallb (tokens_all plain_or_own) l = true ->
    parse_params_list l = Ok ps ->
    forallb (fun p => own_or_plain nm' (type_name (var_type p))) ps = true.
Proof.
  induction l as [| param rest IH]; intros ps Hall Hps.
  - injection Hps as <-. reflexivity.
  - cbn [forallb] in Hall. apply andb_prop in Hall. destruct Hall as [Hp Hrest].
    cbn [parse_params_list] in Hps.
    destruct param as [s | p]; [discriminate |]. cbn [as_list bind] in Hps.
    destruct (idx p 0 >>= as_tok) as [ty | | |] eqn:Hty; try discriminate.
    cbn [bind] in Hps.
    destruct (idx p 1 >>= as_tok) as [n | | |]; try discriminate.
    cbn [bind] in Hps.
    destruct (parse_params_list rest) as [ps' | | |]; try discriminate.
    injection Hps as <-. cbn [forallb var_type type_name].
    rewrite (IH ps' Hrest eq_refl), andb_true_r.
    apply plain_or_own_spec. exact (tokens_all_idx_tok _ p 0 ty Hp Hty).
Qed.

(** a member whose tokens are free of the separator or are the name of the
    instantiation names no instantiated blueprint but that one *)
Lemma member_of_tokens (member : sexp) :
  tokens_all plain_or_own member = true ->
  member_refers_only_to nm' member = true.
Proof.
  intros Hall. destruct member as [s | [| [kw | l] rest]]; try reflexivity.
  cbn [member_refers_only_to].
  destruct (String.eqb kw FIELD_DEF).
  - destruct rest as [| [ty | l] rest]; try reflexivity.
    apply plain_or_own_spec. cbn [tokens_all forallb] in Hall.
    apply andb_prop in Hall. destruct Hall as [_ Hall].
    apply andb_prop in Hall. apply Hall.
  - destruct (String.eqb kw METHOD_DEF); [| reflexivity].
    cbn [tokens_all] in Hall. unfold MethodDef_init.
    destruct (idx (Tok kw :: rest) 2 >>= as_tok) as [n | | |]; try reflexivity.
    cbn [bind].
    destruct (idx (Tok kw :: rest) 1 >>= as_tok) as [rt | | |] eqn:Hrt;
      try reflexivity.
    cbn [bind].
    destruct (idx (Tok kw :: rest) 3 >>= parse_params) as [ps | | |] eqn:Hps;
      try reflexivity.
    cbn [bind].
    destruct (idx (Tok kw :: rest) 4) as [body | | |]; try reflexivity.
    cbn [bind return_type formal_params]. apply andb_true_intro. split.
    + destruct (String.eqb rt VOID_DEF);
        [unfold own_or_plain; apply orb_true_iff; right; reflexivity |].
      cbn [type_name]. apply plain_or_own_spec.
      exact (tokens_all_idx_tok _ _ 1 rt Hall Hrt).
    + destruct (idx (Tok kw :: rest) 3) as [x | | |] eqn:Hx; try discriminate.
      cbn [bind] in Hps. pose proof (tokens_all_idx _ _ 3 x Hall Hx) as Hxs.
      destruct x as [s | l].
      * destruct s; [| discriminate]. injection Hps as <-. reflexivity.
      * exact (parse_params_list_plain_or_own l ps Hxs Hps).
Qed.

Lemma members_of_blueprint (members : list sexp) :
  refers_to_own_type base params members = true ->
  forallb (member_refers_only_to nm') (map (replace m) members) = true.
Proof.
  unfold refers_to_own_type. induction members as [| x members IH];
    [reflexivity |].
  cbn [forallb map]. intros H. apply andb_prop in H. destruct H as [Hx Hrest].
  rewrite (member_of_tokens _ (replace_tokens x Hx)), (IH Hrest). reflexivity.
Qed.

End Instantiation.

(** X7: for a blueprint [base] with distinct type parameters, none of them
    its own name, whose members name, as the only type with type arguments,
    the blueprint's own type, and for as many actual types as it has
    parameters: the mangled name of the instantiation splits into the base
    and the actual types, the declaration of the instantiation is built, and
    that declaration names no instantiated blueprint but the instantiation
    itself. *)
Lemma declaration_of_blueprint (t : TemplateClassDef) (base actual : string)
    (params actuals : list string) (kw header : sexp) (members : list sexp) :
  t_class_source t = kw :: Tok base :: header :: members ->
  templated_types t = map Tok params ->
  NoDup params -> base ∉ params ->
  length params = length (actual :: actuals) ->
  has_sep base = false ->
  forallb (fun s => negb (has_sep s)) params = true ->
  forallb (fun s => negb (has_sep s)) (actual :: actuals) = true ->
  refers_to_own_type base params members = true ->
  exists class_source : list sexp,
    split TYPE_CONCAT_CHAR (own_type base (actual :: actuals))
    = base :: actual :: actuals
    /\ instantiate_source t (actual :: actuals) = Ok class_source
    /\ refers_only_to_itself (own_type base (actual :: actuals)) class_source
       = true.
Proof.
  intros Hsrc Htypes Hnd Hbase Hlen Hb Hps Has Hown.
  destruct (zip_template_distinct params (actual :: actuals) ∅ Hnd Hlen)
    as (m & Hzip & Hout & Hmap & Hval); [intros; apply lookup_empty |].
  assert (Hout' : forall x, x ∉ params -> m !! x = None).
  { intros x Hx. rewrite (Hout x Hx). apply lookup_empty. }
  assert (Hval' : forall x a, m !! x = Some a -> a ∈ actual :: actuals).
  { intros x a Hx. destruct (Hval x a Hx) as [He | Hin]; [| exact Hin].
    rewrite lookup_empty in He. discriminate. }
  eexists. split; [| split].
  - exact (split_own_type base actuals actual Hb Has).
  - unfold instantiate_source. rewrite Htypes, Hzip, Hsrc. reflexivity.
  - unfold refers_only_to_itself.
    match goal with
    | |- context [delete 2 (<[1 := ?x]> _)] =>
        change (delete 2 (<[1 := x]> (<[0 := Tok CLASS_DEF]>
                                        (kw :: Tok base :: header :: members))))
          with (Tok CLASS_DEF :: x :: members)
    end.
    cbn [map forallb].
    rewrite (members_of_blueprint base params actuals actual m Hb Hps Has Hbase
               Hout' Hmap Hval' members Hown).
    rewrite !replace_token_is_no_member. reflexivity.
Qed.

End Blueprint.

(** C5: let [nm] be the mangled name of the instantiation of the blueprint
    [t] at given types, and let the declaration built for it name no
    instantiated blueprint but [nm] itself in its field, return and
    parameter types.  Then building the class ends with two units of fuel,
    however it is started (by the class constructor, by [instantiate_class]
    or by [new]): the constructions nest at most twice.  The first
    reference to [nm] in the body puts the placeholder for [nm] into the
    class index and only then builds the class again; under the placeholder
    that construction instantiates nothing and ends with one unit of fuel. *)
Theorem self_referential_blueprint_instantiates :
  forall (fuel : nat) (st : Interpreter) (t : TemplateClassDef)
         (base actual nm : string) (actuals : list string)
         (class_source : list sexp),
    template_class_index st !! base = Some t ->
    split TYPE_CONCAT_CHAR nm = base :: actual :: actuals ->
    instantiate_source t (actual :: actuals) = Ok class_source ->
    refers_only_to_itself nm class_source = true ->
    ClassDef_init (S (S fuel)) st class_source <> OutOfFuel
    /\ instantiate_class (S (S fuel)) st t (actual :: actuals) <> OutOfFuel
    /\ instantiate (S (S fuel)) st nm <> OutOfFuel
    /\ (class_index st !! nm = None ->
        resolve_compound_type (ClassDef_init (S fuel)) st nm
        = (let! '(st2, c) :=
             instantiate_class (S fuel)
               (add_class_type (set_class_index st nm None) nm None)
               t (actual :: actuals) in
           Ok (set_class_index st2 nm (Some c)))
        /\ class_index (add_class_type (set_class_index st nm None) nm None) !! nm
           = Some None
        /\ instantiate_class (S fuel)
             (add_class_type (set_class_index st nm None) nm None)
             t (actual :: actuals) <> OutOfFuel).
Proof.
  intros fuel st t base actual nm actuals class_source Hb Hparts Hsrc Honly.
  split; [| split; [| split]].
  - exact (ends_not_out_of_fuel _ _
             (construction_with_fuel t base actual nm actuals class_source
                Hparts Hsrc Honly fuel st Hb)).
  - exact (ends_not_out_of_fuel _ _
             (instantiate_class_with_fuel t base actual nm actuals class_source
                Hparts Hsrc Honly fuel st Hb)).
  - exact (instantiate_with_fuel t base actual nm actuals class_source
             Hparts Hsrc Honly fuel st Hb).
  - intros Hc. split; [| split].
    + exact (resolve_own_name_first t base actual nm actuals Hparts (S fuel) st
               Hb Hc).
    + apply placeholder_registered.
    + apply (ends_not_out_of_fuel (knows_blueprint t base)).
      apply (instantiate_under_placeholder t base actual nm actuals class_source
               Hparts Hsrc Honly fuel); [exact Hb |].
      unfold has_name. rewrite placeholder_registered. eauto.
Qed.

End Generics.

(** * Further properties of the code *)

(** ** The scope manager *)

Section Scopes.

Lemma get_set_other (env : list frame) (symbol other : string)
    (value : VariableDef) :
  other <> symbol ->
  EnvironmentManager.get (snd (EnvironmentManager.set env symbol value)) other
  = EnvironmentManager.get env other.
Proof.
  intros Hne. induction env as [| f env IH]; [reflexivity |].
  cbn [EnvironmentManager.set]. destruct (f !! symbol) as [old |] eqn:Hf.
  - cbn [snd EnvironmentManager.get]. now rewrite lookup_insert_ne.
  - destruct (EnvironmentManager.set env symbol value) as [b env'].
    cbn [snd EnvironmentManager.get] in *. now rewrite IH.
Qed.

Lemma get_set_found (env : list frame) (symbol : string) (value : VariableDef) :
  fst (EnvironmentManager.set env symbol value) = true ->
  EnvironmentManager.get (snd (EnvironmentManager.set env symbol value)) symbol
  = Some value.
Proof.
  induction env as [| f env IH]; [discriminate |].
  cbn [EnvironmentManager.set]. destruct (f !! symbol) as [old |] eqn:Hf.
  - intros _. cbn [snd EnvironmentManager.get]. now rewrite lookup_insert_eq.
  - destruct (EnvironmentManager.set env symbol value) as [b env'].
    cbn [fst snd EnvironmentManager.get] in *. now rewrite Hf.
Qed.

Lemma set_not_found (env : list frame) (symbol : string) (value : VariableDef) :
  fst (EnvironmentManager.set env symbol value) = false ->
  snd (EnvironmentManager.set env symbol value) = env
  /\ EnvironmentManager.get env symbol = None.
Proof.
  induction env as [| f env IH]; [now split |].
  cbn [EnvironmentManager.set]. destruct (f !! symbol) as [old |] eqn:Hf;
    [discriminate |].
  destruct (EnvironmentManager.set env symbol value) as [b env'].
  cbn [fst snd EnvironmentManager.get] in *. intros Hb.
  destruct (IH Hb) as [-> Hget]. now rewrite Hf.
Qed.

(** X1: [set] rebinds the symbol in the innermost frame that has it: when
    it reports success the symbol reads back as the new value; when it
    reports failure no frame has the symbol, and the scopes are as they
    were.  Either way every other symbol reads as before and no frame is
    added or dropped. *)
Theorem set_rebinds_innermost_binding :
  forall (env : list frame) (symbol : string) (value : VariableDef),
    (fst (EnvironmentManager.set env symbol value) = true ->
     EnvironmentManager.get (snd (EnvironmentManager.set env symbol value)) symbol
     = Some value)
    /\ (fst (EnvironmentManager.set env symbol value) = false ->
        snd (EnvironmentManager.set env symbol value) = env
        /\ EnvironmentManager.get env symbol = None)
    /\ (forall other : string,
           other <> symbol ->
           EnvironmentManager.get
             (snd (EnvironmentManager.set env symbol value)) other
           = EnvironmentManager.get env other)
    /\ length (snd (EnvironmentManager.set env symbol value)) = length env.
Proof.
  intros env symbol value. split; [apply get_set_found |].
  split; [apply set_not_found |]. split.
  - intros other Hne. now apply get_set_other.
  - apply set_keeps_frames.
Qed.

(** X2: a symbol that the innermost frame does not have is declared there,
    and after the [set] that follows it reads back as the value given; every
    other symbol reads as before, and a second declaration of the symbol in
    the same frame is refused and changes nothing. *)
Theorem declared_symbol_reads_back :
  forall (env env1 : list frame) (symbol : string) (value : VariableDef),
    EnvironmentManager.create_new_symbol env symbol = Ok (true, env1) ->
    exists env2 : list frame,
      EnvironmentManager.set env1 symbol value = (true, env2)
      /\ EnvironmentManager.get env2 symbol = Some value
      /\ (forall other : string,
             other <> symbol ->
             EnvironmentManager.get env2 other = EnvironmentManager.get env other)
      /\ EnvironmentManager.create_new_symbol env2 symbol = Ok (false, env2).
Proof.
  intros env env1 symbol value Hnew.
  destruct env as [| f outer]; [discriminate |].
  cbn [EnvironmentManager.create_new_symbol] in Hnew.
  destruct (f !! symbol) eqn:Hf; [discriminate |].
  injection Hnew as <-.
  exists (<[symbol := Some value]> (<[symbol := None]> f) :: outer).
  cbn [EnvironmentManager.set EnvironmentManager.get
       EnvironmentManager.create_new_symbol].
  rewrite !lookup_insert_eq. repeat split.
  intros other Hne. now rewrite !lookup_insert_ne.
Qed.

(** X3: a block that is entered may declare any symbol, also one that an
    enclosing block has; inside the block the symbol reads as the inner
    value, and leaving the block gives back the scopes exactly as they were
    when it was entered. *)
Theorem nested_block_shadows_and_restores :
  forall (env : list frame) (symbol : string) (value : VariableDef),
    exists inner : list frame,
      (let! '(fresh, scope) :=
         EnvironmentManager.create_new_symbol
           (EnvironmentManager.block_nest env) symbol in
       Ok (fresh, EnvironmentManager.set scope symbol value))
      = Ok (true, (true, inner))
      /\ EnvironmentManager.get inner symbol = Some value
      /\ EnvironmentManager.block_unnest inner = Ok env.
Proof.
  intros env symbol value.
  exists (<[symbol := Some value]> (<[symbol := None]> ∅) :: env).
  cbn [EnvironmentManager.block_nest EnvironmentManager.create_new_symbol].
  rewrite lookup_empty.
  cbn [bind EnvironmentManager.set EnvironmentManager.get
       EnvironmentManager.block_unnest].
  now rewrite !lookup_insert_eq.
Qed.

End Scopes.

(** ** The members of a class *)

Section Members.
Context {ext : External}.

Lemma member_name_of (keyword : string) (member : sexp) (m : list sexp)
    (nm : string) :
  member_is keyword member = Ok true ->
  as_list member = Ok m ->
  idx m 2 >>= as_tok = Ok nm ->
  member_name keyword member = Some nm.
Proof.
  intros His Hm Hnm. destruct member as [s | l]; [discriminate |].
  injection Hm as ->.
  destruct m as [| [h | ?] [| x [| [n | ?] rest]]]; try discriminate.
  cbn [member_is] in His. injection His as His.
  cbn in Hnm. injection Hnm as ->.
  cbn [member_name]. now rewrite His.
Qed.

Lemma member_name_none (keyword : string) (member : sexp) :
  member_is keyword member = Ok false -> member_name keyword member = None.
Proof.
  destruct member as [[| ? ?] | [| [h | ?] rest]]; try discriminate;
    try reflexivity.
  cbn [member_is]. intros H. injection H as H.
  cbn [member_name]. destruct rest as [| x [| [n | ?] rest]]; try reflexivity.
  now rewrite H.
Qed.

Lemma create_variable_def_from_field_name
    (rec : Interpreter -> list sexp -> result (Interpreter * ClassDef))
    (st st' : Interpreter) (field_def : list sexp) (var_def : VariableDef) :
  create_variable_def_from_field rec st field_def = Ok (st', var_def) ->
  idx field_def 2 >>= as_tok = Ok (var_name var_def).
Proof.
  unfold create_variable_def_from_field.
  destruct (idx field_def 1 >>= as_tok) as [ty | | |]; try discriminate.
  cbn [bind].
  destruct (resolve_compound_type rec st ty) as [st1 | | |]; try discriminate.
  cbn [bind].
  destruct (idx field_def 2 >>= as_tok) as [nm | | |]; try discriminate.
  cbn [bind].
  destruct (if (length field_def <? 4)%nat
            then Ok (create_default_value (mkType ty))
            else let! tok := idx field_def 3 >>= as_tok in Ok (create_value tok))
    as [v | | |]; try discriminate.
  cbn [bind]. destruct v as [val |].
  - destruct (negb (check_type_compatibility st1 (mkType ty) (v_type val) true));
      [discriminate |].
    intros H. now injection H as _ <-.
  - intros H. now injection H as _ <-.
Qed.

Lemma MethodDef_init_name (method_source : list sexp) (method_def : MethodDef) :
  MethodDef_init method_source = Ok method_def ->
  idx method_source 2 >>= as_tok = Ok (method_name method_def).
Proof.
  unfold MethodDef_init.
  destruct (idx method_source 2 >>= as_tok) as [nm | | |]; try discriminate.
  cbn [bind].
  destruct (idx method_source 1 >>= as_tok) as [rt | | |]; try discriminate.
  cbn [bind].
  destruct (idx method_source 3 >>= parse_params) as [ps | | |]; try discriminate.
  cbn [bind].
  destruct (idx method_source 4) as [body | | |]; try discriminate.
  cbn [bind]. intros H. now injection H as <-.
Qed.

Section Lists.

Variable rec : Interpreter -> list sexp -> result (Interpreter * ClassDef).

(** the loop over the fields keeps the names it has seen apart *)
Lemma create_field_list_names (class_body : list sexp) :
  forall (st st' : Interpreter) (fs fs' : list VariableDef) (defined : gset string),
    create_field_list rec st class_body fs defined = Ok (st', fs') ->
    (forall k : string, k ∈ defined <-> k ∈ map var_name fs) ->
    NoDup (map var_name fs) ->
    map var_name fs' = (map var_name fs ++ declared FIELD_DEF class_body)%list
    /\ NoDup (map var_name fs').
Proof.
  induction class_body as [| member rest IH];
    intros st st' fs fs' defined Hrun Hdef Hnd.
  - injection Hrun as _ <-. cbn [declared]. now rewrite app_nil_r.
  - cbn [create_field_list] in Hrun.
    destruct (member_is FIELD_DEF member) as [[|] | | |] eqn:His;
      try discriminate; cbn [bind] in Hrun.
    + destruct (as_list member) as [m | | |] eqn:Hm; try discriminate.
      cbn [bind] in Hrun.
      destruct (idx m 2 >>= as_tok) as [nm | | |] eqn:Hnm; try discriminate.
      cbn [bind] in Hrun.
      destruct (bool_decide (nm ∈ defined)) eqn:Hin; [discriminate |].
      apply bool_decide_eq_false_1 in Hin.
      destruct (create_variable_def_from_field rec st m)
        as [[st1 var_def] | | |] eqn:Hvd; try discriminate.
      cbn [bind] in Hrun.
      pose proof (create_variable_def_from_field_name _ _ _ _ _ Hvd) as Hname.
      rewrite Hnm in Hname. injection Hname as Hname.
      destruct (IH _ _ _ _ _ Hrun) as [Hnames Hnd'].
      * intros k. rewrite map_app, elem_of_union, elem_of_singleton,
          elem_of_app, Hdef. cbn [map]. rewrite list_elem_of_singleton, <- Hname.
        tauto.
      * rewrite map_app. cbn [map]. rewrite <- Hname.
        apply NoDup_app. split; [exact Hnd |]. split.
        -- intros k Hk Hk'. apply list_elem_of_singleton in Hk'. subst k.
           apply Hin, Hdef, Hk.
        -- apply NoDup_singleton.
      * split; [| exact Hnd'].
        rewrite Hnames, map_app. cbn [map declared].
        rewrite (member_name_of _ _ _ _ His Hm Hnm), <- Hname.
        now rewrite <- app_assoc.
    + destruct (IH _ _ _ _ _ Hrun Hdef Hnd) as [Hnames Hnd'].
      split; [| exact Hnd'].
      cbn [declared]. now rewrite (member_name_none _ _ His).
Qed.

(** the loop over the methods keeps the names it has seen apart *)
Lemma create_method_list_names (class_body : list sexp) :
  forall (st st' : Interpreter) (ms ms' : list MethodDef) (defined : gset string),
    create_method_list rec st class_body ms defined = Ok (st', ms') ->
    (forall k : string, k ∈ defined <-> k ∈ map method_name ms) ->
    NoDup (map method_name ms) ->
    map method_name ms' = (map method_name ms ++ declared METHOD_DEF class_body)%list
    /\ NoDup (map method_name ms').
Proof.
  induction class_body as [| member rest IH];
    intros st st' ms ms' defined Hrun Hdef Hnd.
  - injection Hrun as _ <-. cbn [declared]. now rewrite app_nil_r.
  - cbn [create_method_list] in Hrun.
    destruct (member_is METHOD_DEF member) as [[|] | | |] eqn:His;
      try discriminate; cbn [bind] in Hrun.
    + destruct (as_list member) as [m | | |] eqn:Hm; try discriminate.
      cbn [bind] in Hrun.
      destruct (MethodDef_init m) as [md | | |] eqn:Hmd; try discriminate.
      cbn [bind] in Hrun.
      destruct (bool_decide (method_name md ∈ defined)) eqn:Hin; [discriminate |].
      apply bool_decide_eq_false_1 in Hin.
      destruct (check_method_names_and_types rec st md) as [st1 | | |];
        try discriminate.
      cbn [bind] in Hrun.
      pose proof (MethodDef_init_name _ _ Hmd) as Hname.
      destruct (IH _ _ _ _ _ Hrun) as [Hnames Hnd'].
      * intros k. rewrite map_app, elem_of_union, elem_of_singleton,
          elem_of_app, Hdef. cbn [map]. rewrite list_elem_of_singleton.
        tauto.
      * rewrite map_app. cbn [map].
        apply NoDup_app. split; [exact Hnd |]. split.
        -- intros k Hk Hk'. apply list_elem_of_singleton in Hk'. subst k.
           apply Hin, Hdef, Hk.
        -- apply NoDup_singleton.
      * split; [| exact Hnd'].
        rewrite Hnames, map_app. cbn [map declared].
        rewrite (member_name_of _ _ _ _ His Hm Hname).
        now rewrite <- app_assoc.
    + destruct (IH _ _ _ _ _ Hrun Hdef Hnd) as [Hnames Hnd'].
      split; [| exact Hnd'].
      cbn [declared]. now rewrite (member_name_none _ _ His).
Qed.

(** the members start after the name, or after the name of the superclass;
    the two tokens of an inheritance clause declare nothing *)
Lemma declared_from_start (st : Interpreter) (class_source : list sexp)
    (super_class : option ClassDef) (start : nat) (keyword : string) :
  check_for_inheritance_and_set_superclass_info st class_source
  = Ok (super_class, start) ->
  declared keyword (drop start class_source)
  = declared keyword (drop 2 class_source).
Proof.
  unfold check_for_inheritance_and_set_superclass_info, idx.
  destruct (class_source !! 2) as [c2 |] eqn:H2; [| discriminate].
  cbn [bind]. destruct c2 as [w | l].
  - destruct (String.eqb w INHERITS_DEF).
    + destruct (class_source !! 3) as [c3 |] eqn:H3; [| discriminate].
      cbn [bind]. destruct c3 as [sup | l]; [| discriminate].
      cbn [as_tok bind]. destruct (get_class_def st sup); try discriminate.
      cbn [bind]. intros H. injection H as _ <-.
      rewrite (drop_S _ _ _ H2), (drop_S _ _ _ H3). reflexivity.
    + intros H. now injection H as _ <-.
  - intros H. now injection H as _ <-.
Qed.

Lemma ClassDef_body_members (st st' : Interpreter) (class_source : list sexp)
    (c : ClassDef) :
  ClassDef_body rec st class_source = Ok (st', c) ->
  idx class_source 1 >>= as_tok = Ok (get_name c)
  /\ map var_name (get_fields c) = declared FIELD_DEF (drop 2 class_source)
  /\ map method_name (get_methods c) = declared METHOD_DEF (drop 2 class_source)
  /\ NoDup (map var_name (get_fields c))
  /\ NoDup (map method_name (get_methods c)).
Proof.
  unfold ClassDef_body.
  destruct (idx class_source 1 >>= as_tok) as [nm | | |]; try discriminate.
  cbn [bind].
  destruct (check_for_inheritance_and_set_superclass_info st class_source)
    as [[super_class start] | | |] eqn:Hsup; try discriminate.
  cbn [bind].
  destruct (create_field_list rec st (drop start class_source) [] ∅)
    as [[st1 fs] | | |] eqn:Hfs; try discriminate.
  cbn [bind].
  destruct (create_method_list rec st1 (drop start class_source) [] ∅)
    as [[st2 ms] | | |] eqn:Hms; try discriminate.
  cbn [bind]. intros H. injection H as _ <-.
  cbn [get_name get_fields get_methods].
  destruct (create_field_list_names _ _ _ _ _ _ Hfs) as [Hf Hfnd];
    [intros k; cbn [map]; set_solver | apply NoDup_nil_2 |].
  destruct (create_method_list_names _ _ _ _ _ _ Hms) as [Hm Hmnd];
    [intros k; cbn [map]; set_solver | apply NoDup_nil_2 |].
  cbn [map app] in Hf, Hm.
  rewrite (declared_from_start _ _ _ _ _ Hsup) in Hf.
  rewrite (declared_from_start _ _ _ _ _ Hsup) in Hm.
  repeat split; assumption.
Qed.

End Lists.

Lemma class_members_names (fuel : nat) (st st' : Interpreter)
    (class_source : list sexp) (c : ClassDef) :
  ClassDef_init fuel st class_source = Ok (st', c) ->
  idx class_source 1 >>= as_tok = Ok (get_name c)
  /\ map var_name (get_fields c) = declared FIELD_DEF (drop 2 class_source)
  /\ map method_name (get_methods c) = declared METHOD_DEF (drop 2 class_source)
  /\ NoDup (map var_name (get_fields c))
  /\ NoDup (map method_name (get_methods c)).
Proof.
  destruct fuel as [| fuel]; [discriminate |].
  exact (ClassDef_body_members _ _ _ _ _).
Qed.

(** X4: a class that is built has the name its declaration gives it and,
    in the order of the declaration, the fields and the methods declared
    there; no two of its fields and no two of its methods share a name (a
    declaration that repeats one is refused). *)
Theorem class_members_are_distinct :
  forall (fuel : nat) (st st' : Interpreter) (class_source : list sexp)
         (c : ClassDef),
    ClassDef_init fuel st class_source = Ok (st', c) ->
    idx class_source 1 >>= as_tok = Ok (get_name c)
    /\ map var_name (get_fields c) = declared FIELD_DEF (drop 2 class_source)
    /\ map method_name (get_methods c) = declared METHOD_DEF (drop 2 class_source)
    /\ NoDup (map var_name (get_fields c))
    /\ NoDup (map method_name (get_methods c)).
Proof.
  exact class_members_names.
Qed.

(** a table filled from a list by name has, under each name of the list,
    the last element of that name, and nothing under any other name *)
Lemma table_lookup {A : Type} (key : A -> string) (l : list A) :
  forall m0 : gmap string A,
    NoDup (map key l) ->
    (forall x : A, x ∈ l ->
       foldl (fun m x => <[key x := x]> m) m0 l !! key x = Some x)
    /\ (forall k : string, k ∉ map key l ->
          foldl (fun m x => <[key x := x]> m) m0 l !! k = m0 !! k).
Proof.
  induction l as [| y l IH]; intros m0 Hnd.
  - split; [intros x Hx; inversion Hx | reflexivity].
  - cbn [map] in Hnd. apply NoDup_cons in Hnd. destruct Hnd as [Hy Hnd].
    cbn [foldl]. destruct (IH (<[key y := y]> m0) Hnd) as [Hin Hout].
    split.
    + intros x Hx. apply elem_of_cons in Hx. destruct Hx as [-> | Hx].
      * rewrite (Hout _ Hy). apply lookup_insert_eq.
      * exact (Hin x Hx).
    + intros k Hk. cbn [map] in Hk. apply not_elem_of_cons in Hk.
      destruct Hk as [Hne Hk]. rewrite (Hout k Hk).
      now apply lookup_insert_ne.
Qed.

(** X5: an object made from a class that was built has, in the level of
    that class, each declared field under its name, with the type and the
    initial value the class holds for it, each declared method under its
    name, and no field and no method under any other name. *)
Theorem instance_has_the_declared_members :
  forall (fuel : nat) (st st' : Interpreter) (class_source : list sexp)
         (c : ClassDef),
    ClassDef_init fuel st class_source = Ok (st', c) ->
    exists (l : ObjectDef) (supers : list ObjectDef),
      ObjectDef_init c = l :: supers
      /\ class_def l = c
      /\ (forall f : VariableDef,
             f ∈ get_fields c -> fields l !! var_name f = Some f)
      /\ (forall m : MethodDef,
             m ∈ get_methods c -> methods l !! method_name m = Some m)
      /\ (forall k : string,
             k ∉ declared FIELD_DEF (drop 2 class_source) -> fields l !! k = None)
      /\ (forall k : string,
             k ∉ declared METHOD_DEF (drop 2 class_source) -> methods l !! k = None).
Proof.
  intros fuel st st' class_source c Hrun.
  destruct (class_members_names fuel st st' class_source c Hrun)
    as (_ & Hf & Hm & Hfnd & Hmnd).
  destruct (table_lookup var_name (get_fields c) ∅ Hfnd) as [Hfin Hfout].
  destruct (table_lookup method_name (get_methods c) ∅ Hmnd) as [Hmin Hmout].
  exists (mkObjectDef c (instantiate_fields c)
                      (map_method_names_to_method_definitions c)).
  exists (match get_superclass c with
          | None => []
          | Some superclass_def => ObjectDef_init superclass_def
          end).
  split; [now destruct c |]. split; [reflexivity |].
  cbn [fields methods]. unfold instantiate_fields,
    map_method_names_to_method_definitions.
  split; [exact Hfin |]. split; [exact Hmin |]. split.
  - intros k Hk. rewrite <- Hf in Hk. now rewrite (Hfout k Hk).
  - intros k Hk. rewrite <- Hm in Hk. now rewrite (Hmout k Hk).
Qed.

End Members.

(** ** The levels of an instance *)

Section Levels.
Context {ext : External}.

Lemma ObjectDef_init_head (c : ClassDef) :
  ObjectDef_init c
  = mkObjectDef c (instantiate_fields c) (map_method_names_to_method_definitions c)
    :: match get_superclass c with
       | None => []
       | Some superclass_def => ObjectDef_init superclass_def
       end.
Proof. now destruct c. Qed.

Lemma ObjectDef_init_level (d : nat) :
  forall (c : ClassDef) (l : ObjectDef),
    ObjectDef_init c !! d = Some l ->
    l = mkObjectDef (class_def l) (instantiate_fields (class_def l))
                    (map_method_names_to_method_definitions (class_def l))
    /\ drop d (ObjectDef_init c) = ObjectDef_init (class_def l).
Proof.
  induction d as [| d IH]; intros c l Hl; rewrite ObjectDef_init_head in Hl.
  - injection Hl as <-. now split.
  - cbn [lookup list_lookup] in Hl.
    destruct (get_superclass c) as [sc |] eqn:Hsc; [| discriminate].
    rewrite (ObjectDef_init_head c), Hsc. cbn [drop]. exact (IH sc l Hl).
Qed.

(** X6: the levels of a new instance follow the inheritance chain of its
    class: the first level is of the class itself, each level holds the
    fields and the methods of its own class only, the level after a level
    is of the superclass of that level's class, and the last level is of a
    class without superclass. *)
Theorem levels_follow_inheritance :
  forall (c : ClassDef) (d : nat) (l : ObjectDef),
    ObjectDef_init c !! d = Some l ->
    (d = 0 -> class_def l = c)
    /\ fields l = instantiate_fields (class_def l)
    /\ methods l = map_method_names_to_method_definitions (class_def l)
    /\ match get_superclass (class_def l) with
       | None => ObjectDef_init c !! S d = None
       | Some superclass_def =>
           exists l' : ObjectDef,
             ObjectDef_init c !! S d = Some l' /\ class_def l' = superclass_def
       end.
Proof.
  intros c d l Hl. destruct (ObjectDef_init_level d c l Hl) as [Heq Hdrop].
  split; [| split; [| split]].
  - intros ->. rewrite ObjectDef_init_head in Hl. now injection Hl as <-.
  - now rewrite Heq at 1.
  - now rewrite Heq at 1.
  - assert (Hnext : ObjectDef_init c !! S d
                    = ObjectDef_init (class_def l) !! 1).
    { rewrite <- Hdrop, lookup_drop. f_equal. lia. }
    rewrite Hnext, (ObjectDef_init_head (class_def l)).
    cbn [lookup list_lookup].
    destruct (get_superclass (class_def l)) as [sc |]; [| reflexivity].
    rewrite (ObjectDef_init_head sc). cbn [lookup list_lookup]. eauto.
Qed.

End Levels.

(** ** Instantiating a blueprint *)

Section Substitution.
Context {ext : External}.

Lemma split_not_nil (c : ascii) (s : string) : split c s <> [].
Proof.
  destruct s as [| a s]; [discriminate |]. cbn [split].
  destruct (Ascii.eqb a c); [discriminate |].
  now destruct (split c s).
Qed.

(** joining the parts a name splits into gives the name back *)
Lemma join_split (c : ascii) (s : string) : join c (split c s) = s.
Proof.
  induction s as [| a s IH]; [reflexivity |].
  cbn [split]. pose proof (split_not_nil c s) as Hnil.
  destruct (split c s) as [| h t]; [now exfalso |].
  destruct (Ascii.eqb a c) eqn:Hac.
  - apply Ascii.eqb_eq in Hac. subst a.
    change (join c (EmptyString :: h :: t)) with (String c (join c (h :: t))).
    now rewrite IH.
  - destruct t as [| h2 t].
    + cbn [join] in *. now rewrite IH.
    + change (join c (String a h :: h2 :: t))
        with (String a (join c (h :: h2 :: t))).
      now rewrite IH.
Qed.

Lemma map_default_none (m : gmap string string) (parts : list string) :
  forallb (fun p => bool_decide (m !! p = None)) parts = true ->
  map (fun p => default p (m !! p)) parts = parts.
Proof.
  induction parts as [| p parts IH]; [reflexivity |].
  cbn [forallb map]. intros H. apply andb_prop in H. destruct H as [Hp Hrest].
  apply bool_decide_eq_true_1 in Hp. now rewrite Hp, (IH Hrest).
Qed.

(** X8: the substitution of actual types for type parameters changes
    nothing in a tree of which no token is a type parameter or has a type
    parameter among the parts of its mangled name. *)
Theorem replace_leaves_other_tokens :
  forall (template_to_actual : gmap string string) (c : sexp),
    free_of template_to_actual c = true ->
    replace template_to_actual c = c.
Proof.
  intros m c. unfold free_of.
  induction c as [s | l IH] using
    (fix ind (P : sexp -> Prop) (Ht : forall s, P (Tok s))
         (Hl : forall l, Forall P l -> P (Lst l)) (c : sexp) {struct c} : P c :=
       match c with
       | Tok s => Ht s
       | Lst l =>
           Hl l ((fix all (l : list sexp) : Forall P l :=
                    match l with
                    | [] => Forall_nil_2 P
                    | x :: r => Forall_cons_2 P x r (ind P Ht Hl x) (all r)
                    end) l)
       end).
  - cbn [tokens_all replace]. intros H. apply andb_prop in H.
    destruct H as [Hs Hparts]. apply bool_decide_eq_true_1 in Hs. rewrite Hs.
    rewrite (map_default_none _ _ Hparts), join_split.
    now destruct (1 <? _)%nat.
  - cbn [tokens_all replace]. intros Hall. f_equal.
    induction IH as [| x l Hx Hrest IHl]; [reflexivity |].
    cbn [forallb map] in *. apply andb_prop in Hall. destruct Hall as [H1 H2].
    now rewrite (Hx H1), (IHl H2).
Qed.

(** X9: making an object of an instantiation that gives a blueprint a
    number of types other than the number of its type parameters is a type
    error, whatever the types are. *)
Theorem wrong_number_of_type_arguments_is_type_error :
  forall (fuel : nat) (st : Interpreter) (t : TemplateClassDef)
         (class_name base : string) (class_args : list string),
    class_index st !! class_name = None ->
    split TYPE_CONCAT_CHAR class_name = base :: class_args ->
    template_class_index st !! base = Some t ->
    length (templated_types t) <> length class_args ->
    instantiate fuel st class_name = Error TYPE_ERROR.
Proof.
  intros fuel st t class_name base class_args Hc Hparts Ht Hlen.
  unfold instantiate. rewrite Hc, Hparts, Ht.
  destruct (existsb _ class_args); [reflexivity |].
  unfold instantiate_class, instantiate_class_with.
  apply Nat.eqb_neq in Hlen. now rewrite Hlen.
Qed.

End Substitution.

(** ** The level a call runs on *)

Section Calls.
Context {ext : External}.

(** a level the scan returns is a level of the list that has the method,
    with as many formal parameters as there are arguments *)
Lemma scan_returns_a_level (st : Interpreter) (inst : nat) (method_name : string)
    (actual_params : list (option Value)) (levels : list ObjectDef) :
  forall (d : nat) (o : ObjRef),
    get_obj_with_method_from st inst levels d method_name actual_params
    = Ok (Some o) ->
    ref_inst o = inst
    /\ exists (k : nat) (l : ObjectDef) (m : MethodDef),
         ref_depth o = d + k
         /\ levels !! k = Some l
         /\ methods l !! method_name = Some m
         /\ length actual_params = length (formal_params m).
Proof.
  induction levels as [| l0 levels IH]; intros d o Hscan; [discriminate |].
  cbn [get_obj_with_method_from] in Hscan.
  assert (Hnext :
    get_obj_with_method_from st inst levels (S d) method_name actual_params
    = Ok (Some o) ->
    ref_inst o = inst
    /\ exists (k : nat) (l : ObjectDef) (m : MethodDef),
         ref_depth o = d + k
         /\ (l0 :: levels) !! k = Some l
         /\ methods l !! method_name = Some m
         /\ length actual_params = length (formal_params m)).
  { intros H. destruct (IH (S d) o H) as [Hi (k & l & m & Hd & Hk & Hm & Hlen)].
    split; [exact Hi |]. exists (S k), l, m. repeat split; try assumption. lia. }
  destruct (methods l0 !! method_name) as [m0 |] eqn:Hm0; [| exact (Hnext Hscan)].
  destruct (length actual_params =? length (formal_params m0))%nat eqn:Hlen.
  - destruct (compatible_param_types st actual_params (formal_params m0))
      as [[|] | | |]; try discriminate; cbn [bind] in Hscan.
    + injection Hscan as <-. split; [reflexivity |].
      exists 0, l0, m0. apply Nat.eqb_eq in Hlen. cbn [ref_depth].
      repeat split; try assumption. lia.
    + exact (Hnext Hscan).
  - cbn [bind] in Hscan. exact (Hnext Hscan).
Qed.

(** a method found from a level is not missed from a level above it *)
Lemma scan_from_above (st : Interpreter) (inst : nat) (method_name : string)
    (actual_params : list (option Value)) (levels : list ObjectDef) :
  forall (k d : nat) (o : ObjRef),
    get_obj_with_method_from st inst (drop k levels) (d + k) method_name
                             actual_params
    = Ok (Some o) ->
    get_obj_with_method_from st inst levels d method_name actual_params
    <> Ok None.
Proof.
  induction levels as [| l0 levels IH]; intros k d o Hscan.
  - now rewrite drop_nil in Hscan.
  - destruct k as [| k].
    + rewrite drop_0, Nat.add_0_r in Hscan. now rewrite Hscan.
    + cbn [drop] in Hscan. replace (d + S k) with (S d + k) in Hscan by lia.
      specialize (IH k (S d) o Hscan).
      cbn [get_obj_with_method_from].
      destruct (methods l0 !! method_name) as [m0 |]; [| exact IH].
      destruct (if (length actual_params =? length (formal_params m0))%nat
                then compatible_param_types st actual_params (formal_params m0)
                else Ok false) as [[|] | | |]; cbn [bind];
        try discriminate.
      exact IH.
Qed.

(** X10: the choice of the level a call runs on never ends with no level:
    once the receiving level or a base of it is known to have the method,
    the search from the anchor (or, for a call through [super], from the
    receiving level) finds one.  The level chosen is a level of the
    receiving instance (for a call through [super], not above the receiving
    level) that has a method of that name with as many formal parameters as
    there are arguments. *)
Theorem dispatch_chooses_a_level_with_the_method :
  forall (st : Interpreter) (self : ObjRef) (method_name : string)
         (actual_params : list (option Value)) (super_only : bool),
    dispatch st self method_name actual_params super_only <> Ok None
    /\ forall o : ObjRef,
         dispatch st self method_name actual_params super_only = Ok (Some o) ->
         ref_inst o = ref_inst self
         /\ (super_only = true -> ref_depth self <= ref_depth o)
         /\ exists (l : ObjectDef) (m : MethodDef),
              get_level st o = Ok l
              /\ methods l !! method_name = Some m
              /\ length actual_params = length (formal_params m).
Proof.
  intros st self method_name actual_params super_only.
  unfold dispatch, get_obj_with_method.
  destruct (heap st !! ref_inst self) as [levels |] eqn:Hheap;
    [| split; [discriminate | intros o H; discriminate]].
  destruct (get_obj_with_method_from st (ref_inst self)
              (drop (ref_depth self) levels) (ref_depth self) method_name
              actual_params) as [[known |] | | |] eqn:Hknown; cbn [bind];
    try (split; [discriminate | intros o H; discriminate]).
  destruct super_only.
  - rewrite Hheap, Hknown. split; [discriminate |].
    intros o H. injection H as <-.
    destruct (scan_returns_a_level _ _ _ _ _ _ _ Hknown)
      as [Hi (k & l & m & Hd & Hk & Hm & Hlen)].
    rewrite lookup_drop, <- Hd in Hk.
    split; [exact Hi |]. split; [intros _; lia |].
    exists l, m. unfold get_level. rewrite Hi, Hheap, Hk. now repeat split.
  - cbn [anchor_object ref_inst ref_depth]. rewrite Hheap, drop_0. split.
    + apply (scan_from_above st (ref_inst self) method_name actual_params levels
               (ref_depth self) 0 known). exact Hknown.
    + intros o H.
      destruct (scan_returns_a_level _ _ _ _ _ _ _ H)
        as [Hi (k & l & m & Hd & Hk & Hm & Hlen)].
      cbn [Nat.add] in Hd. rewrite <- Hd in Hk.
      split; [exact Hi |]. split; [discriminate |].
      exists l, m. unfold get_level. rewrite Hi, Hheap, Hk. now repeat split.
Qed.

(** X11: a call of a method that neither the receiving level nor a level
    more base than it has with that name, that number of parameters and
    formal types that admit the arguments is a name error, also when a more
    derived level has such a method. *)
Theorem call_of_unknown_method_is_name_error :
  forall (fuel : nat) (st : Interpreter) (self : ObjRef) (method_name : string)
         (args : list Value) (super_only : bool) (levels : list ObjectDef),
    heap st !! ref_inst self = Some levels ->
    (forall (i : nat) (li : ObjectDef),
        ref_depth self <= i -> levels !! i = Some li ->
        method_matches st li method_name args = false) ->
    call_method (S fuel) st self method_name (map Some args) super_only
    = Error NAME_ERROR.
Proof.
  intros fuel st self method_name args super_only levels Hheap Hnone.
  cbn [call_method]. unfold call_method_body, dispatch, get_obj_with_method.
  rewrite Hheap, scan_finds_none; [reflexivity |].
  intros i li Hli. rewrite lookup_drop in Hli.
  apply (Hnone (ref_depth self + i) li); [lia | exact Hli].
Qed.

Lemma bind_params_step (formal : VariableDef) (formals : list VariableDef)
    (a : Value) (args : list Value) (f : frame) :
  f !! var_name formal = None ->
  bind_params [f] (formal :: formals) (map Some (a :: args))
  = bind_params [<[var_name formal := Some (set_value formal a)]>
                   (<[var_name formal := None]> f)]
                formals (map Some args).
Proof.
  intros Hf.
  cbn [map bind_params set_value var_name EnvironmentManager.create_new_symbol].
  rewrite Hf. cbn [bind negb EnvironmentManager.set].
  now rewrite lookup_insert_eq.
Qed.

(** the loop that binds the parameters, from one frame [f] that has none
    of their names: each parameter is bound to its argument *)
Lemma bind_params_distinct (formals : list VariableDef) :
  forall (args : list Value) (f : frame),
    length formals = length args ->
    NoDup (map var_name formals) ->
    (forall x : string, x ∈ map var_name formals -> f !! x = None) ->
    exists f' : frame,
      bind_params [f] formals (map Some args) = Ok (Some [f'])
      /\ (forall (i : nat) (formal : VariableDef) (a : Value),
             formals !! i = Some formal -> args !! i = Some a ->
             f' !! var_name formal = Some (Some (set_value formal a)))
      /\ (forall x : string, x ∉ map var_name formals -> f' !! x = f !! x).
Proof.
  induction formals as [| formal formals IH]; intros [| a args] f Hlen Hnd Hfresh;
    try discriminate.
  - exists f. repeat split. intros i formal a H. discriminate.
  - cbn [map] in Hnd. apply NoDup_cons in Hnd. destruct Hnd as [Hname Hnd].
    injection Hlen as Hlen.
    assert (Hf : f !! var_name formal = None).
    { apply Hfresh. cbn [map]. apply list_elem_of_here. }
    rewrite (bind_params_step _ _ _ _ _ Hf).
    destruct (IH args (<[var_name formal := Some (set_value formal a)]>
                         (<[var_name formal := None]> f)) Hlen Hnd)
      as (f' & Hrun & Hbound & Hother).
    { intros x Hx.
      rewrite !lookup_insert_ne by (intros Heq; apply Hname; now rewrite Heq).
      apply Hfresh. cbn [map]. now apply list_elem_of_further. }
    exists f'. split; [exact Hrun |]. split.
    + intros [| i] formal' a' Hi Ha.
      * injection Hi as <-. injection Ha as <-.
        rewrite (Hother _ Hname). apply lookup_insert_eq.
      * exact (Hbound i formal' a' Hi Ha).
    + intros x Hx. cbn [map] in Hx. apply not_elem_of_cons in Hx.
      destruct Hx as [Hne Hx]. rewrite (Hother x Hx).
      now rewrite !lookup_insert_ne by congruence.
Qed.

(** the loop stops with a name error at a parameter whose name the frame
    has already *)
Lemma bind_params_repeated (formals : list VariableDef) :
  forall (args : list Value) (f : frame),
    length formals = length args ->
    ~ NoDup (map var_name formals)
    \/ (exists x : string, x ∈ map var_name formals /\ is_Some (f !! x)) ->
    bind_params [f] formals (map Some args) = Error NAME_ERROR.
Proof.
  induction formals as [| formal formals IH]; intros [| a args] f Hlen Hbad;
    try discriminate.
  - destruct Hbad as [Hbad | (x & Hx & _)]; [| inversion Hx].
    exfalso. apply Hbad, NoDup_nil_2.
  - injection Hlen as Hlen.
    destruct (f !! var_name formal) as [old |] eqn:Hf.
    { cbn [map bind_params set_value var_name
           EnvironmentManager.create_new_symbol]. now rewrite Hf. }
    rewrite (bind_params_step _ _ _ _ _ Hf).
    apply (IH args _ Hlen).
    destruct (decide (var_name formal ∈ map var_name formals)) as [Hin | Hnin].
    { right. exists (var_name formal). split; [exact Hin |].
      rewrite lookup_insert_eq. eauto. }
    destruct Hbad as [Hbad | (x & Hx & Hsome)].
    + left. intros Hnd. apply Hbad. cbn [map]. now apply NoDup_cons.
    + right. cbn [map] in Hx. apply elem_of_cons in Hx.
      destruct Hx as [-> | Hx].
      * rewrite Hf in Hsome. now destruct Hsome.
      * exists x. split; [exact Hx |].
        rewrite !lookup_insert_ne by (intros Heq; apply Hnin; now rewrite Heq).
        exact Hsome.
Qed.

(** X12: the arguments of a call, as many as the method has formal
    parameters, are bound in one new frame, each under the name of its
    parameter and with the declared type of the parameter, when the names of
    the parameters are distinct; when two parameters share a name the call
    is a name error. *)
Theorem arguments_are_bound_to_distinct_parameters :
  forall (formals : list VariableDef) (args : list Value),
    length formals = length args ->
    (NoDup (map var_name formals) ->
     exists f : frame,
       bind_params EnvironmentManager.new formals (map Some args) = Ok (Some [f])
       /\ (forall (i : nat) (formal : VariableDef) (a : Value),
              formals !! i = Some formal -> args !! i = Some a ->
              EnvironmentManager.get [f] (var_name formal)
              = Some (set_value formal a))
       /\ (forall x : string,
              x ∉ map var_name formals -> EnvironmentManager.get [f] x = None))
    /\ (~ NoDup (map var_name formals) ->
        bind_params EnvironmentManager.new formals (map Some args)
        = Error NAME_ERROR).
Proof.
  intros formals args Hlen. split.
  - intros Hnd.
    destruct (bind_params_distinct formals args ∅ Hlen Hnd)
      as (f & Hrun & Hbound & Hother); [intros; apply lookup_empty |].
    exists f. split; [exact Hrun |]. split.
    + intros i formal a Hf Ha. cbn [EnvironmentManager.get].
      now rewrite (Hbound i formal a Hf Ha).
    + intros x Hx. cbn [EnvironmentManager.get].
      now rewrite (Hother x Hx), lookup_empty.
  - intros Hnd. apply (bind_params_repeated formals args ∅ Hlen). now left.
Qed.

End Calls.

(** ** What a run keeps of the session *)

Section Session.
Context {ext : External}.

(** a property of the session that each single change of the session
    keeps: a line of output, a line of input read, a field rebound to a new
    value, a new instance, a class or a type registered *)
Variable P : Interpreter -> Prop.
Hypothesis P_output :
  forall (st : Interpreter) (line : string), P st -> P (host_output st line).
Hypothesis P_input : forall st : Interpreter, P st -> P (fst (get_input st)).
Hypothesis P_field :
  forall (st : Interpreter) (o : ObjRef) (l : ObjectDef) (k : string)
         (d : VariableDef) (v : Value),
    get_level st o = Ok l -> fields l !! k = Some d ->
    P st -> P (set_field_def st o k (set_value d v)).
Hypothesis P_new :
  forall (st : Interpreter) (c : ClassDef),
    P st -> P (set_heap st (heap st ++ [ObjectDef_init c])).
Hypothesis P_class :
  forall (st : Interpreter) (k : string) (c : option ClassDef),
    P st -> P (set_class_index st k c).
Hypothesis P_type :
  forall (st : Interpreter) (k : string) (sup : option string),
    P st -> P (add_class_type st k sup).

#[local] Abbreviation K1 := (fun x => P (fst x)).
#[local] Abbreviation K2 := (fun x => P (fst (fst x))).

Ltac destruct_pairs :=
  repeat match goal with
         | x : (_ * _)%type |- _ => destruct x
         end;
  cbn [fst snd] in *.

Ltac walk_step :=
  match goal with
  | |- holds _ (Ok _) => cbn [holds fst snd]; solve [eauto]
  | |- holds _ (Error _) => exact I
  | |- holds _ Crash => exact I
  | |- holds _ OutOfFuel => exact I
  | |- holds _ (bind ?m _) =>
      eapply holds_bind;
      [ first [ solve [eauto] | apply holds_any ] | intros; destruct_pairs ]
  | |- holds _ (if ?b then _ else _) => destruct b
  | |- holds _ (match ?x with _ => _ end) => destruct x
  | |- holds _ _ => solve [eauto]
  end.

Ltac walk := repeat walk_step.

Section Construction.

Variable rec : Interpreter -> list sexp -> result (Interpreter * ClassDef).
Hypothesis rec_keeps :
  forall (st : Interpreter) (class_source : list sexp),
    P st -> holds K1 (rec st class_source).

Lemma instantiate_class_with_keeps (st : Interpreter) (t : TemplateClassDef)
    (actual_types : list string) :
  P st -> holds K1 (instantiate_class_with rec st t actual_types).
Proof. intros HP. unfold instantiate_class_with. walk. Qed.

Lemma resolve_compound_type_keeps (st : Interpreter) (tn : string) :
  P st -> holds P (resolve_compound_type rec st tn).
Proof.
  intros HP. unfold resolve_compound_type.
  destruct (split TYPE_CONCAT_CHAR tn) as [| base [| a actual_types]];
    try exact HP.
  destruct (template_class_index st !! base) as [t |]; [| exact I].
  destruct (class_index st !! tn); [exact HP |].
  eapply holds_bind; [apply instantiate_class_with_keeps; eauto |].
  intros [st1 c] H1. cbn. eauto.
Qed.

Lemma create_variable_def_from_field_keeps (st : Interpreter)
    (field_def : list sexp) :
  P st -> holds K1 (create_variable_def_from_field rec st field_def).
Proof.
  intros HP. unfold create_variable_def_from_field.
  eapply holds_bind; [apply holds_any | intros ty _].
  eapply holds_bind; [apply resolve_compound_type_keeps, HP | intros st1 H1].
  walk.
Qed.

Lemma create_field_list_keeps (class_body : list sexp) :
  forall (st : Interpreter) (fs : list VariableDef) (defined : gset string),
    P st -> holds K1 (create_field_list rec st class_body fs defined).
Proof.
  induction class_body as [| member rest IH]; intros st fs defined HP;
    [exact HP |].
  cbn [create_field_list].
  eapply holds_bind; [apply holds_any | intros is_field _].
  destruct is_field; [| now apply IH].
  eapply holds_bind; [apply holds_any | intros m _].
  eapply holds_bind; [apply holds_any | intros nm _].
  destruct (bool_decide (nm ∈ defined)); [exact I |].
  eapply holds_bind; [apply create_variable_def_from_field_keeps, HP |].
  intros [st1 var_def] H1. now apply IH.
Qed.

Lemma check_param_types_keeps (params : list VariableDef) :
  forall st : Interpreter, P st -> holds P (check_param_types rec st params).
Proof.
  induction params as [| param rest IH]; intros st HP; [exact HP |].
  cbn [check_param_types].
  eapply holds_bind; [apply resolve_compound_type_keeps, HP | intros st1 H1].
  destruct (negb (is_valid_type st1 (type_name (var_type param)))); [exact I |].
  now apply IH.
Qed.

Lemma check_method_names_and_types_keeps (st : Interpreter) (md : MethodDef) :
  P st -> holds P (check_method_names_and_types rec st md).
Proof.
  intros HP. unfold check_method_names_and_types.
  eapply holds_bind; [apply resolve_compound_type_keeps, HP | intros st1 H1].
  destruct (_ && _); [exact I |]. now apply check_param_types_keeps.
Qed.

Lemma create_method_list_keeps (class_body : list sexp) :
  forall (st : Interpreter) (ms : list MethodDef) (defined : gset string),
    P st -> holds K1 (create_method_list rec st class_body ms defined).
Proof.
  induction class_body as [| member rest IH]; intros st ms defined HP;
    [exact HP |].
  cbn [create_method_list].
  eapply holds_bind; [apply holds_any | intros is_method _].
  destruct is_method; [| now apply IH].
  eapply holds_bind; [apply holds_any | intros m _].
  eapply holds_bind; [apply holds_any | intros md _].
  destruct (bool_decide (method_name md ∈ defined)); [exact I |].
  eapply holds_bind; [apply check_method_names_and_types_keeps, HP |].
  intros st1 H1. now apply IH.
Qed.

Lemma ClassDef_body_keeps (st : Interpreter) (class_source : list sexp) :
  P st -> holds K1 (ClassDef_body rec st class_source).
Proof.
  intros HP. unfold ClassDef_body.
  eapply holds_bind; [apply holds_any | intros nm _].
  eapply holds_bind; [apply holds_any | intros [super_class start] _].
  eapply holds_bind; [apply create_field_list_keeps, HP | intros [st1 fs] H1].
  eapply holds_bind; [apply create_method_list_keeps, H1 | intros [st2 ms] H2].
  exact H2.
Qed.

End Construction.

Lemma ClassDef_init_keeps (fuel : nat) :
  forall (st : Interpreter) (class_source : list sexp),
    P st -> holds K1 (ClassDef_init fuel st class_source).
Proof.
  induction fuel as [| fuel IH]; intros st class_source HP; [exact I |].
  cbn [ClassDef_init]. now apply ClassDef_body_keeps.
Qed.

Lemma instantiate_class_keeps (fuel : nat) (st : Interpreter)
    (t : TemplateClassDef) (actual_types : list string) :
  P st -> holds K1 (instantiate_class fuel st t actual_types).
Proof.
  intros HP. apply instantiate_class_with_keeps; [| exact HP].
  apply ClassDef_init_keeps.
Qed.

Lemma instantiate_keeps (fuel : nat) (st : Interpreter) (class_name : string) :
  P st -> holds K1 (instantiate fuel st class_name).
Proof.
  intros HP. unfold instantiate.
  eapply holds_bind with (Q' := P).
  - destruct (class_index st !! class_name); [exact HP |].
    destruct (split TYPE_CONCAT_CHAR class_name) as [| base class_args];
      [exact I |].
    destruct (template_class_index st !! base) as [t |]; [| exact I].
    destruct (existsb _ class_args); [exact I |].
    eapply holds_bind; [apply instantiate_class_keeps; eauto |].
    intros [st1 c] H1. cbn. eauto.
  - intros st1 H1. destruct (class_index st1 !! class_name) as [[c |] |];
      try exact I.
    cbn. eauto.
Qed.

Lemma set_field_keeps (st : Interpreter) (self : ObjRef) (k : string)
    (v : Value) :
  P st -> holds (fun r => P (snd r)) (set_field st self k v).
Proof.
  intros HP. unfold set_field.
  destruct (get_level st self) as [l | | |] eqn:Hl; try exact I.
  cbn [bind]. destruct (fields l !! k) as [d |] eqn:Hd; [| exact HP].
  eapply holds_bind; [apply holds_any | intros _ _].
  cbn. eauto.
Qed.

Lemma set_variable_aux_keeps_session (st : Interpreter) (self : ObjRef)
    (env : list frame) (k : string) (v : option Value) :
  P st -> holds K1 (set_variable_aux st self env k v).
Proof.
  intros HP. unfold set_variable_aux. destruct v as [v |]; [| exact HP].
  eapply holds_bind; [apply holds_any | intros [done_local env1] _].
  destruct done_local; [exact HP |].
  eapply holds_bind; [apply set_field_keeps, HP | intros [done_field st1] H1].
  now destruct done_field.
Qed.

Lemma set_target_keeps_session (st : Interpreter) (self : ObjRef)
    (env : list frame) (target : sexp) (v : option Value) :
  P st -> holds K1 (set_target st self env target v).
Proof.
  intros HP. unfold set_target. destruct v as [v |]; [| exact HP].
  eapply holds_bind; [apply holds_any | intros k _].
  now apply set_variable_aux_keeps_session.
Qed.

Section Bodies.

Variable execute_statement_rec :
  Interpreter -> ObjRef -> list frame -> Type_ -> sexp ->
  result (Interpreter * list frame * (status * option Value)).
Variable execute_while_rec :
  Interpreter -> ObjRef -> list frame -> Type_ -> list sexp ->
  result (Interpreter * list frame * (status * option Value)).
Variable evaluate_expression_rec :
  Interpreter -> ObjRef -> list frame -> sexp ->
  result (Interpreter * list frame * (status * option Value)).
Variable call_method_rec :
  Interpreter -> ObjRef -> string -> list (option Value) -> bool ->
  result (Interpreter * (status * option Value)).
Variable instantiate_class_rec :
  Interpreter -> TemplateClassDef -> list string -> result (Interpreter * ClassDef).
Variable instantiate_rec : Interpreter -> string -> result (Interpreter * ObjRef).

Hypothesis statement_keeps :
  forall st self env rt code,
    P st -> holds K2 (execute_statement_rec st self env rt code).
Hypothesis while_keeps :
  forall st self env rt code,
    P st -> holds K2 (execute_while_rec st self env rt code).
Hypothesis expression_keeps :
  forall st self env expr,
    P st -> holds K2 (evaluate_expression_rec st self env expr).
Hypothesis call_keeps :
  forall st self name args super_only,
    P st -> holds K1 (call_method_rec st self name args super_only).
Hypothesis instantiate_class_rec_keeps :
  forall st t actuals, P st -> holds K1 (instantiate_class_rec st t actuals).
Hypothesis instantiate_rec_keeps :
  forall st name, P st -> holds K1 (instantiate_rec st name).

Lemma add_local_to_env_keeps_session (st : Interpreter) (env : list frame)
    (var_def : sexp) :
  P st ->
  holds (fun r => match r with Some x => P (fst x) | None => True end)
        (add_local_to_env instantiate_class_rec st env var_def).
Proof.
  intros HP. unfold add_local_to_env.
  eapply holds_bind; [apply holds_any | intros vd _].
  eapply holds_bind; [apply holds_any | intros ty _].
  eapply holds_bind with (Q' := P).
  - destruct (class_index st !! ty); [exact HP |].
    destruct (split TYPE_CONCAT_CHAR ty) as [| base [| a actual_types]];
      try exact HP.
    destruct (template_class_index st !! base) as [t |]; [| exact I].
    eapply holds_bind; [apply instantiate_class_rec_keeps, HP |].
    intros [st1 c] H1. cbn. eauto.
  - intros st1 H1. walk.
Qed.

Lemma add_locals_list_keeps_session (var_defs : list sexp) :
  forall (st : Interpreter) (env : list frame),
    P st -> holds K1 (add_locals_list instantiate_class_rec st env var_defs).
Proof.
  induction var_defs as [| var_def rest IH]; intros st env HP; [exact HP |].
  cbn [add_locals_list].
  eapply holds_bind; [apply add_local_to_env_keeps_session, HP |].
  intros [[st1 env1] |] H1; [| exact HP]. now apply IH.
Qed.

Lemma add_locals_to_env_keeps_session (st : Interpreter) (env : list frame)
    (var_defs : sexp) :
  P st -> holds K1 (add_locals_to_env instantiate_class_rec st env var_defs).
Proof.
  intros HP. destruct var_defs as [[| ? ?] | l]; try exact I; [exact HP |].
  now apply add_locals_list_keeps_session.
Qed.

Lemma evaluate_args_keeps_session (exprs : list sexp) :
  forall (st : Interpreter) (self : ObjRef) (env : list frame)
         (acc : list (option Value)),
    P st -> holds K2 (evaluate_args evaluate_expression_rec st self env exprs acc).
Proof.
  induction exprs as [| e rest IH]; intros st self env acc HP; [exact HP |].
  cbn [evaluate_args].
  eapply holds_bind; [apply expression_keeps, HP |].
  intros [[st1 env1] [s arg]] H1. cbn [fst] in H1.
  destruct (status_eqb s STATUS_EXCEPTION); [exact H1 |]. now apply IH.
Qed.

Lemma evaluate_receiver_keeps_session (st : Interpreter) (self : ObjRef)
    (env : list frame) (obj_name : sexp) :
  P st -> holds K2 (evaluate_receiver evaluate_expression_rec st self env obj_name).
Proof. intros HP. unfold evaluate_receiver. walk. Qed.

Lemma execute_call_aux_keeps_session (st : Interpreter) (self : ObjRef)
    (env : list frame) (code : list sexp) :
  P st ->
  holds K2 (execute_call_aux evaluate_expression_rec call_method_rec st self env
                             code).
Proof.
  intros HP. unfold execute_call_aux.
  eapply holds_bind; [apply holds_any | intros obj_name _].
  eapply holds_bind with (Q' := K2).
  - destruct obj_name as [w | l];
      [| now apply evaluate_receiver_keeps_session].
    destruct (String.eqb w ME_DEF); [exact HP |].
    destruct (String.eqb w SUPER_DEF);
      [| now apply evaluate_receiver_keeps_session].
    now destruct (super_object st self).
  - intros [[st1 env1] target] H1. cbn [fst] in H1.
    destruct target as [r | [obj super_only]]; [exact H1 |].
    eapply holds_bind; [apply evaluate_args_keeps_session, H1 |].
    intros [[st2 env2] args] H2. cbn [fst] in H2.
    destruct args as [r | actual_args]; [exact H2 |].
    destruct obj; try exact I. walk.
Qed.

Lemma execute_new_aux_keeps_session (st : Interpreter) (code : list sexp) :
  P st -> holds K1 (execute_new_aux instantiate_rec st code).
Proof. intros HP. unfold execute_new_aux. walk. Qed.

Lemma evaluate_token_keeps_session (st : Interpreter) (self : ObjRef)
    (env : list frame) (expr : string) :
  P st -> holds K2 (evaluate_token st self env expr).
Proof. intros HP. unfold evaluate_token. walk. Qed.

Lemma evaluate_operation_keeps_session (st : Interpreter) (self : ObjRef)
    (env : list frame) (operator : string) (expr : list sexp) :
  P st ->
  holds K2 (evaluate_operation evaluate_expression_rec call_method_rec
                               instantiate_rec st self env operator expr).
Proof.
  intros HP. unfold evaluate_operation.
  destruct (bool_decide (operator ∈ binary_op_list)); [walk |].
  destruct (bool_decide (operator ∈ unary_op_list)); [walk |].
  destruct (String.eqb operator CALL_DEF);
    [now apply execute_call_aux_keeps_session |].
  destruct (String.eqb operator NEW_DEF); [| exact HP].
  eapply holds_bind; [apply execute_new_aux_keeps_session, HP |].
  intros [st1 v] H1. exact H1.
Qed.

Lemma evaluate_expression_body_keeps_session (st : Interpreter) (self : ObjRef)
    (env : list frame) (expr : sexp) :
  P st ->
  holds K2 (evaluate_expression_body evaluate_expression_rec call_method_rec
                                     instantiate_rec st self env expr).
Proof.
  intros HP. destruct expr as [t | l];
    [now apply evaluate_token_keeps_session |].
  cbn [evaluate_expression_body].
  eapply holds_bind; [apply holds_any | intros operator _].
  destruct operator; [now apply evaluate_operation_keeps_session | exact HP].
Qed.

Lemma execute_block_keeps_session (statements : list sexp) :
  forall (st : Interpreter) (self : ObjRef) (env : list frame) (rt : Type_)
         (last : status * option Value),
    P st ->
    holds K2 (execute_block execute_statement_rec st self env rt statements last).
Proof.
  induction statements as [| s rest IH]; intros st self env rt last HP;
    [exact HP |].
  cbn [execute_block].
  eapply holds_bind; [apply statement_keeps, HP |].
  intros [[st1 env1] [s1 v1]] H1. cbn [fst] in H1.
  destruct (_ || _); [exact H1 |]. now apply IH.
Qed.

Lemma execute_begin_keeps_session (st : Interpreter) (self : ObjRef)
    (env : list frame) (rt : Type_) (code : list sexp) (has_vardef : bool) :
  P st ->
  holds K2 (execute_begin execute_statement_rec instantiate_class_rec st self env
                          rt code has_vardef).
Proof.
  intros HP. unfold execute_begin.
  destruct has_vardef; [| now apply execute_block_keeps_session].
  eapply holds_bind; [apply holds_any | intros var_defs _].
  eapply holds_bind; [apply add_locals_to_env_keeps_session, HP |].
  intros [st1 env1] H1. cbn [fst] in H1.
  eapply holds_bind; [apply execute_block_keeps_session, H1 |].
  intros [[st2 env2] r] H2. cbn [fst] in H2. walk.
Qed.

Lemma execute_set_keeps_session (st : Interpreter) (self : ObjRef)
    (env : list frame) (code : list sexp) :
  P st -> holds K2 (execute_set evaluate_expression_rec st self env code).
Proof.
  intros HP. unfold execute_set.
  eapply holds_bind; [apply holds_any | intros e _].
  eapply holds_bind; [apply expression_keeps, HP |].
  intros [[st1 env1] [s v]] H1. cbn [fst] in H1.
  destruct (status_eqb s STATUS_EXCEPTION); [exact H1 |].
  eapply holds_bind; [apply holds_any | intros target _].
  eapply holds_bind; [apply set_target_keeps_session, H1 |].
  intros [st2 env2] H2. exact H2.
Qed.

Lemma execute_return_keeps_session (st : Interpreter) (self : ObjRef)
    (env : list frame) (rt : Type_) (code : list sexp) :
  P st -> holds K2 (execute_return evaluate_expression_rec st self env rt code).
Proof. intros HP. unfold execute_return. walk. Qed.

Lemma execute_try_keeps_session (st : Interpreter) (self : ObjRef)
    (env : list frame) (rt : Type_) (code : list sexp) :
  P st -> holds K2 (execute_try execute_statement_rec st self env rt code).
Proof. intros HP. unfold execute_try. walk. Qed.

Lemma execute_throw_keeps_session (st : Interpreter) (self : ObjRef)
    (env : list frame) (code : list sexp) :
  P st -> holds K2 (execute_throw evaluate_expression_rec st self env code).
Proof. intros HP. unfold execute_throw. walk. Qed.

Lemma print_operands_keeps_session (exprs : list sexp) :
  forall (st : Interpreter) (self : ObjRef) (env : list frame) (line : string),
    P st ->
    holds K2 (print_operands evaluate_expression_rec st self env exprs line).
Proof.
  induction exprs as [| e rest IH]; intros st self env line HP; [exact HP |].
  cbn [print_operands].
  eapply holds_bind; [apply expression_keeps, HP |].
  intros [[st1 env1] [s term]] H1. cbn [fst] in H1.
  destruct (status_eqb s STATUS_EXCEPTION); [exact H1 |].
  destruct term as [t |]; [| exact I]. now apply IH.
Qed.

Lemma execute_print_keeps_session (st : Interpreter) (self : ObjRef)
    (env : list frame) (code : list sexp) :
  P st -> holds K2 (execute_print evaluate_expression_rec st self env code).
Proof.
  intros HP. unfold execute_print.
  eapply holds_bind; [apply print_operands_keeps_session, HP |].
  intros [[st1 env1] r] H1. cbn [fst] in H1.
  destruct r; [exact H1 |]. cbn. eauto.
Qed.

Lemma execute_input_keeps_session (st : Interpreter) (self : ObjRef)
    (env : list frame) (code : list sexp) (get_string : bool) :
  P st -> holds K2 (execute_input st self env code get_string).
Proof.
  intros HP. unfold execute_input.
  pose proof (P_input st HP) as H1.
  destruct (get_input st) as [st1 inp]. cbn [fst] in H1.
  eapply holds_bind; [apply holds_any | intros val _].
  eapply holds_bind; [apply holds_any | intros target _].
  eapply holds_bind; [apply set_target_keeps_session, H1 |].
  intros [st2 env2] H2. exact H2.
Qed.

Lemma execute_if_keeps_session (st : Interpreter) (self : ObjRef)
    (env : list frame) (rt : Type_) (code : list sexp) :
  P st ->
  holds K2 (execute_if execute_statement_rec evaluate_expression_rec st self env
                       rt code).
Proof. intros HP. unfold execute_if. walk. Qed.

Lemma execute_while_body_keeps_session (st : Interpreter) (self : ObjRef)
    (env : list frame) (rt : Type_) (code : list sexp) :
  P st ->
  holds K2 (execute_while_body execute_statement_rec execute_while_rec
                               evaluate_expression_rec st self env rt code).
Proof. intros HP. unfold execute_while_body. walk. Qed.

Lemma execute_statement_body_keeps_session (st : Interpreter) (self : ObjRef)
    (env : list frame) (rt : Type_) (code : sexp) :
  P st ->
  holds K2 (execute_statement_body execute_statement_rec execute_while_rec
              evaluate_expression_rec call_method_rec instantiate_class_rec
              st self env rt code).
Proof.
  intros HP. unfold execute_statement_body.
  eapply holds_bind; [apply holds_any | intros l _].
  eapply holds_bind; [apply holds_any | intros tok _].
  repeat match goal with
         | |- holds _ (if ?b then _ else _) => destruct b
         end;
    first [ now apply execute_begin_keeps_session
          | now apply execute_set_keeps_session
          | now apply execute_if_keeps_session
          | now apply execute_call_aux_keeps_session
          | now apply while_keeps
          | now apply execute_return_keeps_session
          | now apply execute_throw_keeps_session
          | now apply execute_try_keeps_session
          | now apply execute_input_keeps_session
          | now apply execute_print_keeps_session
          | exact I ].
Qed.

Lemma call_method_body_keeps_session (st : Interpreter) (self : ObjRef)
    (name : string) (args : list (option Value)) (super_only : bool) :
  P st ->
  holds K1 (call_method_body execute_statement_rec st self name args super_only).
Proof. intros HP. unfold call_method_body. walk. Qed.

End Bodies.

(** a run of a statement, of a loop, of an expression or of a method keeps
    every property that each single change of the session keeps *)
Lemma evaluator_keeps_session (fuel : nat) :
  (forall st self env rt code,
      P st -> holds K2 (execute_statement fuel st self env rt code))
  /\ (forall st self env rt code,
         P st -> holds K2 (execute_while fuel st self env rt code))
  /\ (forall st self env expr,
         P st -> holds K2 (evaluate_expression fuel st self env expr))
  /\ (forall st self name args super_only,
         P st -> holds K1 (call_method fuel st self name args super_only)).
Proof.
  induction fuel as [| n (IHs & IHw & IHe & IHc)]; [now repeat split |].
  repeat split; intros.
  - apply execute_statement_body_keeps_session; try assumption.
    intros. now apply instantiate_class_keeps.
  - apply execute_while_body_keeps_session; assumption.
  - apply evaluate_expression_body_keeps_session; try assumption.
    intros. now apply instantiate_keeps.
  - apply call_method_body_keeps_session; assumption.
Qed.

End Session.

Section Kept.
Context {ext : External}.

#[local] Abbreviation outcome :=
  (Interpreter * list frame * (status * option Value))%type.

Lemma same_shape_refl (l : ObjectDef) : same_shape l l.
Proof.
  repeat split. intros k. destruct (fields l !! k); [now split | exact I].
Qed.

Lemma keeps_objects_refl (st : Interpreter) : keeps_objects st st.
Proof.
  intros i levels Hi. exists levels. split; [exact Hi |].
  apply Forall2_same_length_lookup. split; [reflexivity |].
  intros j x y Hx Hy. rewrite Hx in Hy. injection Hy as <-.
  apply same_shape_refl.
Qed.

(** rebinding a field of a level to a new value keeps the shape *)
Lemma same_shape_set_value (l0 l : ObjectDef) (k : string) (d : VariableDef)
    (v : Value) :
  same_shape l0 l -> fields l !! k = Some d ->
  same_shape l0 (mkObjectDef (class_def l) (<[k := set_value d v]> (fields l))
                             (methods l)).
Proof.
  intros (Hc & Hm & Hf) Hd. split; [exact Hc |]. split; [exact Hm |].
  intros k'. cbn [fields]. destruct (decide (k = k')) as [<- | Hne].
  - rewrite lookup_insert_eq. specialize (Hf k). rewrite Hd in Hf.
    destruct (fields l0 !! k) as [d0 |]; [| exact Hf].
    destruct Hf as [Ht Hn]. now split.
  - rewrite lookup_insert_ne by exact Hne. exact (Hf k').
Qed.

Lemma keeps_objects_set_field_def (st0 st : Interpreter) (o : ObjRef)
    (l : ObjectDef) (k : string) (d : VariableDef) (v : Value) :
  get_level st o = Ok l -> fields l !! k = Some d ->
  keeps_objects st0 st ->
  keeps_objects st0 (set_field_def st o k (set_value d v)).
Proof.
  intros Hl Hd Hkeep i levels0 Hi.
  destruct (Hkeep i levels0 Hi) as (levels & Hlev & Hall).
  unfold set_field_def. cbn [set_heap heap].
  destruct (decide (ref_inst o = i)) as [<- | Hne].
  - rewrite list_lookup_alter_eq, Hlev. cbn [fmap option_fmap option_map].
    eexists. split; [reflexivity |].
    apply Forall2_same_length_lookup. split.
    + rewrite length_alter. exact (Forall2_length _ _ _ Hall).
    + intros j x y Hx Hy.
      destruct (Forall2_lookup_l _ _ _ _ _ Hall Hx) as (y0 & Hy0 & Hshape).
      destruct (decide (ref_depth o = j)) as [<- | Hj].
      * rewrite list_lookup_alter_eq, Hy0 in Hy.
        cbn [fmap option_fmap option_map] in Hy. injection Hy as <-.
        unfold get_level in Hl. rewrite Hlev, Hy0 in Hl. injection Hl as ->.
        now apply same_shape_set_value.
      * rewrite list_lookup_alter_ne in Hy by exact Hj.
        rewrite Hy0 in Hy. now injection Hy as <-.
  - rewrite list_lookup_alter_ne by exact Hne. eauto.
Qed.

Lemma keeps_objects_new (st0 st : Interpreter) (c : ClassDef) :
  keeps_objects st0 st ->
  keeps_objects st0 (set_heap st (heap st ++ [ObjectDef_init c])).
Proof.
  intros Hkeep i levels0 Hi.
  destruct (Hkeep i levels0 Hi) as (levels & Hlev & Hall).
  exists levels. split; [| exact Hall]. cbn [set_heap heap].
  now apply lookup_app_l_Some.
Qed.

(** what a session that keeps the objects of another says of one object *)
Lemma keeps_objects_level (st st' : Interpreter) (o : ObjRef) (l : ObjectDef) :
  keeps_objects st st' ->
  get_level st o = Ok l ->
  exists l' : ObjectDef,
    get_level st' o = Ok l'
    /\ same_shape l l'
    /\ super_object st' o = super_object st o.
Proof.
  intros Hkeep Hl. unfold get_level in Hl.
  destruct (heap st !! ref_inst o) as [levels |] eqn:Hi; [| discriminate].
  destruct (levels !! ref_depth o) as [l1 |] eqn:Hd; [| discriminate].
  injection Hl as ->.
  destruct (Hkeep _ _ Hi) as (levels' & Hi' & Hall).
  destruct (Forall2_lookup_l _ _ _ _ _ Hall Hd) as (l' & Hd' & Hshape).
  exists l'. unfold get_level, super_object. rewrite Hi, Hi', Hd'.
  split; [reflexivity |]. split; [exact Hshape |].
  pose proof (Forall2_length _ _ _ Hall) as Hlen.
  pose proof (lookup_lt_is_Some levels (S (ref_depth o))) as H1.
  pose proof (lookup_lt_is_Some levels' (S (ref_depth o))) as H2.
  destruct (levels !! S (ref_depth o)) as [x |],
           (levels' !! S (ref_depth o)) as [y |]; try reflexivity; exfalso.
  - assert (is_Some (@None ObjectDef)) as [? ?]; [| discriminate].
    apply H2. rewrite <- Hlen. apply H1. eauto.
  - assert (is_Some (@None ObjectDef)) as [? ?]; [| discriminate].
    apply H1. rewrite Hlen. apply H2. eauto.
Qed.

Lemma evaluator_keeps_objects (fuel : nat) (st0 : Interpreter) :
  (forall st self env rt code,
      keeps_objects st0 st ->
      holds (fun x : outcome => keeps_objects st0 (fst (fst x)))
            (execute_statement fuel st self env rt code))
  /\ (forall st self env rt code,
         keeps_objects st0 st ->
         holds (fun x : outcome => keeps_objects st0 (fst (fst x)))
               (execute_while fuel st self env rt code))
  /\ (forall st self env expr,
         keeps_objects st0 st ->
         holds (fun x : outcome => keeps_objects st0 (fst (fst x)))
               (evaluate_expression fuel st self env expr))
  /\ (forall st self name args super_only,
         keeps_objects st0 st ->
         holds (fun x : Interpreter * (status * option Value) =>
                  keeps_objects st0 (fst x))
               (call_method fuel st self name args super_only)).
Proof.
  apply (evaluator_keeps_session (keeps_objects st0)).
  - intros st line H. exact H.
  - intros st H. unfold get_input. now destruct (input st).
  - intros st o l k d v. apply keeps_objects_set_field_def.
  - intros st c. apply keeps_objects_new.
  - intros st k c H. exact H.
  - intros st k sup H. exact H.
Qed.

(** X13: a statement that runs to its end leaves every object that there
    was an object: with the same levels, each of the same class and with
    the same methods and the same fields, each field of the type and the
    name it was declared with, and with the same super object.  Only the
    values of fields change; no object is freed, and none changes its
    class. *)
Theorem objects_keep_their_shape :
  forall (fuel : nat) (st st' : Interpreter) (self : ObjRef)
         (env env' : list frame) (return_type : Type_) (code : sexp)
         (r : status * option Value),
    execute_statement fuel st self env return_type code = Ok (st', env', r) ->
    forall (o : ObjRef) (l : ObjectDef),
      get_level st o = Ok l ->
      exists l' : ObjectDef,
        get_level st' o = Ok l'
        /\ same_shape l l'
        /\ super_object st' o = super_object st o.
Proof.
  intros fuel st st' self env env' rt code r Hrun o l Hl.
  destruct (evaluator_keeps_objects fuel st) as (Hs & _).
  specialize (Hs st self env rt code (keeps_objects_refl st)).
  rewrite Hrun in Hs. exact (keeps_objects_level _ _ _ _ Hs Hl).
Qed.




Lemma keeps_lines_refl (st : Interpreter) : keeps_lines st st.
Proof. split; [exists [] | exists []]; now rewrite ?app_nil_r. Qed.

Lemma evaluator_keeps_lines (fuel : nat) (st0 : Interpreter) :
  (forall st self env rt code,
      keeps_lines st0 st ->
      holds (fun x : outcome => keeps_lines st0 (fst (fst x)))
            (execute_statement fuel st self env rt code))
  /\ (forall st self env rt code,
         keeps_lines st0 st ->
         holds (fun x : outcome => keeps_lines st0 (fst (fst x)))
               (execute_while fuel st self env rt code))
  /\ (forall st self env expr,
         keeps_lines st0 st ->
         holds (fun x : outcome => keeps_lines st0 (fst (fst x)))
               (evaluate_expression fuel st self env expr))
  /\ (forall st self name args super_only,
         keeps_lines st0 st ->
         holds (fun x : Interpreter * (status * option Value) =>
                  keeps_lines st0 (fst x))
               (call_method fuel st self name args super_only)).
Proof.
  apply (evaluator_keeps_session (keeps_lines st0)).
  - intros st line [Hout Hin]. split; [| exact Hin].
    cbn [host_output output]. now apply prefix_app_r.
  - intros st [Hout Hin]. unfold get_input.
    destruct (input st) as [| line rest] eqn:Hinp.
    { split; [exact Hout |]. cbn [fst]. now rewrite Hinp. }
    split; [exact Hout |]. cbn [fst input].
    destruct Hin as [k Hk]. exists (k ++ [line])%list.
    now rewrite Hk, <- app_assoc.
  - intros st o l k d v _ _ H. exact H.
  - intros st c H. exact H.
  - intros st k c H. exact H.
  - intros st k sup H. exact H.
Qed.

(** X15: a statement that runs to its end only adds lines at the end of
    the output, and only reads lines from the front of the input: what was
    printed stays printed, in its order, and no line of input is read
    twice or put back. *)
Theorem printed_lines_stay :
  forall (fuel : nat) (st st' : Interpreter) (self : ObjRef)
         (env env' : list frame) (return_type : Type_) (code : sexp)
         (r : status * option Value),
    execute_statement fuel st self env return_type code = Ok (st', env', r) ->
    output st `prefix_of` output st' /\ input st' `suffix_of` input st.
Proof.
  intros fuel st st' self env env' rt code r Hrun.
  destruct (evaluator_keeps_lines fuel st) as (Hs & _).
  specialize (Hs st self env rt code (keeps_lines_refl st)).
  rewrite Hrun in Hs. exact Hs.
Qed.

(** X16: a statement or an expression that runs to its end hands the
    scopes back with as many frames as it was given: every frame that a
    [let] or the handler of a [try] pushes is popped again, also when the
    block is left by a return or by an exception. *)
Theorem scopes_are_balanced :
  forall (fuel : nat) (st st' : Interpreter) (self : ObjRef)
         (env env' : list frame) (return_type : Type_) (code : sexp)
         (r : status * option Value),
    execute_statement fuel st self env return_type code = Ok (st', env', r)
    \/ evaluate_expression fuel st self env code = Ok (st', env', r) ->
    length env' = length env.
Proof.
  intros fuel st st' self env env' rt code r Hrun.
  destruct (evaluator_keeps_frames fuel) as (Hs & _ & He).
  destruct Hrun as [Hrun | Hrun].
  - specialize (Hs st self env rt code). now rewrite Hrun in Hs.
  - specialize (He st self env code). now rewrite Hrun in He.
Qed.

End Kept.

(** ** Operators on typed operands *)

Section Comparisons.
Context {ext : External}.

(** X17: on any two operands [!=] yields the negation of what [==]
    yields, and is a type error exactly when [==] is one; the two never
    end in any other way, and what they yield is a boolean. *)
Theorem not_equal_negates_equal :
  forall (st : Interpreter) (operand1 operand2 : option Value),
    (exists r : bool,
        apply_binary st "==" operand1 operand2 = Ok (bool_value r)
        /\ apply_binary st "!=" operand1 operand2 = Ok (bool_value (negb r)))
    \/ (apply_binary st "==" operand1 operand2 = Error TYPE_ERROR
        /\ apply_binary st "!=" operand1 operand2 = Error TYPE_ERROR).
Proof.
  intros st [a |] [b |]; try (right; split; reflexivity).
  unfold apply_binary.
  destruct (Type_eqb (v_type a) (v_type b) && Type_eqb (v_type a) INT_TYPE_CONST);
    [left; eexists; split; reflexivity |].
  destruct (Type_eqb (v_type a) (v_type b)
            && Type_eqb (v_type a) STRING_TYPE_CONST);
    [left; eexists; split; reflexivity |].
  destruct (Type_eqb (v_type a) (v_type b) && Type_eqb (v_type a) BOOL_TYPE_CONST);
    [left; eexists; split; reflexivity |].
  destruct (check_type_compatibility st (v_type a) (v_type b) false);
    [left; eexists; split; reflexivity | right; split; reflexivity].
Qed.

(** X18: on integers and a divisor that is not zero, [%] yields the
    remainder that goes with the quotient of [/]: dividend = divisor *
    quotient + remainder, and the remainder is zero or has the sign of the
    divisor and is smaller than it in size.  On a divisor that is zero [/]
    and [%] report no error of the language: the host's division fails. *)
Theorem remainder_goes_with_the_quotient :
  forall (st : Interpreter) (a b : Z),
    (b <> 0%Z ->
     apply_binary st "/" (Some (int_value a)) (Some (int_value b))
     = Ok (int_value (a / b))
     /\ apply_binary st "%" (Some (int_value a)) (Some (int_value b))
        = Ok (int_value (a mod b))
     /\ (a = b * (a / b) + a mod b)%Z
     /\ ((0 < b /\ 0 <= a mod b < b) \/ (b < 0 /\ b < a mod b <= 0))%Z)
    /\ apply_binary st "/" (Some (int_value a)) (Some (int_value 0)) = Crash
    /\ apply_binary st "%" (Some (int_value a)) (Some (int_value 0)) = Crash.
Proof.
  intros st a b. split; [| split; reflexivity].
  intros Hb. rewrite !apply_binary_ints.
  change (binary_ops_int "/")
    with (Some (on_ints (fun x y => let! q := floordiv x y in Ok (int_value q)))).
  change (binary_ops_int "%")
    with (Some (on_ints (fun x y => let! r := pymod x y in Ok (int_value r)))).
  cbn [on_ints int_value v_value]. unfold floordiv, pymod.
  rewrite (proj2 (Z.eqb_neq b 0) Hb). cbn [bind].
  split; [reflexivity |]. split; [reflexivity |].
  split; [exact (Z.div_mod a b Hb) |].
  destruct (Z.lt_total b 0) as [Hneg | [Hz | Hpos]]; [right | lia | left].
  - split; [exact Hneg |]. exact (Z.mod_neg_bound a b Hneg).
  - split; [exact Hpos |]. exact (Z.mod_pos_bound a b Hpos).
Qed.


End Comparisons.

(** ** Variables and fields *)

Section Variables.
Context {ext : External}.


Lemma get_level_set_field_def (st : Interpreter) (o : ObjRef) (l : ObjectDef)
    (k : string) (d : VariableDef) :
  get_level st o = Ok l ->
  get_level (set_field_def st o k d) o
  = Ok (mkObjectDef (class_def l) (<[k := d]> (fields l)) (methods l)).
Proof.
  unfold get_level, set_field_def. cbn [set_heap heap]. intros Hl.
  rewrite list_lookup_alter_eq.
  destruct (heap st !! ref_inst o) as [levels |]; [| discriminate].
  cbn [fmap option_fmap option_map]. rewrite list_lookup_alter_eq.
  destruct (levels !! ref_depth o) as [l1 |]; [| discriminate].
  now injection Hl as ->.
Qed.

Lemma get_level_set_field_def_other (st : Interpreter) (o o' : ObjRef)
    (k : string) (d : VariableDef) :
  o' <> o ->
  get_level (set_field_def st o k d) o' = get_level st o'.
Proof.
  intros Hne. unfold get_level, set_field_def. cbn [set_heap heap].
  destruct (decide (ref_inst o = ref_inst o')) as [Hi | Hi].
  - rewrite <- Hi, list_lookup_alter_eq.
    destruct (heap st !! ref_inst o) as [levels |]; [| reflexivity].
    cbn [fmap option_fmap option_map].
    rewrite list_lookup_alter_ne; [reflexivity |].
    intros Hd. apply Hne. destruct o, o'. cbn in *. congruence.
  - now rewrite list_lookup_alter_ne.
Qed.


(** X21: an assignment changes one variable only: every other local and
    parameter reads as before, every other level of every object is as it
    was (the other levels of the executing object too), and in the
    executing level every other field is as it was. *)
Theorem assignment_touches_one_variable :
  forall (st st' : Interpreter) (self : ObjRef) (env env' : list frame)
         (var_name : string) (value : Value),
    set_variable_aux st self env var_name (Some value) = Ok (st', env') ->
    (forall other : string,
        other <> var_name ->
        EnvironmentManager.get env' other = EnvironmentManager.get env other)
    /\ (forall o : ObjRef, o <> self -> get_level st' o = get_level st o)
    /\ (forall (l : ObjectDef) (other : string),
           get_level st self = Ok l -> other <> var_name ->
           exists l' : ObjectDef,
             get_level st' self = Ok l' /\ fields l' !! other = fields l !! other).
Proof.
  intros st st' self env env' x v. unfold set_variable_aux, set_local_or_param.
  destruct (EnvironmentManager.get env x) as [d |] eqn:Hget.
  - destruct (check_type_compatibility_or_error st (var_type d) (v_type v) true);
      try discriminate.
    cbn [bind]. intros H. injection H as <- <-.
    split; [| split].
    + intros other Hne. now apply get_set_other.
    + reflexivity.
    + intros l other Hl _. now exists l.
  - cbn [bind]. unfold set_field.
    destruct (get_level st self) as [l | | |] eqn:Hl; try discriminate.
    cbn [bind]. destruct (fields l !! x) as [d |] eqn:Hd; [| discriminate].
    destruct (check_type_compatibility_or_error st (var_type d) (v_type v) true);
      try discriminate.
    cbn [bind]. intros H. injection H as <- <-.
    split; [reflexivity |]. split.
    + intros o Hne. now apply get_level_set_field_def_other.
    + intros l0 other Hl0 Hne. injection Hl0 as <-.
      eexists. split; [exact (get_level_set_field_def st self l x _ Hl) |].
      cbn [fields]. now apply lookup_insert_ne.
Qed.

(** X22: the fields of an object are private to the level that declares
    them: a name that is no local, no parameter, no field of the executing
    level, no literal and not [me] is a name error, on reading it and on
    assigning to it, whatever fields the other levels of the object have. *)
Theorem field_of_another_level_is_unknown :
  forall (fuel : nat) (st : Interpreter) (self : ObjRef) (env : list frame)
         (l : ObjectDef) (name : string) (value : Value),
    EnvironmentManager.get env name = None ->
    get_level st self = Ok l ->
    fields l !! name = None ->
    create_value name = None ->
    name <> ME_DEF ->
    evaluate_expression (S fuel) st self env (Tok name) = Error NAME_ERROR
    /\ set_variable_aux st self env name (Some value) = Error NAME_ERROR.
Proof.
  intros fuel st self env l name value Hget Hl Hf Hlit Hme. split.
  - cbn [evaluate_expression evaluate_expression_body]. unfold evaluate_token.
    rewrite Hget, Hl. cbn [bind]. rewrite Hf, Hlit.
    apply String.eqb_neq in Hme. now rewrite Hme.
  - unfold set_variable_aux, set_local_or_param. rewrite Hget. cbn [bind].
    unfold set_field. rewrite Hl. cbn [bind]. now rewrite Hf.
Qed.

End Variables.

(** ** Calls and their receivers *)

Section Receivers.
Context {ext : External}.

#[local] Abbreviation outcome :=
  (Interpreter * list frame * (status * option Value))%type.

(** X23: a call on a receiver that evaluates to a null reference is a
    fault error; the arguments of the call are not evaluated. *)
Theorem call_on_null_is_fault_error :
  forall (fuel : nat) (st st1 : Interpreter) (self : ObjRef)
         (env env1 : list frame) (return_type : Type_)
         (receiver : sexp) (rest : list sexp) (v : Value),
    receiver <> Tok ME_DEF ->
    receiver <> Tok SUPER_DEF ->
    evaluate_expression fuel st self env receiver
    = Ok (st1, env1, (STATUS_PROCEED, Some v)) ->
    is_null v = true ->
    execute_statement (S fuel) st self env return_type
      (Lst (Tok CALL_DEF :: receiver :: rest))
    = Error FAULT_ERROR
    /\ evaluate_expression (S fuel) st self env
         (Lst (Tok CALL_DEF :: receiver :: rest))
       = Error FAULT_ERROR.
Proof.
  intros fuel st st1 self env env1 rt receiver rest v Hme Hsuper Hrecv Hnull.
  assert (Haux : execute_call_aux (evaluate_expression fuel) (call_method fuel)
                   st self env (Tok CALL_DEF :: receiver :: rest)
                 = Error FAULT_ERROR).
  { unfold execute_call_aux. cbn [idx lookup list_lookup bind].
    assert (Hr : evaluate_receiver (evaluate_expression fuel) st self env receiver
                 = Error FAULT_ERROR).
    { unfold evaluate_receiver. rewrite Hrecv. cbn [bind status_eqb].
      unfold is_null in Hnull. now destruct (v_value v). }
    destruct receiver as [w | l]; [| now rewrite Hr].
    destruct (String.eqb w ME_DEF) eqn:E1.
    { apply String.eqb_eq in E1. now subst w. }
    destruct (String.eqb w SUPER_DEF) eqn:E2.
    { apply String.eqb_eq in E2. now subst w. }
    now rewrite Hr. }
  split.
  - cbn [execute_statement]. unfold execute_statement_body.
    cbn [as_list bind idx lookup list_lookup as_tok].
    change (String.eqb CALL_DEF BEGIN_DEF) with false.
    change (String.eqb CALL_DEF SET_DEF) with false.
    change (String.eqb CALL_DEF IF_DEF) with false.
    change (String.eqb CALL_DEF CALL_DEF) with true.
    cbn iota. exact Haux.
  - cbn [evaluate_expression evaluate_expression_body idx lookup list_lookup bind].
    unfold evaluate_operation.
    replace (bool_decide (CALL_DEF ∈ binary_op_list)) with false by reflexivity.
    replace (bool_decide (CALL_DEF ∈ unary_op_list)) with false by reflexivity.
    change (String.eqb CALL_DEF CALL_DEF) with true.
    cbn iota. exact Haux.
Qed.

(** X24: a call through [super] from a level that has no super object (a
    level of a class without superclass) is a type error; the arguments of
    the call are not evaluated. *)
Theorem call_through_super_without_superclass_is_type_error :
  forall (fuel : nat) (st : Interpreter) (self : ObjRef) (env : list frame)
         (return_type : Type_) (rest : list sexp),
    super_object st self = None ->
    execute_statement (S fuel) st self env return_type
      (Lst (Tok CALL_DEF :: Tok SUPER_DEF :: rest))
    = Error TYPE_ERROR
    /\ evaluate_expression (S fuel) st self env
         (Lst (Tok CALL_DEF :: Tok SUPER_DEF :: rest))
       = Error TYPE_ERROR.
Proof.
  intros fuel st self env rt rest Hsuper.
  assert (Haux : execute_call_aux (evaluate_expression fuel) (call_method fuel)
                   st self env (Tok CALL_DEF :: Tok SUPER_DEF :: rest)
                 = Error TYPE_ERROR).
  { unfold execute_call_aux. cbn [idx lookup list_lookup bind].
    change (String.eqb SUPER_DEF ME_DEF) with false.
    change (String.eqb SUPER_DEF SUPER_DEF) with true.
    cbn iota. now rewrite Hsuper. }
  split.
  - cbn [execute_statement]. unfold execute_statement_body.
    cbn [as_list bind idx lookup list_lookup as_tok].
    change (String.eqb CALL_DEF BEGIN_DEF) with false.
    change (String.eqb CALL_DEF SET_DEF) with false.
    change (String.eqb CALL_DEF IF_DEF) with false.
    change (String.eqb CALL_DEF CALL_DEF) with true.
    cbn iota. exact Haux.
  - cbn [evaluate_expression evaluate_expression_body idx lookup list_lookup bind].
    unfold evaluate_operation.
    replace (bool_decide (CALL_DEF ∈ binary_op_list)) with false by reflexivity.
    replace (bool_decide (CALL_DEF ∈ unary_op_list)) with false by reflexivity.
    change (String.eqb CALL_DEF CALL_DEF) with true.
    cbn iota. exact Haux.
Qed.

(** the status is not that of a return *)
#[local] Abbreviation goes_on := (fun s : status => s <> STATUS_RETURN).

Lemma exception_goes_on (s : status) :
  status_eqb s STATUS_EXCEPTION = true -> goes_on s.
Proof. now destruct s. Qed.

Lemma call_method_goes_on (fuel : nat) (st : Interpreter) (self : ObjRef)
    (name : string) (args : list (option Value)) (super_only : bool) :
  holds (fun x : Interpreter * (status * option Value) => goes_on (fst (snd x)))
        (call_method fuel st self name args super_only).
Proof.
  destruct fuel as [| fuel]; [exact I |].
  cbn [call_method]. unfold call_method_body.
  eapply holds_bind; [apply holds_any | intros [o |] _]; [| discriminate].
  eapply holds_bind; [apply holds_any | intros l _].
  destruct (methods l !! name) as [m |]; [| exact I].
  eapply holds_bind; [apply holds_any | intros [scope |] _]; [| discriminate].
  eapply holds_bind; [apply holds_any | intros [[st1 env1] [s v]] _].
  cbn. unfold method_result. now destruct s, v.
Qed.

Section Expressions.

Variable evaluate_expression_rec :
  Interpreter -> ObjRef -> list frame -> sexp -> result outcome.
Variable call_method_rec :
  Interpreter -> ObjRef -> string -> list (option Value) -> bool ->
  result (Interpreter * (status * option Value)).
Variable instantiate_rec : Interpreter -> string -> result (Interpreter * ObjRef).
Hypothesis call_goes_on :
  forall st self name args super_only,
    holds (fun x : Interpreter * (status * option Value) => goes_on (fst (snd x)))
          (call_method_rec st self name args super_only).

Lemma evaluate_args_goes_on (exprs : list sexp) :
  forall (st : Interpreter) (self : ObjRef) (env : list frame)
         (acc : list (option Value)),
    holds (fun x => match snd x with
                    | inl r => goes_on (fst r)
                    | inr _ => True
                    end)
          (evaluate_args evaluate_expression_rec st self env exprs acc).
Proof.
  induction exprs as [| e rest IH]; intros st self env acc; [exact I |].
  cbn [evaluate_args].
  eapply holds_bind; [apply holds_any | intros [[st1 env1] [s arg]] _].
  destruct (status_eqb s STATUS_EXCEPTION) eqn:Hs; [| apply IH].
  cbn. now apply exception_goes_on.
Qed.

Lemma execute_call_aux_goes_on (st : Interpreter) (self : ObjRef)
    (env : list frame) (code : list sexp) :
  holds (fun x : outcome => goes_on (fst (snd x)))
        (execute_call_aux evaluate_expression_rec call_method_rec st self env
                          code).
Proof.
  unfold execute_call_aux.
  eapply holds_bind; [apply holds_any | intros obj_name _].
  eapply holds_bind with
    (Q' := fun x => match snd x with
                    | inl r => goes_on (fst r)
                    | inr _ => True
                    end).
  - assert (Hr : holds (fun x => match snd x with
                                 | inl r => goes_on (fst r)
                                 | inr _ => True
                                 end)
                   (evaluate_receiver evaluate_expression_rec st self env
                                      obj_name)).
    { unfold evaluate_receiver.
      eapply holds_bind; [apply holds_any | intros [[st1 env1] [s v]] _].
      destruct (status_eqb s STATUS_EXCEPTION) eqn:Hs;
        [cbn; now apply exception_goes_on |].
      destruct v as [v |]; [| discriminate].
      now destruct (v_value v). }
    destruct obj_name as [w | l]; [| exact Hr].
    destruct (String.eqb w ME_DEF); [exact I |].
    destruct (String.eqb w SUPER_DEF); [| exact Hr].
    now destruct (super_object st self).
  - intros [[st1 env1] target] Ht. cbn [snd] in Ht.
    destruct target as [r | [obj super_only]]; [exact Ht |].
    eapply holds_bind; [apply evaluate_args_goes_on |].
    intros [[st2 env2] args] Ha. cbn [snd] in Ha.
    destruct args as [r | actual_args]; [exact Ha |].
    destruct obj; try exact I.
    eapply holds_bind; [apply holds_any | intros name _].
    eapply holds_bind; [apply call_goes_on | intros [st3 r] H3]. exact H3.
Qed.

Lemma evaluate_expression_body_goes_on (st : Interpreter) (self : ObjRef)
    (env : list frame) (expr : sexp) :
  holds (fun x : outcome => goes_on (fst (snd x)))
        (evaluate_expression_body evaluate_expression_rec call_method_rec
                                  instantiate_rec st self env expr).
Proof.
  destruct expr as [t | l].
  - cbn [evaluate_expression_body]. unfold evaluate_token.
    destruct (EnvironmentManager.get env t); [discriminate |].
    eapply holds_bind; [apply holds_any | intros lv _].
    destruct (fields lv !! t); [discriminate |].
    destruct (create_value t); [discriminate |].
    destruct (String.eqb t ME_DEF); [| exact I].
    eapply holds_bind; [apply holds_any | intros me _]. discriminate.
  - cbn [evaluate_expression_body].
    eapply holds_bind; [apply holds_any | intros operator _].
    destruct operator as [op | ?]; [| discriminate].
    unfold evaluate_operation.
    destruct (bool_decide (op ∈ binary_op_list)).
    { eapply holds_bind; [apply holds_any | intros e1 _].
      eapply holds_bind; [apply holds_any | intros [[st1 env1] [s1 o1]] _].
      destruct (status_eqb s1 STATUS_EXCEPTION) eqn:Hs1;
        [cbn; now apply exception_goes_on |].
      eapply holds_bind; [apply holds_any | intros e2 _].
      eapply holds_bind; [apply holds_any | intros [[st2 env2] [s2 o2]] _].
      destruct (status_eqb s2 STATUS_EXCEPTION) eqn:Hs2;
        [cbn; now apply exception_goes_on |].
      eapply holds_bind; [apply holds_any | intros v _]. discriminate. }
    destruct (bool_decide (op ∈ unary_op_list)).
    { eapply holds_bind; [apply holds_any | intros e1 _].
      eapply holds_bind; [apply holds_any | intros [[st1 env1] [s1 o1]] _].
      destruct (status_eqb s1 STATUS_EXCEPTION) eqn:Hs1;
        [cbn; now apply exception_goes_on |].
      destruct o1 as [a1 |]; [| exact I].
      destruct (Type_eqb (v_type a1) BOOL_TYPE_CONST); [| discriminate].
      destruct (unary_ops_bool op); [| exact I].
      eapply holds_bind; [apply holds_any | intros v _]. discriminate. }
    destruct (String.eqb op CALL_DEF); [apply execute_call_aux_goes_on |].
    destruct (String.eqb op NEW_DEF); [| discriminate].
    eapply holds_bind; [apply holds_any | intros [st1 v] _]. discriminate.
Qed.

End Expressions.

(** X25: a return ends only the method it stands in: a call of a method
    ends with the status PROCEED or with an exception, never with the
    status of a return, and so does every expression and every call
    statement; the method that made the call goes on after it. *)
Theorem return_ends_only_its_method :
  forall (fuel : nat) (st st' : Interpreter) (self : ObjRef)
         (env env' : list frame) (return_type : Type_) (expr : sexp)
         (rest : list sexp) (name : string) (args : list (option Value))
         (super_only : bool) (s : status) (v : option Value),
    call_method fuel st self name args super_only = Ok (st', (s, v))
    \/ evaluate_expression fuel st self env expr = Ok (st', env', (s, v))
    \/ execute_statement fuel st self env return_type (Lst (Tok CALL_DEF :: rest))
       = Ok (st', env', (s, v)) ->
    s = STATUS_PROCEED \/ s = STATUS_EXCEPTION.
Proof.
  intros fuel st st' self env env' rt expr rest name args super_only s v Hrun.
  assert (Hs : s <> STATUS_RETURN); [| destruct s; auto; now exfalso].
  destruct Hrun as [Hrun | [Hrun | Hrun]].
  - pose proof (call_method_goes_on fuel st self name args super_only) as H.
    now rewrite Hrun in H.
  - destruct fuel as [| fuel]; [discriminate |].
    pose proof (evaluate_expression_body_goes_on (evaluate_expression fuel)
                  (call_method fuel) (instantiate fuel)
                  (call_method_goes_on fuel) st self env expr) as H.
    cbn [evaluate_expression] in Hrun. now rewrite Hrun in H.
  - destruct fuel as [| fuel]; [discriminate |].
    pose proof (execute_call_aux_goes_on (evaluate_expression fuel)
                  (call_method fuel) (call_method_goes_on fuel) st self env
                  (Tok CALL_DEF :: rest)) as H.
    cbn [execute_statement] in Hrun. unfold execute_statement_body in Hrun.
    cbn [as_list bind idx lookup list_lookup as_tok] in Hrun.
    change (String.eqb CALL_DEF BEGIN_DEF) with false in Hrun.
    change (String.eqb CALL_DEF SET_DEF) with false in Hrun.
    change (String.eqb CALL_DEF IF_DEF) with false in Hrun.
    change (String.eqb CALL_DEF CALL_DEF) with true in Hrun.
    cbn iota in Hrun. unfold execute_call in Hrun. now rewrite Hrun in H.
Qed.

(** X26: a statement whose head token is none of the twelve statement
    keywords is a syntax error, whatever follows the token. *)
Theorem unknown_statement_is_syntax_error :
  forall (fuel : nat) (st : Interpreter) (self : ObjRef) (env : list frame)
         (return_type : Type_) (head : string) (rest : list sexp),
    head ∉ [BEGIN_DEF; SET_DEF; IF_DEF; CALL_DEF; WHILE_DEF; RETURN_DEF;
            THROW_DEF; TRY_DEF; INPUT_STRING_DEF; INPUT_INT_DEF; PRINT_DEF;
            LET_DEF] ->
    execute_statement (S fuel) st self env return_type (Lst (Tok head :: rest))
    = Error SYNTAX_ERROR.
Proof.
  intros fuel st self env rt head rest Hhead.
  cbn [execute_statement]. unfold execute_statement_body.
  cbn [as_list bind idx lookup list_lookup as_tok].
  repeat match goal with
         | |- (if String.eqb head ?kw then _ else _) = _ =>
             let E := fresh "E" in
             destruct (String.eqb head kw) eqn:E;
             [exfalso; apply String.eqb_eq in E; apply Hhead; rewrite E;
              repeat (first [apply list_elem_of_here | apply list_elem_of_further])
             | clear E]
         end.
  reflexivity.
Qed.

(** X27: [new] of a class that the class index has makes an object that
    was not there: the object's number is the number of objects there
    were, its levels are those of the class, and every object there was
    stays as it was.  The value is a reference to the new object, of the
    type named in the [new]. *)
Theorem new_makes_a_fresh_object :
  forall (fuel : nat) (st : Interpreter) (self : ObjRef) (env : list frame)
         (class_name : string) (c : ClassDef),
    class_index st !! class_name = Some (Some c) ->
    exists st' : Interpreter,
      evaluate_expression (S fuel) st self env (Lst [Tok NEW_DEF; Tok class_name])
      = Ok (st', env,
            (STATUS_PROCEED,
             Some (mkValue (mkType class_name)
                           (Some (VObj (mkRef (length (heap st)) 0))))))
      /\ heap st' = (heap st ++ [ObjectDef_init c])%list
      /\ get_level st (mkRef (length (heap st)) 0) = Crash
      /\ (exists l : ObjectDef,
             get_level st' (mkRef (length (heap st)) 0) = Ok l /\ class_def l = c)
      /\ forall (o : ObjRef) (l : ObjectDef),
           get_level st o = Ok l -> get_level st' o = Ok l.
Proof.
  intros fuel st self env class_name c Hc.
  exists (set_heap st (heap st ++ [ObjectDef_init c])).
  split; [| split; [reflexivity | split; [| split]]].
  - cbn [evaluate_expression evaluate_expression_body idx lookup list_lookup bind].
    unfold evaluate_operation.
    replace (bool_decide (NEW_DEF ∈ binary_op_list)) with false by reflexivity.
    replace (bool_decide (NEW_DEF ∈ unary_op_list)) with false by reflexivity.
    change (String.eqb NEW_DEF CALL_DEF) with false.
    change (String.eqb NEW_DEF NEW_DEF) with true.
    cbn iota. unfold execute_new_aux.
    cbn [idx lookup list_lookup bind as_tok].
    unfold instantiate. rewrite Hc. cbn [bind]. now rewrite Hc.
  - unfold get_level. cbn [ref_inst].
    now rewrite (lookup_ge_None_2 (heap st) (length (heap st))).
  - unfold get_level. cbn [set_heap heap ref_inst ref_depth].
    rewrite lookup_app_r by reflexivity. rewrite Nat.sub_diag.
    cbn [lookup list_lookup]. rewrite ObjectDef_init_head.
    cbn [lookup list_lookup]. eauto.
  - intros o l. unfold get_level. cbn [set_heap heap].
    destruct (heap st !! ref_inst o) as [levels |] eqn:Hi; [| discriminate].
    now rewrite (lookup_app_l_Some _ _ _ _ Hi).
Qed.

End Receivers.

(** ** Loading a program *)

Section Loading.
Context {ext : External}.

Lemma item_name_class (item : sexp) (it : list sexp) (nm : string) :
  member_is CLASS_DEF item = Ok true ->
  as_list item = Ok it ->
  idx it 1 >>= as_tok = Ok nm ->
  item_name item = Some nm.
Proof.
  intros His Hit Hnm. destruct item as [s | l]; [discriminate |].
  injection Hit as ->.
  destruct it as [| [h | ?] [| [n | ?] rest]]; try discriminate.
  cbn [member_is] in His. injection His as His.
  cbn in Hnm. injection Hnm as ->.
  cbn [item_name]. now rewrite His.
Qed.

Lemma item_name_blueprint (item : sexp) (it : list sexp) (nm : string) :
  member_is TEMPLATE_CLASS_DEF item = Ok true ->
  as_list item = Ok it ->
  idx it 1 >>= as_tok = Ok nm ->
  item_name item = Some nm.
Proof.
  intros His Hit Hnm. destruct item as [s | l]; [discriminate |].
  injection Hit as ->.
  destruct it as [| [h | ?] [| [n | ?] rest]]; try discriminate.
  cbn [member_is] in His. injection His as His.
  cbn in Hnm. injection Hnm as ->.
  cbn [item_name]. rewrite His. now rewrite orb_true_r.
Qed.

Lemma item_name_other (item : sexp) :
  member_is CLASS_DEF item = Ok false ->
  member_is TEMPLATE_CLASS_DEF item = Ok false ->
  item_name item = None.
Proof.
  destruct item as [[| ? ?] | [| [h | ?] rest]]; try discriminate;
    try reflexivity.
  cbn [member_is]. intros H1 H2. injection H1 as H1. injection H2 as H2.
  cbn [item_name]. destruct rest as [| [n | ?] rest]; try reflexivity.
  now rewrite H1, H2.
Qed.

Lemma name_taken_set_class_index (st : Interpreter) (k nm : string)
    (c : option ClassDef) :
  name_taken st nm = true \/ k = nm ->
  name_taken (set_class_index st k c) nm = true.
Proof.
  unfold name_taken. cbn [set_class_index class_index template_class_index].
  destruct (decide (k = nm)) as [-> | Hne].
  - intros _. now rewrite lookup_insert_eq.
  - rewrite lookup_insert_ne by exact Hne. now intros [H | H].
Qed.

Lemma name_taken_set_template_class_index (st : Interpreter) (k nm : string)
    (t : TemplateClassDef) :
  name_taken st nm = true \/ k = nm ->
  name_taken (set_template_class_index st k t) nm = true.
Proof.
  unfold name_taken.
  cbn [set_template_class_index class_index template_class_index].
  destruct (decide (k = nm)) as [-> | Hne].
  - intros _. rewrite lookup_insert_eq. now destruct (class_index st !! nm).
  - rewrite lookup_insert_ne by exact Hne. now intros [H | H].
Qed.

(** building a class takes no name away *)
Lemma ClassDef_init_keeps_names (fuel : nat) (st st' : Interpreter)
    (class_source : list sexp) (c : ClassDef) (nm : string) :
  ClassDef_init fuel st class_source = Ok (st', c) ->
  name_taken st nm = true -> name_taken st' nm = true.
Proof.
  intros Hrun Hnm.
  pose proof (ClassDef_init_keeps (fun s => name_taken s nm = true)) as H.
  specialize (H ltac:(intros s k c0 Hs; apply name_taken_set_class_index; now left)
                ltac:(intros s k sup Hs; exact Hs)
                fuel st class_source Hnm).
  now rewrite Hrun in H.
Qed.

Lemma program_names_loaded (fuel : nat) (program : list sexp) :
  forall st st' : Interpreter,
    map_class_names_to_class_defs fuel st program = Ok st' ->
    NoDup (program_names program)
    /\ (forall nm : string,
           nm ∈ program_names program ->
           name_taken st nm = false /\ name_taken st' nm = true)
    /\ (forall nm : string, name_taken st nm = true -> name_taken st' nm = true).
Proof.
  induction program as [| item rest IH]; intros st st' Hrun.
  - injection Hrun as <-. split; [apply NoDup_nil_2 |].
    split; [intros nm H; inversion H | auto].
  - cbn [map_class_names_to_class_defs] in Hrun.
    assert (Hstep : forall (nm : string) (st2 : Interpreter),
               item_name item = Some nm ->
               name_taken st nm = false ->
               (forall n, name_taken st n = true -> name_taken st2 n = true) ->
               name_taken st2 nm = true ->
               map_class_names_to_class_defs fuel st2 rest = Ok st' ->
               NoDup (program_names (item :: rest))
               /\ (forall n : string,
                      n ∈ program_names (item :: rest) ->
                      name_taken st n = false /\ name_taken st' n = true)
               /\ (forall n : string,
                      name_taken st n = true -> name_taken st' n = true)).
    { intros nm st2 Hitem Hfree Hmono Htaken Hrest.
      destruct (IH st2 st' Hrest) as (Hnd & Hnames & Hkeep).
      cbn [program_names]. rewrite Hitem. split; [| split].
      - apply NoDup_cons. split; [| exact Hnd].
        intros Hin. destruct (Hnames nm Hin) as [Hno _]. congruence.
      - intros n Hn. apply elem_of_cons in Hn. destruct Hn as [-> | Hn].
        + split; [exact Hfree | now apply Hkeep].
        + destruct (Hnames n Hn) as [Hno Hyes]. split; [| exact Hyes].
          destruct (name_taken st n) eqn:Hst; [| reflexivity].
          rewrite (Hmono n Hst) in Hno. discriminate.
      - intros n Hn. apply Hkeep, Hmono, Hn. }
    destruct (member_is CLASS_DEF item) as [[|] | | |] eqn:Hclass;
      try discriminate; cbn [bind] in Hrun.
    + destruct (as_list item) as [it | | |] eqn:Hit; try discriminate.
      cbn [bind] in Hrun.
      destruct (idx it 1 >>= as_tok) as [nm | | |] eqn:Hnm; try discriminate.
      cbn [bind] in Hrun.
      destruct (name_taken st nm) eqn:Hfree; [discriminate |].
      destruct (ClassDef_init fuel st it) as [[st1 c] | | |] eqn:Hc;
        try discriminate.
      cbn [bind] in Hrun.
      apply (Hstep nm (set_class_index st1 nm (Some c))
               (item_name_class _ _ _ Hclass Hit Hnm) Hfree); [| | exact Hrun].
      * intros n Hn. apply name_taken_set_class_index. left.
        exact (ClassDef_init_keeps_names _ _ _ _ _ _ Hc Hn).
      * apply name_taken_set_class_index. now right.
    + destruct (member_is TEMPLATE_CLASS_DEF item) as [[|] | | |] eqn:Htemplate;
        try discriminate; cbn [bind] in Hrun.
      * destruct (as_list item) as [it | | |] eqn:Hit; try discriminate.
        cbn [bind] in Hrun.
        destruct (idx it 1 >>= as_tok) as [nm | | |] eqn:Hnm; try discriminate.
        cbn [bind] in Hrun.
        destruct (name_taken st nm) eqn:Hfree; [discriminate |].
        destruct (TemplateClassDef_init st it) as [t | | |]; try discriminate.
        cbn [bind] in Hrun.
        apply (Hstep nm (set_template_class_index st nm t)
                 (item_name_blueprint _ _ _ Htemplate Hit Hnm) Hfree);
          [| | exact Hrun].
        -- intros n Hn. apply name_taken_set_template_class_index. now left.
        -- apply name_taken_set_template_class_index. now right.
      * destruct (IH st st' Hrun) as (Hnd & Hnames & Hkeep).
        cbn [program_names]. rewrite (item_name_other _ Hclass Htemplate).
        split; [exact Hnd | split; [exact Hnames | exact Hkeep]].
Qed.

(** X28: a program that is loaded declares each name once: no two of its
    classes and blueprints share a name, none of them has a name that was
    taken before, and after loading each of the names is taken, as is every
    name that was taken before. *)
Theorem program_names_are_distinct :
  forall (fuel : nat) (st st' : Interpreter) (program : list sexp),
    map_class_names_to_class_defs fuel st program = Ok st' ->
    NoDup (program_names program)
    /\ (forall nm : string,
           nm ∈ program_names program ->
           name_taken st nm = false /\ name_taken st' nm = true)
    /\ (forall nm : string, name_taken st nm = true -> name_taken st' nm = true).
Proof.
  intros fuel st st' program. apply program_names_loaded.
Qed.

End Loading.

(** ** Declaring a blueprint *)

Section Blueprints.
Context {ext : External}.

Lemma existsb_neither {A : Type} (p q : A -> bool) (l : list A) :
  existsb (fun x => negb (p x) && negb (q x)) l
  = negb (forallb (fun x => p x || q x) l).
Proof.
  induction l as [| x l IH]; [reflexivity |].
  cbn [existsb forallb]. rewrite IH. now destruct (p x), (q x).
Qed.

(** the check of one token *)
Lemma validate_token (st : Interpreter) (templated : list sexp) (s : string) :
  validate st templated (Tok s)
  = if type_arguments_known st templated s then Ok tt else Error TYPE_ERROR.
Proof.
  cbn [validate]. unfold type_arguments_known.
  destruct (split TYPE_CONCAT_CHAR s) as [| base [| a parts]]; try reflexivity.
  rewrite existsb_neither.
  now destruct (forallb _ (a :: parts)).
Qed.

(** the check walks the whole code and stops at the first token it refuses *)
Lemma validate_tokens (st : Interpreter) (templated : list sexp) :
  forall c : sexp,
    validate st templated c
    = if tokens_all (type_arguments_known st templated) c
      then Ok tt else Error TYPE_ERROR.
Proof.
  fix IH 1. intros [s | l]; [apply validate_token |].
  cbn [validate tokens_all].
  induction l as [| x l IHl]; [reflexivity |].
  cbn [forallb]. rewrite (IH x).
  destruct (tokens_all (type_arguments_known st templated) x);
    [exact IHl | reflexivity].
Qed.

(** X29: a blueprint with a name and a list of type parameters is declared
    exactly when, in every token of its declaration, the parts after the
    first separator are valid types or type parameters of the blueprint;
    otherwise the declaration is a type error.  The check does not tell
    types from code: it reads the tokens of the method bodies too, so a
    text with the separator in it can make the declaration a type error. *)
Theorem blueprint_is_checked_token_by_token :
  forall (st : Interpreter) (class_source templated : list sexp) (nm : string),
    idx class_source 1 >>= as_tok = Ok nm ->
    idx class_source 2 >>= as_list = Ok templated ->
    TemplateClassDef_init st class_source
    = if forallb (tokens_all (type_arguments_known st templated)) class_source
      then Ok (mkTemplateClassDef nm class_source templated)
      else Error TYPE_ERROR.
Proof.
  intros st class_source templated nm Hnm Htemplated.
  unfold TemplateClassDef_init. rewrite Hnm, Htemplated. cbn [bind].
  rewrite validate_tokens. cbn [tokens_all].
  now destruct (forallb _ class_source).
Qed.

End Blueprints.

(** ** The declarations in scope *)

Section Declarations.
Context {ext : External}.

#[local] Abbreviation outcome :=
  (Interpreter * list frame * (status * option Value))%type.

Lemma same_variable_refl (o : option VariableDef) : same_variable o o.
Proof. destruct o; cbn; [now split | exact I]. Qed.

Lemma same_variable_trans (o1 o2 o3 : option VariableDef) :
  same_variable o1 o2 -> same_variable o2 o3 -> same_variable o1 o3.
Proof.
  destruct o1, o2, o3; cbn; try tauto.
  unfold same_declaration. intros [H1 H2] [H3 H4]. split; congruence.
Qed.

Lemma same_symbols_refl (f : frame) : same_symbols f f.
Proof. intros k. destruct (f !! k); [apply same_variable_refl | exact I]. Qed.

Lemma same_symbols_trans (f1 f2 f3 : frame) :
  same_symbols f1 f2 -> same_symbols f2 f3 -> same_symbols f1 f3.
Proof.
  intros H12 H23 k. specialize (H12 k). specialize (H23 k).
  destruct (f1 !! k), (f2 !! k), (f3 !! k); try tauto.
  eapply same_variable_trans; eassumption.
Qed.

Lemma same_scopes_refl (env : list frame) : same_scopes env env.
Proof. induction env; constructor; [apply same_symbols_refl | assumption]. Qed.

Lemma same_scopes_trans (env1 env2 env3 : list frame) :
  same_scopes env1 env2 -> same_scopes env2 env3 -> same_scopes env1 env3.
Proof.
  intros H12. revert env3.
  induction H12 as [| f1 f2 e1 e2 Hf H12 IH]; intros env3 H23.
  - inversion H23. constructor.
  - inversion H23 as [| ? f3 ? e3 Hf' H23']; subst.
    constructor; [eapply same_symbols_trans; eassumption | now apply IH].
Qed.

(** a name is looked up to the same end in both stacks *)
Lemma same_scopes_get (env env' : list frame) (k : string) :
  same_scopes env env' ->
  same_variable (EnvironmentManager.get env k) (EnvironmentManager.get env' k).
Proof.
  induction 1 as [| f f' e e' Hf He IH]; [exact I |].
  cbn [EnvironmentManager.get]. specialize (Hf k).
  destruct (f !! k), (f' !! k); tauto.
Qed.

(** rebinding a name that is found to a variable declared the same way *)
Lemma set_same_scopes (env : list frame) (k : string) (d d' : VariableDef) :
  EnvironmentManager.get env k = Some d ->
  same_declaration d d' ->
  same_scopes env (snd (EnvironmentManager.set env k d')).
Proof.
  intros Hget Hd. induction env as [| f env IH]; [discriminate |].
  cbn [EnvironmentManager.get] in Hget. cbn [EnvironmentManager.set].
  destruct (f !! k) as [o |] eqn:Hk.
  - subst o. cbn [snd]. constructor; [| apply same_scopes_refl].
    intros j. destruct (decide (k = j)) as [<- | Hne].
    + rewrite Hk, lookup_insert_eq. exact Hd.
    + rewrite lookup_insert_ne by exact Hne.
      destruct (f !! j); [apply same_variable_refl | exact I].
  - destruct (EnvironmentManager.set env k d') as [b env'] eqn:E.
    cbn [snd] in *. constructor; [apply same_symbols_refl | now apply IH].
Qed.

Lemma holds_scoped_trans {A : Type} (env env1 : list frame)
    (m : result (Interpreter * list frame * A)) :
  same_scopes env env1 -> holds (scoped env1) m -> holds (scoped env) m.
Proof.
  intros H. destruct m as [[[st e] a] | | |]; cbn; try exact id.
  unfold scoped. cbn. now apply same_scopes_trans.
Qed.

Lemma holds_scoped2_trans (env env1 : list frame)
    (m : result (Interpreter * list frame)) :
  same_scopes env env1 -> holds (scoped2 env1) m -> holds (scoped2 env) m.
Proof.
  intros H. destruct m as [[st e] | | |]; cbn; try exact id.
  unfold scoped2. cbn. now apply same_scopes_trans.
Qed.

Ltac pure_bind := eapply holds_bind; [apply holds_any | intros ? _].

(** the scopes at hand are those wanted *)
Ltac kept :=
  first [ exact I
        | cbn [holds]; unfold scoped, scoped2; cbn [fst snd];
          first [ assumption
                | apply same_scopes_refl
                | eapply same_scopes_trans; eassumption ] ].

Lemma set_local_or_param_scoped (st : Interpreter) (env : list frame)
    (k : string) (v : Value) :
  holds (fun r => same_scopes env (snd r)) (set_local_or_param st env k v).
Proof.
  unfold set_local_or_param.
  destruct (EnvironmentManager.get env k) as [d |] eqn:Hget;
    [| apply same_scopes_refl].
  pure_bind. cbn [holds snd]. apply (set_same_scopes env k d); [exact Hget |].
  now split.
Qed.

Lemma set_variable_aux_scoped (st : Interpreter) (self : ObjRef)
    (env : list frame) (k : string) (v : option Value) :
  holds (scoped2 env) (set_variable_aux st self env k v).
Proof.
  unfold set_variable_aux. destruct v as [v |]; [| kept].
  eapply holds_bind; [apply set_local_or_param_scoped |].
  intros [b env'] Hsc. cbn [snd] in Hsc.
  destruct b; [kept |].
  pure_bind. destruct a as [[|] st']; kept.
Qed.

Lemma set_target_scoped (st : Interpreter) (self : ObjRef) (env : list frame)
    (target : sexp) (v : option Value) :
  holds (scoped2 env) (set_target st self env target v).
Proof.
  unfold set_target. destruct v as [v |]; [| kept].
  pure_bind. apply set_variable_aux_scoped.
Qed.

(** a declaration of a [let] touches the innermost frame only *)
Lemma add_local_to_env_grown
    (inst : Interpreter -> TemplateClassDef -> list string ->
            result (Interpreter * ClassDef))
    (st : Interpreter) (f : frame) (outer : list frame) (var_def : sexp) :
  holds (fun r => match r with
                  | Some x => grown outer x
                  | None => True
                  end)
        (add_local_to_env inst st (f :: outer) var_def).
Proof.
  unfold add_local_to_env.
  pure_bind. pure_bind. pure_bind. pure_bind. pure_bind.
  destruct a3 as [dv |]; [| exact I].
  pure_bind. cbn [EnvironmentManager.create_new_symbol].
  destruct (f !! a2) eqn:Hk; cbn [bind negb]; [exact I |].
  cbn [EnvironmentManager.set]. rewrite lookup_insert_eq.
  cbn [holds snd]. unfold grown. cbn [snd]. eauto.
Qed.

Lemma add_locals_list_grown
    (inst : Interpreter -> TemplateClassDef -> list string ->
            result (Interpreter * ClassDef))
    (outer : list frame) (var_defs : list sexp) :
  forall (st : Interpreter) (f : frame),
    holds (grown outer) (add_locals_list inst st (f :: outer) var_defs).
Proof.
  induction var_defs as [| var_def rest IH]; intros st f.
  - cbn. unfold grown. cbn. eauto.
  - cbn [add_locals_list].
    eapply holds_bind; [apply add_local_to_env_grown |].
    intros [[st' env'] |] Hg.
    + destruct Hg as [f' Hf']. cbn [snd] in Hf'. subst env'. apply IH.
    + cbn. unfold grown. cbn. eauto.
Qed.

Lemma add_locals_to_env_grown
    (inst : Interpreter -> TemplateClassDef -> list string ->
            result (Interpreter * ClassDef))
    (st : Interpreter) (f : frame) (outer : list frame) (var_defs : sexp) :
  holds (grown outer) (add_locals_to_env inst st (f :: outer) var_defs).
Proof.
  destruct var_defs as [[| ? ?] | l]; try exact I.
  - cbn. unfold grown. cbn. eauto.
  - apply add_locals_list_grown.
Qed.

Section Bodies.

(** the functions of the evaluator at the fuel below, which hand back the
    scopes they are given, up to the values *)
Variable execute_statement_rec :
  Interpreter -> ObjRef -> list frame -> Type_ -> sexp -> result outcome.
Variable execute_while_rec :
  Interpreter -> ObjRef -> list frame -> Type_ -> list sexp -> result outcome.
Variable evaluate_expression_rec :
  Interpreter -> ObjRef -> list frame -> sexp -> result outcome.
Variable call_method_rec :
  Interpreter -> ObjRef -> string -> list (option Value) -> bool ->
  result (Interpreter * (status * option Value)).
Variable instantiate_class_rec :
  Interpreter -> TemplateClassDef -> list string -> result (Interpreter * ClassDef).
Variable instantiate_rec : Interpreter -> string -> result (Interpreter * ObjRef).

Hypothesis statement_scoped :
  forall st self env rt code,
    holds (scoped env) (execute_statement_rec st self env rt code).
Hypothesis while_scoped :
  forall st self env rt code,
    holds (scoped env) (execute_while_rec st self env rt code).
Hypothesis expression_scoped :
  forall st self env expr,
    holds (scoped env) (evaluate_expression_rec st self env expr).

(** bind a computation that hands back the scopes, then go on from the
    scopes it handed back *)
Ltac scoped_bind H :=
  eapply holds_bind; [apply H |];
  let st := fresh "st" in
  let env := fresh "env" in
  let r := fresh "r" in
  let Hsc := fresh "Hsc" in
  intros [[st env] r] Hsc; unfold scoped in Hsc; cbn [fst snd] in Hsc.

Ltac onwards H := eapply holds_scoped_trans; [exact H |].

Lemma evaluate_args_scoped (exprs : list sexp) :
  forall (st : Interpreter) (self : ObjRef) (env : list frame)
         (acc : list (option Value)),
    holds (scoped env)
          (evaluate_args evaluate_expression_rec st self env exprs acc).
Proof.
  induction exprs as [| e rest IH]; intros st self env acc; [kept |].
  cbn [evaluate_args]. scoped_bind expression_scoped.
  destruct r as [s arg]. destruct (status_eqb s STATUS_EXCEPTION); [kept |].
  onwards Hsc. apply IH.
Qed.

Lemma evaluate_receiver_scoped (st : Interpreter) (self : ObjRef)
    (env : list frame) (obj_name : sexp) :
  holds (scoped env)
        (evaluate_receiver evaluate_expression_rec st self env obj_name).
Proof.
  unfold evaluate_receiver. scoped_bind expression_scoped.
  destruct r as [s [v |]]; destruct (status_eqb s STATUS_EXCEPTION);
    try kept.
  destruct (v_value v); kept.
Qed.

Lemma execute_call_aux_scoped (st : Interpreter) (self : ObjRef)
    (env : list frame) (code : list sexp) :
  holds (scoped env)
        (execute_call_aux evaluate_expression_rec call_method_rec st self env code).
Proof.
  unfold execute_call_aux. pure_bind.
  eapply holds_bind with (Q' := scoped env).
  - destruct a as [w | l]; [| apply evaluate_receiver_scoped].
    destruct (String.eqb w ME_DEF); [kept |].
    destruct (String.eqb w SUPER_DEF); [| apply evaluate_receiver_scoped].
    destruct (super_object st self); kept.
  - intros [[st1 env1] target] Hsc. unfold scoped in Hsc. cbn [fst snd] in Hsc.
    destruct target as [r | [obj super_only]]; [kept |].
    eapply holds_bind; [apply evaluate_args_scoped |].
    intros [[st2 env2] args] Hsc2. unfold scoped in Hsc2. cbn [fst snd] in Hsc2.
    destruct args as [r | actual_args]; [kept |].
    destruct obj; try exact I.
    pure_bind. pure_bind. destruct a1 as [st3 r]. kept.
Qed.

Lemma evaluate_token_scoped (st : Interpreter) (self : ObjRef) (env : list frame)
    (expr : string) :
  holds (scoped env) (evaluate_token st self env expr).
Proof.
  unfold evaluate_token.
  destruct (EnvironmentManager.get env expr); [kept |].
  pure_bind. destruct (fields a !! expr); [kept |].
  destruct (create_value expr); [kept |].
  destruct (String.eqb expr ME_DEF); [| exact I].
  pure_bind. kept.
Qed.

Lemma evaluate_operation_scoped (st : Interpreter) (self : ObjRef)
    (env : list frame) (operator : string) (expr : list sexp) :
  holds (scoped env)
        (evaluate_operation evaluate_expression_rec call_method_rec
                            instantiate_rec st self env operator expr).
Proof.
  unfold evaluate_operation.
  destruct (bool_decide (operator ∈ binary_op_list)).
  { pure_bind. scoped_bind expression_scoped. destruct r as [s1 o1].
    destruct (status_eqb s1 STATUS_EXCEPTION); [kept |].
    pure_bind. eapply holds_bind; [apply expression_scoped |].
    intros [[st2 env2] [s2 o2]] Hsc2. unfold scoped in Hsc2.
    cbn [fst snd] in Hsc2.
    destruct (status_eqb s2 STATUS_EXCEPTION); [kept |].
    pure_bind. kept. }
  destruct (bool_decide (operator ∈ unary_op_list)).
  { pure_bind. scoped_bind expression_scoped. destruct r as [s1 o1].
    destruct (status_eqb s1 STATUS_EXCEPTION); [kept |].
    destruct o1 as [a1 |]; [| exact I].
    destruct (Type_eqb (v_type a1) BOOL_TYPE_CONST); [| kept].
    destruct (unary_ops_bool operator); [| exact I].
    pure_bind. kept. }
  destruct (String.eqb operator CALL_DEF); [apply execute_call_aux_scoped |].
  destruct (String.eqb operator NEW_DEF); [| kept].
  pure_bind. destruct a as [st1 v]. kept.
Qed.

Lemma evaluate_expression_body_scoped (st : Interpreter) (self : ObjRef)
    (env : list frame) (expr : sexp) :
  holds (scoped env)
        (evaluate_expression_body evaluate_expression_rec call_method_rec
                                  instantiate_rec st self env expr).
Proof.
  destruct expr as [t | l]; [apply evaluate_token_scoped |].
  cbn [evaluate_expression_body]. pure_bind.
  destruct a; [apply evaluate_operation_scoped | kept].
Qed.

Lemma execute_block_scoped (statements : list sexp) :
  forall (st : Interpreter) (self : ObjRef) (env : list frame) (rt : Type_)
         (last : status * option Value),
    holds (scoped env)
          (execute_block execute_statement_rec st self env rt statements last).
Proof.
  induction statements as [| s rest IH]; intros st self env rt last; [kept |].
  cbn [execute_block]. scoped_bind statement_scoped. destruct r as [s1 v1].
  destruct (status_eqb s1 STATUS_RETURN || status_eqb s1 STATUS_EXCEPTION);
    [kept |].
  onwards Hsc. apply IH.
Qed.

Lemma execute_begin_scoped (st : Interpreter) (self : ObjRef) (env : list frame)
    (rt : Type_) (code : list sexp) (has_vardef : bool) :
  holds (scoped env)
        (execute_begin execute_statement_rec instantiate_class_rec st self env rt
                       code has_vardef).
Proof.
  unfold execute_begin. destruct has_vardef; [| apply execute_block_scoped].
  pure_bind. unfold EnvironmentManager.block_nest.
  eapply holds_bind; [apply add_locals_to_env_grown |].
  intros [st1 env1] [f1 Hf1]. cbn [snd] in Hf1. subst env1.
  eapply holds_bind; [apply execute_block_scoped |].
  intros [[st2 env2] r] Hsc2. unfold scoped in Hsc2. cbn [fst snd] in Hsc2.
  inversion Hsc2 as [| ? f2 ? env2' Hf Houter]; subst.
  cbn. exact Houter.
Qed.

Lemma execute_set_scoped (st : Interpreter) (self : ObjRef) (env : list frame)
    (code : list sexp) :
  holds (scoped env) (execute_set evaluate_expression_rec st self env code).
Proof.
  unfold execute_set. pure_bind. scoped_bind expression_scoped.
  destruct r as [s v]. destruct (status_eqb s STATUS_EXCEPTION); [kept |].
  pure_bind. eapply holds_bind; [apply set_target_scoped |].
  intros [st2 env2] Hsc2. unfold scoped2 in Hsc2. cbn [snd] in Hsc2. kept.
Qed.

Lemma execute_return_scoped (st : Interpreter) (self : ObjRef) (env : list frame)
    (rt : Type_) (code : list sexp) :
  holds (scoped env)
        (execute_return evaluate_expression_rec st self env rt code).
Proof.
  unfold execute_return. destruct (length code =? 1)%nat; [kept |].
  pure_bind. scoped_bind expression_scoped.
  destruct r as [s v]. destruct (status_eqb s STATUS_EXCEPTION); [kept |].
  pure_bind. destruct a0; [| exact I]. pure_bind. kept.
Qed.

Lemma execute_try_scoped (st : Interpreter) (self : ObjRef) (env : list frame)
    (rt : Type_) (code : list sexp) :
  holds (scoped env) (execute_try execute_statement_rec st self env rt code).
Proof.
  unfold execute_try. pure_bind. scoped_bind statement_scoped.
  destruct (status_eqb (fst r) STATUS_EXCEPTION); [| kept].
  unfold EnvironmentManager.block_nest.
  cbn [EnvironmentManager.create_new_symbol]. rewrite lookup_empty. cbn [bind].
  cbn [EnvironmentManager.set]. rewrite lookup_insert_eq. cbn [snd].
  pure_bind.
  eapply holds_bind; [apply statement_scoped |].
  intros [[st2 env2] r2] Hsc2. unfold scoped in Hsc2. cbn [fst snd] in Hsc2.
  inversion Hsc2 as [| ? f2 ? env2' Hf Houter]; subst.
  cbn. unfold scoped. cbn. eapply same_scopes_trans; eassumption.
Qed.

Lemma execute_throw_scoped (st : Interpreter) (self : ObjRef) (env : list frame)
    (code : list sexp) :
  holds (scoped env) (execute_throw evaluate_expression_rec st self env code).
Proof.
  unfold execute_throw. pure_bind. scoped_bind expression_scoped.
  destruct r as [s v]. destruct (status_eqb s STATUS_EXCEPTION); [kept |].
  destruct v as [v |]; [| exact I].
  destruct (negb (String.eqb (type_name (v_type v)) STRING_DEF)); kept.
Qed.

Lemma print_operands_scoped (exprs : list sexp) :
  forall (st : Interpreter) (self : ObjRef) (env : list frame) (line : string),
    holds (scoped env)
          (print_operands evaluate_expression_rec st self env exprs line).
Proof.
  induction exprs as [| e rest IH]; intros st self env line; [kept |].
  cbn [print_operands]. scoped_bind expression_scoped. destruct r as [s term].
  destruct (status_eqb s STATUS_EXCEPTION); [kept |].
  destruct term as [t |]; [| exact I].
  onwards Hsc. apply IH.
Qed.

Lemma execute_print_scoped (st : Interpreter) (self : ObjRef) (env : list frame)
    (code : list sexp) :
  holds (scoped env) (execute_print evaluate_expression_rec st self env code).
Proof.
  unfold execute_print. eapply holds_bind; [apply print_operands_scoped |].
  intros [[st1 env1] r] Hsc. unfold scoped in Hsc. cbn [fst snd] in Hsc.
  destruct r; kept.
Qed.

Lemma execute_input_scoped (st : Interpreter) (self : ObjRef) (env : list frame)
    (code : list sexp) (get_string : bool) :
  holds (scoped env) (execute_input st self env code get_string).
Proof.
  unfold execute_input. destruct (get_input st) as [st1 inp].
  pure_bind. pure_bind. eapply holds_bind; [apply set_target_scoped |].
  intros [st2 env2] Hsc2. unfold scoped2 in Hsc2. cbn [snd] in Hsc2. kept.
Qed.

Lemma execute_if_scoped (st : Interpreter) (self : ObjRef) (env : list frame)
    (rt : Type_) (code : list sexp) :
  holds (scoped env)
        (execute_if execute_statement_rec evaluate_expression_rec st self env rt code).
Proof.
  unfold execute_if. pure_bind. scoped_bind expression_scoped.
  destruct r as [s c]. destruct (status_eqb s STATUS_EXCEPTION); [kept |].
  pure_bind. onwards Hsc.
  destruct (truthy (v_value a0)); [pure_bind; apply statement_scoped |].
  destruct (length code =? 4)%nat; [pure_bind; apply statement_scoped | kept].
Qed.

Lemma execute_while_body_scoped (st : Interpreter) (self : ObjRef)
    (env : list frame) (rt : Type_) (code : list sexp) :
  holds (scoped env)
        (execute_while_body execute_statement_rec execute_while_rec
                            evaluate_expression_rec st self env rt code).
Proof.
  unfold execute_while_body. pure_bind. scoped_bind expression_scoped.
  destruct r as [s c]. destruct (status_eqb s STATUS_EXCEPTION); [kept |].
  pure_bind. destruct (negb (truthy (v_value a0))); [kept |].
  pure_bind. onwards Hsc.
  eapply holds_bind; [apply statement_scoped |].
  intros [[st2 env2] [s2 v2]] Hsc2. unfold scoped in Hsc2. cbn [fst snd] in Hsc2.
  destruct (status_eqb s2 STATUS_EXCEPTION || status_eqb s2 STATUS_RETURN);
    [kept |].
  onwards Hsc2. apply while_scoped.
Qed.

Lemma execute_statement_body_scoped (st : Interpreter) (self : ObjRef)
    (env : list frame) (rt : Type_) (code : sexp) :
  holds (scoped env)
        (execute_statement_body execute_statement_rec execute_while_rec
           evaluate_expression_rec call_method_rec instantiate_class_rec
           st self env rt code).
Proof.
  unfold execute_statement_body. pure_bind. pure_bind.
  repeat match goal with
         | |- holds _ (if ?b then _ else _) => destruct b
         end;
    first [ apply execute_begin_scoped | apply execute_set_scoped
          | apply execute_if_scoped | apply execute_call_aux_scoped
          | apply while_scoped | apply execute_return_scoped
          | apply execute_throw_scoped | apply execute_try_scoped
          | apply execute_input_scoped | apply execute_print_scoped
          | exact I ].
Qed.

End Bodies.

(** every statement and every expression hands back the scopes it was given,
    up to the values of the variables *)
Lemma evaluator_keeps_scopes (fuel : nat) :
  (forall st self env rt code,
      holds (scoped env) (execute_statement fuel st self env rt code))
  /\ (forall st self env rt code,
         holds (scoped env) (execute_while fuel st self env rt code))
  /\ (forall st self env expr,
         holds (scoped env) (evaluate_expression fuel st self env expr)).
Proof.
  induction fuel as [| n (IHs & IHw & IHe)]; [now repeat split |].
  repeat split; intros.
  - apply execute_statement_body_scoped; assumption.
  - apply execute_while_body_scoped; assumption.
  - apply evaluate_expression_body_scoped; assumption.
Qed.

(** X30: a statement or an expression that runs to its end declares no
    variable in the scopes it was given, removes none, and changes the
    declared type of none: the scopes handed back have the same symbols,
    frame by frame, each with the type and the name it was declared with;
    so every name is found afterwards exactly when it was found before, with
    the same declared type. Only the values may differ. *)
Theorem declarations_outlive_the_statement :
  forall (fuel : nat) (st st' : Interpreter) (self : ObjRef)
         (env env' : list frame) (return_type : Type_) (code : sexp)
         (r : status * option Value),
    execute_statement fuel st self env return_type code = Ok (st', env', r)
    \/ evaluate_expression fuel st self env code = Ok (st', env', r) ->
    same_scopes env env'
    /\ forall name : string,
         match EnvironmentManager.get env name,
               EnvironmentManager.get env' name with
         | Some d, Some d' => var_type d' = var_type d /\ var_name d' = var_name d
         | None, None => True
         | _, _ => False
         end.
Proof.
  intros fuel st st' self env env' rt code r Hrun.
  assert (Hsc : same_scopes env env').
  { destruct (evaluator_keeps_scopes fuel) as (Hs & _ & He).
    destruct Hrun as [Hrun | Hrun].
    - specialize (Hs st self env rt code). now rewrite Hrun in Hs.
    - specialize (He st self env code). now rewrite Hrun in He. }
  split; [exact Hsc |].
  intros name. exact (same_scopes_get env env' name Hsc).
Qed.

End Declarations.

(** ** Instances of the properties on the reference implementation *)

Lemma unknown_operator_yields_no_value_witness :
  evaluate_expression 1 Examples.bare_session Examples.bare_object
    EnvironmentManager.new (Lst [Tok "foo"; Tok "1"; Tok "2"])
  = Ok (Examples.bare_session, EnvironmentManager.new, (STATUS_PROCEED, None)).
Proof.
  apply unknown_operator_yields_no_value.
  - apply (bool_decide_eq_false_1 _). reflexivity.
  - apply (bool_decide_eq_false_1 _). reflexivity.
  - discriminate.
  - discriminate.
Defined.

Lemma division_rounds_toward_negative_infinity_witness :
  evaluate_expression 2 Examples.bare_session Examples.bare_object
    EnvironmentManager.new (Lst [Tok "/"; Tok "-7"; Tok "2"])
  = Ok (Examples.bare_session, EnvironmentManager.new,
        (STATUS_PROCEED, Some (int_value (-4))))
  /\ ((0 < 2 /\ 2 * (-7 / 2) <= -7 < 2 * (-7 / 2) + 2)
      \/ (2 < 0 /\ 2 * (-7 / 2) + 2 < -7 <= 2 * (-7 / 2)))%Z.
Proof.
  apply (division_rounds_toward_negative_infinity 1 Examples.bare_session
           Examples.bare_session Examples.bare_session Examples.bare_object
           EnvironmentManager.new EnvironmentManager.new EnvironmentManager.new
           (Tok "-7") (Tok "2") (-7) 2).
  - reflexivity.
  - reflexivity.
  - lia.
Defined.

Lemma print_emits_one_line_witness :
  operands_evaluate 1 Examples.bare_object Examples.bare_session
    EnvironmentManager.new
    [Examples.lit "n = "; Tok "5"; Tok "true"]
    [string_value "n = "; int_value 5; bool_value true]
    Examples.bare_session EnvironmentManager.new
  /\ execute_statement 2 Examples.bare_session Examples.bare_object
       EnvironmentManager.new (mkType NOTHING_DEF)
       (Lst [Tok "print"; Examples.lit "n = "; Tok "5"; Tok "true"])
     = Ok (host_output Examples.bare_session "n = 5true",
           EnvironmentManager.new, (STATUS_PROCEED, None)).
Proof.
  assert (H : operands_evaluate 1 Examples.bare_object Examples.bare_session
                EnvironmentManager.new
                [Examples.lit "n = "; Tok "5"; Tok "true"]
                [string_value "n = "; int_value 5; bool_value true]
                Examples.bare_session EnvironmentManager.new).
  { repeat (eapply operands_next; [reflexivity |]). apply operands_none. }
  split; [exact H |].
  exact (proj1 (print_emits_one_line 1 _ _ _ _ _ (mkType NOTHING_DEF) _ _ H)).
Defined.

(** C8 as stated fails: the null literal is of no showable primitive type,
    and printing it is no type error; the host gets the line None. *)
Lemma print_accepts_a_null :
  evaluate_expression 1 Examples.bare_session Examples.bare_object
    EnvironmentManager.new (Tok "null")
  = Ok (Examples.bare_session, EnvironmentManager.new,
        (STATUS_PROCEED, Some (mkValue (mkType NULL_DEF) None)))
  /\ (NULL_DEF ∉ Reference.primitives)
  /\ execute_statement 2 Examples.bare_session Examples.bare_object
       EnvironmentManager.new (mkType NOTHING_DEF) (Lst [Tok "print"; Tok "null"])
     = Ok (host_output Examples.bare_session "None",
           EnvironmentManager.new, (STATUS_PROCEED, None)).
Proof.
  split; [reflexivity |].
  split; [apply (bool_decide_eq_false_1 _); reflexivity | reflexivity].
Qed.

Lemma nulls_of_different_types_compare_witness :
  evaluate_expression 2 Examples.kennel_session (mkRef 0 0) EnvironmentManager.new
    (Lst [Tok "=="; Tok "d"; Tok "c"])
  = Error TYPE_ERROR
  /\ evaluate_expression 2 Examples.kennel_session (mkRef 0 0)
       EnvironmentManager.new (Lst [Tok "!="; Tok "d"; Tok "c"])
     = Error TYPE_ERROR
  /\ evaluate_expression 1 Examples.kennel_session (mkRef 0 0)
       EnvironmentManager.new (Tok "d")
     = Ok (Examples.kennel_session, EnvironmentManager.new,
           (STATUS_PROCEED, Some (mkValue (mkType "Dog") None)))
  /\ evaluate_expression 1 Examples.kennel_session (mkRef 0 0)
       EnvironmentManager.new (Tok "c")
     = Ok (Examples.kennel_session, EnvironmentManager.new,
           (STATUS_PROCEED, Some (mkValue (mkType "Cat") None)))
  /\ execute_statement 2 Examples.kennel_session (mkRef 0 0)
       EnvironmentManager.new (mkType NOTHING_DEF) (Lst [Tok PRINT_DEF; Tok "d"])
     = Ok (host_output Examples.kennel_session "None", EnvironmentManager.new,
           (STATUS_PROCEED, None))
  /\ execute_statement 2 Examples.kennel_session (mkRef 0 0)
       EnvironmentManager.new (mkType NOTHING_DEF) (Lst [Tok PRINT_DEF; Tok "c"])
     = Ok (host_output Examples.kennel_session "None", EnvironmentManager.new,
           (STATUS_PROCEED, None)).
Proof.
  eapply (nulls_of_different_types_compare 0 Examples.kennel_session (mkRef 0 0)
            EnvironmentManager.new (mkType NOTHING_DEF) _ "d" "c"
            (mkVariableDef (mkType "Dog") "d" (Some (mkValue (mkType NULL_DEF) None)))
            (mkVariableDef (mkType "Cat") "c" (Some (mkValue (mkType NULL_DEF) None)))).
  - reflexivity.
  - reflexivity.
  - reflexivity.
  - reflexivity.
  - reflexivity.
  - reflexivity.
  - reflexivity.
  - vm_compute. discriminate.
  - vm_compute. discriminate.
  - vm_compute. discriminate.
Defined.

(** C7 as stated fails: comparing the null of the field declared [Dog] with
    the null of the field declared [Cat] does not come out as not-equal; it
    is a type error. *)
Lemma comparing_unrelated_nulls_is_a_type_error :
  evaluate_expression 2 Examples.kennel_session (mkRef 0 0) EnvironmentManager.new
    (Lst [Tok "=="; Tok "d"; Tok "c"])
  = Error TYPE_ERROR
  /\ evaluate_expression 2 Examples.kennel_session (mkRef 0 0)
       EnvironmentManager.new (Lst [Tok "!="; Tok "d"; Tok "c"])
     = Error TYPE_ERROR.
Proof. split; reflexivity. Qed.

Lemma dispatch_first_match_from_anchor_witness :
  dispatch Examples.litter_session (mkRef 1 0) "f" [] false
  = Ok (Some (mkRef 1 1)).
Proof.
  refine (proj1 (dispatch_first_match_from_anchor 0 Examples.litter_session
                   (mkRef 1 0) "f" [] _ 1 1 _ _ _ _ _ _ _ _ _)).
  - reflexivity.
  - cbn. lia.
  - reflexivity.
  - reflexivity.
  - reflexivity.
  - reflexivity.
  - intros [| i] li Hi Hli; [| lia].
    injection Hli as <-. reflexivity.
Defined.

(** C1 as stated fails: in a [Dog], whose most derived level has the method
    [g], the call [(call me g)] made by the method [f] of the base level
    [Animal] does not run [g]: the base level does not know [g], and the call
    is a name error.  And a call through [super] does not scan from the
    anchor: in a [C], whose most derived level has [speak], the call made on
    the level of [B] as a super call chooses the level of [B]. *)
Lemma call_to_method_of_subclass_is_name_error :
  match get_level Examples.litter_session (mkRef 1 0) with
  | Ok anchor_level => method_matches Examples.litter_session anchor_level "g" []
  | _ => false
  end = true
  /\ dispatch Examples.litter_session (mkRef 1 1) "g" [] false = Error NAME_ERROR
  /\ call_method 3 Examples.litter_session (mkRef 1 1) "g" [] false
     = Error NAME_ERROR
  /\ run 8 Examples.litter [] = Error NAME_ERROR
  /\ match get_level Examples.parade_session (mkRef 1 0) with
     | Ok anchor_level =>
         method_matches Examples.parade_session anchor_level "speak" []
     | _ => false
     end = true
  /\ dispatch Examples.parade_session (mkRef 1 1) "speak" [] true
     = Ok (Some (mkRef 1 1)).
Proof. repeat split; reflexivity. Qed.

Lemma super_call_searches_below_executing_level_witness :
  super_object Examples.parade_session (mkRef 1 0) = Some (mkRef 1 1)
  /\ evaluate_expression 4 Examples.parade_session (mkRef 1 0)
       EnvironmentManager.new (Lst [Tok CALL_DEF; Tok SUPER_DEF; Tok "speak"])
     = (let! '(st2, r) :=
          call_method 3 Examples.parade_session (mkRef 1 1) "speak" [] true in
        Ok (st2, EnvironmentManager.new, r)).
Proof.
  split; [reflexivity |].
  refine (proj1 (super_call_searches_below_executing_level 3
                   Examples.parade_session Examples.parade_session
                   (mkRef 1 0) (mkRef 1 1) EnvironmentManager.new
                   EnvironmentManager.new (mkType NOTHING_DEF) "speak" [] []
                   _ _)).
  - reflexivity.
  - reflexivity.
Defined.

(** across three levels: [C.speak] passes on to [B.speak], which passes on to
    [A.speak]; no method is entered twice *)
Example super_chain_of_three :
  Examples.lines_of (run 14 Examples.parade []) = Ok ["C"; "B"; "A"].
Proof. reflexivity. Qed.

Lemma return_hands_back_value_or_default_witness :
  evaluate_expression 1 Examples.bare_session Examples.bare_object
    EnvironmentManager.new (Tok "null")
  = Ok (Examples.bare_session, EnvironmentManager.new,
        (STATUS_PROCEED, Some (mkValue (mkType NULL_DEF) None)))
  /\ execute_statement 2 Examples.bare_session Examples.bare_object
       EnvironmentManager.new (mkType "main") (Lst [Tok RETURN_DEF; Tok "null"])
     = Ok (Examples.bare_session, EnvironmentManager.new,
           (STATUS_RETURN, Some (mkValue (mkType "main") None))).
Proof.
  assert (H : evaluate_expression 1 Examples.bare_session Examples.bare_object
                EnvironmentManager.new (Tok "null")
              = Ok (Examples.bare_session, EnvironmentManager.new,
                    (STATUS_PROCEED, Some (mkValue (mkType NULL_DEF) None))))
    by reflexivity.
  split; [exact H |].
  exact (proj1 (proj2 (return_hands_back_value_or_default 1 _ _ _ _ _
                         (mkType "main") _ _ H))).
Defined.

(** a bare return from an [int] method gives the caller 0, running off the
    end of a [bool] method gives false; a null returned from an [int]
    method is a type error *)
Example defaults_of_return_types :
  Examples.lines_of
    (let! '(st, _) :=
       call_method 6 (Examples.entry_session 1 Examples.defaults) (mkRef 0 0)
                   "f" [] false in
     Ok st) = Ok []
  /\ (let! '(_, r) :=
        call_method 6 (Examples.entry_session 1 Examples.defaults) (mkRef 0 0)
                    "f" [] false in
      Ok r) = Ok (STATUS_PROCEED, Some (int_value 0))
  /\ (let! '(_, r) :=
        call_method 6 (Examples.entry_session 1 Examples.defaults) (mkRef 0 0)
                    "g" [] false in
      Ok r) = Ok (STATUS_PROCEED, Some (bool_value false))
  /\ call_method 6 (Examples.entry_session 1 Examples.defaults) (mkRef 0 0)
                 "h" [] false
     = Error TYPE_ERROR.
Proof. repeat split; reflexivity. Qed.

Lemma try_runs_catch_block_on_exception_witness :
  execute_statement 2 Examples.bare_session Examples.bare_object
    EnvironmentManager.new (mkType NOTHING_DEF)
    (Lst [Tok THROW_DEF; Examples.lit "oops"])
  = Ok (Examples.bare_session, EnvironmentManager.new,
        (STATUS_EXCEPTION, Some (string_value "oops")))
  /\ execute_statement 3 Examples.bare_session Examples.bare_object
       EnvironmentManager.new (mkType NOTHING_DEF)
       (Lst [Tok TRY_DEF; Lst [Tok THROW_DEF; Examples.lit "oops"];
             Lst [Tok PRINT_DEF; Tok EXCEPTION_VARIABLE_DEF]])
     = Ok (host_output Examples.bare_session "oops", EnvironmentManager.new,
           (STATUS_PROCEED, None)).
Proof.
  assert (H : execute_statement 2 Examples.bare_session Examples.bare_object
                EnvironmentManager.new (mkType NOTHING_DEF)
                (Lst [Tok THROW_DEF; Examples.lit "oops"])
              = Ok (Examples.bare_session, EnvironmentManager.new,
                    (STATUS_EXCEPTION, Some (string_value "oops"))))
    by reflexivity.
  split; [exact H |].
  exact (proj1 (proj2 (proj1 (proj2 (try_runs_catch_block_on_exception 2
                                        _ _ _ _ _ _ _
                                        (Lst [Tok PRINT_DEF;
                                              Tok EXCEPTION_VARIABLE_DEF])
                                        _ _ H)) eq_refl))).
Defined.

(** an exception thrown three calls deep and caught at the top binds the
    exception variable to what was thrown; thrown again and not caught, it
    ends the entry method with the status EXCEPTION, and no statement after
    any of the calls runs *)
Example exception_three_calls_deep :
  (let! '(st, r) := call_method 20 Examples.deep_session (mkRef 0 0) "main" [] false in
   Ok (output st, r))
  = Ok (["caught oops"], (STATUS_EXCEPTION, Some (string_value "oops")))
  /\ Examples.lines_of (run 20 Examples.deep []) = Ok ["caught oops"].
Proof. split; reflexivity. Qed.

Lemma run_starts_at_entry_method_witness :
  run 2 Examples.no_entry_method [] = Error NAME_ERROR.
Proof.
  refine (proj2 (proj2 (run_starts_at_entry_method 1 Examples.no_entry_method []
                          _ _ _ _) _ _) _).
  - reflexivity.
  - reflexivity.
  - reflexivity.
  - intros [| i] l Hl.
    + injection Hl as <-. reflexivity.
    + vm_compute in Hl. discriminate.
Defined.

(** C6 as stated fails: a program without an entry class aborts with a type
    error, not a name error. *)
Lemma missing_entry_class_is_type_error :
  run 2 Examples.no_entry_class [] = Error TYPE_ERROR.
Proof. reflexivity. Qed.

Lemma self_referential_blueprint_instantiates_witness :
  instantiate 2 Examples.linked_session "Node@int" <> OutOfFuel.
Proof.
  refine (proj1 (proj2 (proj2
            (self_referential_blueprint_instantiates 0 Examples.linked_session
               _ "Node" "int" "Node@int" [] _ _ _ _ _)))).
  - reflexivity.
  - reflexivity.
  - reflexivity.
  - reflexivity.
Defined.

(** the node class of integers is built with two units of fuel and
    registered under its mangled name; a program that declares, makes and
    uses such a node runs to its end *)
Example node_of_int_is_built :
  (let! '(st, _) := instantiate 2 Examples.linked_session "Node@int" in
   Ok (bool_decide (is_Some (class_index st !! "Node@int")))) = Ok true
  /\ instantiate 1 Examples.linked_session "Node@int" = OutOfFuel
  /\ Examples.lines_of (run 12 Examples.linked []) = Ok ["made a node: true"].
Proof. repeat split; reflexivity. Qed.

(** the node blueprint names, as the only type with type arguments, its own
    type [Node@T]: the declaration of the node class of integers names no
    instantiated blueprint but [Node@int] *)
Lemma declaration_of_blueprint_witness :
  exists (t : TemplateClassDef) (class_source : list sexp),
    template_class_index Examples.linked_session !! "Node" = Some t
    /\ refers_to_own_type "Node" ["T"] (drop 3 (t_class_source t)) = true
    /\ instantiate_source t ["int"] = Ok class_source
    /\ refers_only_to_itself "Node@int" class_source = true.
Proof.
  pose (t := mkTemplateClassDef "Node"
               [Tok "tclass"; Tok "Node"; Lst [Tok "T"];
                Lst [Tok "field"; Tok "Node@T"; Tok "next"; Tok "null"];
                Lst [Tok "field"; Tok "T"; Tok "val"];
                Lst [Tok "method"; Tok "Node@T"; Tok "rest"; Lst [];
                     Lst [Tok "return"; Tok "next"]]]
               [Tok "T"]).
  destruct (declaration_of_blueprint t "Node" "int" ["T"] [] (Tok "tclass")
              (Lst [Tok "T"]) (drop 3 (t_class_source t)))
    as (class_source & _ & Hsrc & Honly); try reflexivity.
  - apply NoDup_singleton.
  - rewrite list_elem_of_singleton. discriminate.
  - exists t, class_source.
    split; [reflexivity | split; [reflexivity | split; [exact Hsrc | exact Honly]]].
Defined.

Lemma declared_symbol_reads_back_witness :
  exists env2 : list frame,
    EnvironmentManager.set [<["x" := None]> ∅] "x"
      (mkVariableDef INT_TYPE_CONST "x" (Some (int_value 5)))
    = (true, env2)
    /\ EnvironmentManager.get env2 "x"
       = Some (mkVariableDef INT_TYPE_CONST "x" (Some (int_value 5)))
    /\ (forall other : string,
           other <> "x" ->
           EnvironmentManager.get env2 other
           = EnvironmentManager.get EnvironmentManager.new other)
    /\ EnvironmentManager.create_new_symbol env2 "x" = Ok (false, env2).
Proof.
  apply (declared_symbol_reads_back EnvironmentManager.new).
  reflexivity.
Defined.

Lemma class_members_are_distinct_witness :
  exists (st' : Interpreter) (c : ClassDef),
    ClassDef_init 1 (initial []) Samples.point = Ok (st', c)
    /\ (idx Samples.point 1 >>= as_tok = Ok (get_name c)
        /\ map var_name (get_fields c)
           = declared FIELD_DEF (drop 2 Samples.point)
        /\ map method_name (get_methods c)
           = declared METHOD_DEF (drop 2 Samples.point)
        /\ NoDup (map var_name (get_fields c))
        /\ NoDup (map method_name (get_methods c))).
Proof.
  eexists. eexists. split; [reflexivity |].
  eapply (class_members_are_distinct 1 (initial [])). reflexivity.
Defined.

Lemma instance_has_the_declared_members_witness :
  exists (st' : Interpreter) (c : ClassDef),
    ClassDef_init 1 (initial []) Samples.point = Ok (st', c)
    /\ exists (l : ObjectDef) (supers : list ObjectDef),
         ObjectDef_init c = l :: supers
         /\ class_def l = c
         /\ (forall f : VariableDef,
                f ∈ get_fields c -> fields l !! var_name f = Some f)
         /\ (forall m : MethodDef,
                m ∈ get_methods c -> methods l !! method_name m = Some m)
         /\ (forall k : string,
                k ∉ declared FIELD_DEF (drop 2 Samples.point) ->
                fields l !! k = None)
         /\ (forall k : string,
                k ∉ declared METHOD_DEF (drop 2 Samples.point) ->
                methods l !! k = None).
Proof.
  eexists. eexists. split; [reflexivity |].
  eapply (instance_has_the_declared_members 1 (initial [])). reflexivity.
Defined.

Lemma levels_follow_inheritance_witness :
  let animal := mkClassDef "Animal" [] [] None in
  let dog := mkClassDef "Dog" [] [] (Some animal) in
  let l := mkObjectDef dog ∅ ∅ in
  ObjectDef_init dog !! 0 = Some l
  /\ (0 = 0 -> class_def l = dog)
  /\ fields l = instantiate_fields (class_def l)
  /\ methods l = map_method_names_to_method_definitions (class_def l)
  /\ exists l' : ObjectDef,
       ObjectDef_init dog !! 1 = Some l' /\ class_def l' = animal.
Proof.
  split; [reflexivity |].
  apply (levels_follow_inheritance
           (mkClassDef "Dog" [] [] (Some (mkClassDef "Animal" [] [] None))) 0).
  reflexivity.
Defined.

Lemma replace_leaves_other_tokens_witness :
  replace {["T" := "int"]} (Lst [Tok "field"; Tok "bool"; Tok "Pair@U@bool"])
  = Lst [Tok "field"; Tok "bool"; Tok "Pair@U@bool"].
Proof.
  apply replace_leaves_other_tokens. reflexivity.
Defined.

Lemma wrong_number_of_type_arguments_is_type_error_witness :
  instantiate 0 Examples.linked_session "Node@int@bool" = Error TYPE_ERROR.
Proof.
  refine (wrong_number_of_type_arguments_is_type_error 0 Examples.linked_session
            _ "Node@int@bool" "Node" ["int"; "bool"] _ _ _ _).
  - reflexivity.
  - reflexivity.
  - reflexivity.
  - cbn. lia.
Defined.

Lemma call_of_unknown_method_is_name_error_witness :
  call_method 1 Examples.litter_session (mkRef 1 1) "g" (map Some []) false
  = Error NAME_ERROR.
Proof.
  refine (call_of_unknown_method_is_name_error 0 Examples.litter_session
            (mkRef 1 1) "g" [] false _ _ _).
  - reflexivity.
  - intros [| [| [| i]]] li Hle Hli; cbn in Hle; try lia.
    + injection Hli as <-. reflexivity.
    + discriminate.
    + discriminate.
Defined.

Lemma arguments_are_bound_to_distinct_parameters_witness :
  let formals := [mkVariableDef INT_TYPE_CONST "a" None;
                  mkVariableDef STRING_TYPE_CONST "b" None] in
  let args := [int_value 1; string_value "x"] in
  (NoDup (map var_name formals) ->
   exists f : frame,
     bind_params EnvironmentManager.new formals (map Some args) = Ok (Some [f])
     /\ (forall (i : nat) (formal : VariableDef) (a : Value),
            formals !! i = Some formal -> args !! i = Some a ->
            EnvironmentManager.get [f] (var_name formal)
            = Some (set_value formal a))
     /\ (forall x : string,
            x ∉ map var_name formals -> EnvironmentManager.get [f] x = None))
  /\ (~ NoDup (map var_name formals) ->
      bind_params EnvironmentManager.new formals (map Some args)
      = Error NAME_ERROR).
Proof.
  apply (arguments_are_bound_to_distinct_parameters
           [mkVariableDef INT_TYPE_CONST "a" None;
            mkVariableDef STRING_TYPE_CONST "b" None]
           [int_value 1; string_value "x"]).
  reflexivity.
Defined.

Lemma objects_keep_their_shape_witness :
  exists (st' : Interpreter) (l : ObjectDef),
    execute_statement 2 Samples.estate_session (mkRef 0 0) EnvironmentManager.new
      (mkType NOTHING_DEF) (Lst [Tok "set"; Tok "n"; Tok "5"])
    = Ok (st', EnvironmentManager.new, (STATUS_PROCEED, None))
    /\ get_level Samples.estate_session (mkRef 0 0) = Ok l
    /\ exists l' : ObjectDef,
         get_level st' (mkRef 0 0) = Ok l'
         /\ same_shape l l'
         /\ super_object st' (mkRef 0 0)
            = super_object Samples.estate_session (mkRef 0 0).
Proof.
  eexists. eexists. split; [reflexivity |]. split; [reflexivity |].
  eapply (objects_keep_their_shape 2 Samples.estate_session _ (mkRef 0 0)
            EnvironmentManager.new EnvironmentManager.new (mkType NOTHING_DEF)
            (Lst [Tok "set"; Tok "n"; Tok "5"]) (STATUS_PROCEED, None)).
  - reflexivity.
  - reflexivity.
Defined.


Lemma printed_lines_stay_witness :
  let st := host_output Examples.bare_session "first" in
  execute_statement 2 st Examples.bare_object EnvironmentManager.new
    (mkType NOTHING_DEF) (Lst [Tok "print"; Examples.lit "second"])
  = Ok (host_output st "second", EnvironmentManager.new, (STATUS_PROCEED, None))
  /\ output st `prefix_of` output (host_output st "second")
  /\ input (host_output st "second") `suffix_of` input st.
Proof.
  split; [reflexivity |].
  apply (printed_lines_stay 2 (host_output Examples.bare_session "first")
           (host_output (host_output Examples.bare_session "first") "second")
           Examples.bare_object EnvironmentManager.new EnvironmentManager.new
           (mkType NOTHING_DEF) (Lst [Tok "print"; Examples.lit "second"])
           (STATUS_PROCEED, None)).
  reflexivity.
Defined.

Lemma scopes_are_balanced_witness :
  exists (st' : Interpreter) (env' : list frame),
    execute_statement 3 Examples.bare_session Examples.bare_object
      EnvironmentManager.new (mkType NOTHING_DEF)
      (Lst [Tok "let"; Lst [Lst [Tok "int"; Tok "x"; Tok "1"]];
            Lst [Tok "print"; Tok "x"]])
    = Ok (st', env', (STATUS_PROCEED, None))
    /\ length env' = length EnvironmentManager.new.
Proof.
  eexists. eexists. split; [reflexivity |].
  eapply (scopes_are_balanced 3 Examples.bare_session _ Examples.bare_object
            EnvironmentManager.new _ (mkType NOTHING_DEF)
            (Lst [Tok "let"; Lst [Lst [Tok "int"; Tok "x"; Tok "1"]];
                  Lst [Tok "print"; Tok "x"]])
            (STATUS_PROCEED, None)).
  left. reflexivity.
Defined.



Lemma assignment_touches_one_variable_witness :
  exists st' : Interpreter,
    set_variable_aux Samples.estate_session (mkRef 0 0) EnvironmentManager.new
      "n" (Some (int_value 5))
    = Ok (st', EnvironmentManager.new)
    /\ (forall other : string,
           other <> "n" ->
           EnvironmentManager.get EnvironmentManager.new other
           = EnvironmentManager.get EnvironmentManager.new other)
    /\ (forall o : ObjRef,
           o <> mkRef 0 0 ->
           get_level st' o = get_level Samples.estate_session o)
    /\ (forall (l : ObjectDef) (other : string),
           get_level Samples.estate_session (mkRef 0 0) = Ok l ->
           other <> "n" ->
           exists l' : ObjectDef,
             get_level st' (mkRef 0 0) = Ok l'
             /\ fields l' !! other = fields l !! other).
Proof.
  eexists. split; [reflexivity |].
  eapply (assignment_touches_one_variable Samples.estate_session _ (mkRef 0 0)
            EnvironmentManager.new EnvironmentManager.new "n" (int_value 5)).
  reflexivity.
Defined.

Lemma field_of_another_level_is_unknown_witness :
  (exists l : ObjectDef,
      get_level Samples.estate_session (mkRef 1 1) = Ok l
      /\ is_Some (fields l !! "age"))
  /\ evaluate_expression 1 Samples.estate_session (mkRef 1 0)
       EnvironmentManager.new (Tok "age")
     = Error NAME_ERROR
  /\ set_variable_aux Samples.estate_session (mkRef 1 0) EnvironmentManager.new
       "age" (Some (int_value 4))
     = Error NAME_ERROR.
Proof.
  split; [eexists; split; [reflexivity | eexists; reflexivity] |].
  eapply (field_of_another_level_is_unknown 0 Samples.estate_session (mkRef 1 0)
            EnvironmentManager.new _ "age" (int_value 4)).
  - reflexivity.
  - reflexivity.
  - reflexivity.
  - reflexivity.
  - discriminate.
Defined.

Lemma call_on_null_is_fault_error_witness :
  execute_statement 2 Samples.estate_session (mkRef 0 0) EnvironmentManager.new
    (mkType NOTHING_DEF) (Lst [Tok CALL_DEF; Tok "pet"; Tok "years"])
  = Error FAULT_ERROR
  /\ evaluate_expression 2 Samples.estate_session (mkRef 0 0)
       EnvironmentManager.new (Lst [Tok CALL_DEF; Tok "pet"; Tok "years"])
     = Error FAULT_ERROR.
Proof.
  apply (call_on_null_is_fault_error 1 Samples.estate_session
           Samples.estate_session (mkRef 0 0) EnvironmentManager.new
           EnvironmentManager.new (mkType NOTHING_DEF) (Tok "pet") [Tok "years"]
           (mkValue (mkType "Animal") None)).
  - discriminate.
  - discriminate.
  - reflexivity.
  - reflexivity.
Defined.

Lemma call_through_super_without_superclass_is_type_error_witness :
  execute_statement 1 Examples.bare_session Examples.bare_object
    EnvironmentManager.new (mkType NOTHING_DEF)
    (Lst [Tok CALL_DEF; Tok SUPER_DEF; Tok "f"])
  = Error TYPE_ERROR
  /\ evaluate_expression 1 Examples.bare_session Examples.bare_object
       EnvironmentManager.new (Lst [Tok CALL_DEF; Tok SUPER_DEF; Tok "f"])
     = Error TYPE_ERROR.
Proof.
  apply (call_through_super_without_superclass_is_type_error 0
           Examples.bare_session Examples.bare_object EnvironmentManager.new
           (mkType NOTHING_DEF) [Tok "f"]).
  reflexivity.
Defined.

Lemma return_ends_only_its_method_witness :
  exists (st' : Interpreter) (s : status),
    call_method 3 Samples.estate_session (mkRef 1 1) "years" [] false
    = Ok (st', (s, Some (int_value 3)))
    /\ (s = STATUS_PROCEED \/ s = STATUS_EXCEPTION).
Proof.
  eexists. eexists. split; [reflexivity |].
  eapply (return_ends_only_its_method 3 Samples.estate_session _ (mkRef 1 1)
            EnvironmentManager.new EnvironmentManager.new (mkType NOTHING_DEF)
            (Tok "0") [] "years" [] false _ (Some (int_value 3))).
  left. reflexivity.
Defined.

Lemma unknown_statement_is_syntax_error_witness :
  execute_statement 1 Examples.bare_session Examples.bare_object
    EnvironmentManager.new (mkType NOTHING_DEF) (Lst [Tok "loop"; Tok "x"])
  = Error SYNTAX_ERROR.
Proof.
  apply unknown_statement_is_syntax_error.
  apply (bool_decide_eq_false_1 _). reflexivity.
Defined.

Lemma new_makes_a_fresh_object_witness :
  exists c : ClassDef,
    class_index Samples.estate_session !! "Dog" = Some (Some c)
    /\ exists st' : Interpreter,
         evaluate_expression 1 Samples.estate_session (mkRef 0 0)
           EnvironmentManager.new (Lst [Tok NEW_DEF; Tok "Dog"])
         = Ok (st', EnvironmentManager.new,
               (STATUS_PROCEED,
                Some (mkValue (mkType "Dog")
                        (Some (VObj (mkRef (length (heap Samples.estate_session))
                                           0))))))
         /\ heap st' = (heap Samples.estate_session ++ [ObjectDef_init c])%list
         /\ get_level Samples.estate_session
              (mkRef (length (heap Samples.estate_session)) 0) = Crash
         /\ (exists l : ObjectDef,
                get_level st' (mkRef (length (heap Samples.estate_session)) 0)
                = Ok l
                /\ class_def l = c)
         /\ forall (o : ObjRef) (l : ObjectDef),
              get_level Samples.estate_session o = Ok l -> get_level st' o = Ok l.
Proof.
  eexists. split; [reflexivity |].
  apply (new_makes_a_fresh_object 0 Samples.estate_session (mkRef 0 0)
           EnvironmentManager.new "Dog").
  reflexivity.
Defined.

Lemma program_names_are_distinct_witness :
  exists st' : Interpreter,
    map_class_names_to_class_defs 1 (Samples.typed_session Samples.estate)
      Samples.estate
    = Ok st'
    /\ program_names Samples.estate = ["Animal"; "Dog"; "main"]
    /\ (NoDup (program_names Samples.estate)
        /\ (forall nm : string,
               nm ∈ program_names Samples.estate ->
               name_taken (Samples.typed_session Samples.estate) nm = false
               /\ name_taken st' nm = true)
        /\ (forall nm : string,
               name_taken (Samples.typed_session Samples.estate) nm = true ->
               name_taken st' nm = true)).
Proof.
  eexists. split; [reflexivity |]. split; [reflexivity |].
  eapply (program_names_are_distinct 1). reflexivity.
Defined.

Lemma blueprint_is_checked_token_by_token_witness :
  TemplateClassDef_init (initial []) (Samples.box "box@home")
  = Error TYPE_ERROR
  /\ TemplateClassDef_init (initial []) (Samples.box "box at home")
     = Ok (mkTemplateClassDef "Box" (Samples.box "box at home") [Tok "T"]).
Proof.
  split.
  - exact (blueprint_is_checked_token_by_token
             (initial []) (Samples.box "box@home") [Tok "T"] "Box"
             eq_refl eq_refl).
  - exact (blueprint_is_checked_token_by_token
             (initial []) (Samples.box "box at home") [Tok "T"] "Box"
             eq_refl eq_refl).
Defined.

Lemma declarations_outlive_the_statement_witness :
  exists (st' : Interpreter) (env' : list frame),
    execute_statement 6 Examples.bare_session Examples.bare_object
      Samples.counter_scopes (mkType NOTHING_DEF) Samples.count_up
    = Ok (st', env', (STATUS_PROCEED, None))
    /\ EnvironmentManager.get env' "x"
       = Some (mkVariableDef (mkType INT_DEF) "x" (Some (int_value 7)))
    /\ same_scopes Samples.counter_scopes env'
    /\ forall name : string,
         match EnvironmentManager.get Samples.counter_scopes name,
               EnvironmentManager.get env' name with
         | Some d, Some d' => var_type d' = var_type d /\ var_name d' = var_name d
         | None, None => True
         | _, _ => False
         end.
Proof.
  eexists. eexists. split; [reflexivity |]. split; [reflexivity |].
  eapply (declarations_outlive_the_statement 6 Examples.bare_session _
            Examples.bare_object Samples.counter_scopes _
            (mkType NOTHING_DEF) Samples.count_up (STATUS_PROCEED, None)).
  left. reflexivity.
Defined.
